(** * Mindi Kot: the card model, the seeded deal and the trick rules

    A shallow embedding of [src/logic/deck.ts], [src/logic/mindi.ts], of
    the transactions of [app/game.tsx] ([hostStartHand], [playCard] and
    [revealTrumpAndPlay], with the press handler that calls [playCard] and
    the flag that shows the reveal buttons), of the seating of the lobby
    ([App.tsx]) and of the table formats of the setup screen
    ([app/setup.tsx]), followed by the properties proved about them.

    Conventions of the embedding.
    - The template-literal type [Card = `${Rank}${Suit}`] is a record of its
      two components; [cardRank] and [cardSuit] (the two [slice] calls) are
      its projections and [card_string] gives the two-character string back
      where the source compares cards as strings.
    - JavaScript numbers that hold seat numbers, play orders and comparator
      results are integers ([Z]); array lengths and loop counters are [nat].
    - [null] and [undefined] of an optional field are [None].
    - A [TypeError] or an explicit [throw] is an error result.
    - [seedrandom] is an npm package: the generator it returns for a seed is
      a parameter, the stream of the numbers its successive calls return.
      [Math.random()] is ambient: the number it returns in a call is an
      explicit argument of the function that makes the call. *)

From Stdlib Require Import QArith Qround.
From stdpp Require Import base option list sorting gmap strings.

Open Scope Z_scope.

(* ===================================================================== *)
(** ** deck.ts *)
(* ===================================================================== *)

Inductive Suit := S_ | H_ | D_ | C_.
Inductive Rank := RA | RK | RQ | RJ | RT | R9 | R8 | R7 | R6 | R5 | R4 | R3.

Record Card := mkCard { cardRank : Rank; cardSuit : Suit }.

#[global] Instance Suit_eq_dec : EqDecision Suit.
Proof. solve_decision. Defined.
#[global] Instance Rank_eq_dec : EqDecision Rank.
Proof. solve_decision. Defined.
#[global] Instance Card_eq_dec : EqDecision Card.
Proof. solve_decision. Defined.

Definition RANKS : list Rank := [RA; RK; RQ; RJ; RT; R9; R8; R7; R6; R5; R4; R3].
Definition SUITS : list Suit := [S_; H_; D_; C_].

Definition rank_string (r : Rank) : string :=
  match r with
  | RA => "A" | RK => "K" | RQ => "Q" | RJ => "J" | RT => "T" | R9 => "9"
  | R8 => "8" | R7 => "7" | R6 => "6" | R5 => "5" | R4 => "4" | R3 => "3"
  end.

Definition suit_string (s : Suit) : string :=
  match s with S_ => "S" | H_ => "H" | D_ => "D" | C_ => "C" end.

(** [`${r}${s}`] *)
Definition card_string (c : Card) : string :=
  (rank_string (cardRank c) +:+ suit_string (cardSuit c))%string.

(** [for (const s of SUITS) for (const r of RANKS) deck.push(`${r}${s}`)] *)
Definition buildSingleDeckNoTwos : list Card :=
  s ← SUITS; r ← RANKS; [mkCard r s].

(** [deckCount] has the type [1 | 2]. *)
Inductive DeckCount := One | Two.

#[global] Instance DeckCount_eq_dec : EqDecision DeckCount.
Proof. solve_decision. Defined.

Definition buildDecksNoTwos (deckCount : DeckCount) : list Card :=
  let one := buildSingleDeckNoTwos in
  match deckCount with One => one | Two => one ++ one end.

(** *** Seeded Fisher-Yates *)

(** [Math.floor(u * n)] for a number [u] and an array length [n]. The
    rounding of the floating-point product is not modelled; the proofs use
    only that the result is below [n] when [0 <= u < 1]. *)
Definition floor_mul (u : Q) (n : nat) : nat :=
  Z.to_nat (Qfloor (u * inject_Z (Z.of_nat n))).

(** [[a[i], a[j]] = [a[j], a[i]]]: both elements are read, then both are
    written. The loop of [shuffle] only swaps inside the array ([j <= i <
    a.length]); outside it JavaScript would read [undefined] and grow the
    array, which a [list T] cannot hold, and the array is left as it is. *)
Definition swap {T} (a : list T) (i j : nat) : list T :=
  match a !! i, a !! j with
  | Some x, Some y => <[j := x]> (<[i := y]> a)
  | _, _ => a
  end.

(** The loop [for (let i = a.length - 1; i > 0; i--)], entered with the loop
    variable at [i] when [rng] has been called [k] times. *)
Fixpoint shuffle_loop {T} (rng : nat → Q) (k : nat) (i : nat) (a : list T)
  : list T :=
  match i with
  | O => a
  | S i' =>
      let j := floor_mul (rng k) (i + 1) in
      shuffle_loop rng (k + 1) i' (swap a i j)
  end.

(** The two arrays [shuffle] holds when it returns: its argument [arr] and
    the array [a] it returns. *)
Record ShuffleRun (T : Type) := mkShuffleRun { run_arr : list T; run_a : list T }.
Arguments mkShuffleRun {T}.
Arguments run_arr {T}.
Arguments run_a {T}.

Section Seeded.
(** [seedrandom seed k] is what the [k]-th call of the generator
    [seedrandom(seed)] returns. *)
Variable seedrandom : string → nat → Q.

(** State passing over the pair ([arr], [a]): [a = arr.slice()] copies,
    and every write of the loop goes to [a]. *)
Definition shuffle_run {T} (arr : list T) (seed : string) : ShuffleRun T :=
  let rng := seedrandom seed in
  let a := arr in
  let a := shuffle_loop rng 0 (length a - 1) a in
  mkShuffleRun arr a.

Definition shuffle {T} (arr : list T) (seed : string) : list T :=
  run_a (shuffle_run arr seed).
End Seeded.

(** [Math.floor(total / players)] is [Infinity] for [players = 0]; natural
    division gives [0] there. The only use of that value in [planDeal] is
    the loop bound [players * each], which is [NaN] in the source and [0]
    here: in both the loop does not run. *)
Definition cardsPerPlayer (players : nat) (deckCount : DeckCount) : nat :=
  if decide (players = 6%nat ∧ deckCount = One) then 8%nat
  else if decide (players = 8%nat ∧ deckCount = One) then 6%nat
  else if decide (players = 8%nat ∧ deckCount = Two) then 12%nat
  else if decide (players = 4%nat ∧ deckCount = One) then 12%nat
  else
    let total := length (buildDecksNoTwos deckCount) in
    (total / players)%nat.

Definition RANK_POWER (r : Rank) : Z :=
  match r with
  | RA => 12 | RK => 11 | RQ => 10 | RJ => 9 | RT => 8 | R9 => 7
  | R8 => 6 | R7 => 5 | R6 => 4 | R5 => 3 | R4 => 2 | R3 => 1
  end.

Record Play := mkPlay { seat : Z; card : Card; order : Z }.

#[global] Instance Play_eq_dec : EqDecision Play.
Proof. solve_decision. Defined.

(** *** [Array.prototype.sort]

    The sort is stable, and for a consistent comparator its result is the
    one sorted arrangement that keeps equal elements in their order. It is
    modelled by the stable insertion sort: an element goes in front of the
    first element of the sorted rest that it does not compare above. *)
Fixpoint sort_insert {T} (cmp : T → T → Z) (x : T) (l : list T) : list T :=
  match l with
  | [] => [x]
  | y :: l' => if cmp x y <=? 0 then x :: y :: l' else y :: sort_insert cmp x l'
  end.

Fixpoint js_sort {T} (cmp : T → T → Z) (l : list T) : list T :=
  match l with
  | [] => []
  | x :: l' => sort_insert cmp x (js_sort cmp l')
  end.

(** The comparator of [evaluateTrickWinner]. *)
Definition trick_cmp (a b : Play) : Z :=
  let ra := RANK_POWER (cardRank (card a)) in
  let rb := RANK_POWER (cardRank (card b)) in
  if decide (ra ≠ rb) then ra - rb
  else if decide (cardSuit (card a) ≠ cardSuit (card b)) then 0
  else order a - order b.

(** [contenders[contenders.length - 1]] is [undefined] for an empty array:
    the result is [None] then. [ledSuit] is declared a [Suit], and
    [playCard] passes [room.ledSuit as Suit], which may be [null]: the
    parameter is an option, and no card is of the suit [null]. *)
Definition evaluateTrickWinner (plays : list Play) (ledSuit : option Suit)
    (trumpSuit : option Suit) : option Play :=
  let hasTrump :=
    match trumpSuit with
    | Some t => existsb (λ p, bool_decide (cardSuit (card p) = t)) plays
    | None => false
    end in
  let contenders :=
    match hasTrump, trumpSuit with
    | true, Some t => filter (λ p, cardSuit (card p) = t) plays
    | _, _ => filter (λ p, Some (cardSuit (card p)) = ledSuit) plays
    end in
  let contenders := js_sort trick_cmp contenders in
  last contenders.

Definition legalPlays (hand : list Card) (ledSuit : option Suit) : list Card :=
  match ledSuit with
  | None => hand
  | Some l =>
      let ofLed := filter (λ c, cardSuit c = l) hand in
      if decide (length ofLed ≠ 0%nat) then ofLed else hand
  end.

(** [l.indexOf(x)]: the first position of [x], or [-1]. *)
Definition indexOf {T} `{EqDecision T} (l : list T) (x : T) : Z :=
  match list_find (λ y, y = x) l with
  | Some (i, _) => Z.of_nat i
  | None => -1
  end.

(* ===================================================================== *)
(** ** mindi.ts *)
(* ===================================================================== *)

(** One entry of [DealPlan.hands], and the document [MyHandDoc] of the
    game screen. *)
Record HandDoc := mkHand { visible : list Card; hidden : option Card }.

Record DealPlan := mkDealPlan {
  dp_deckCount : DeckCount;
  dp_players : nat;
  dp_hiderSeat : nat;
  dp_leaderSeat : nat;
  dp_trumpSuit : Suit;
  dp_hands : list HandDoc;
  dp_seed : string
}.

Definition SUIT_ORDER (s : Suit) : Z :=
  match s with S_ => 0 | H_ => 1 | D_ => 2 | C_ => 3 end.

Definition sortBySuitRank (a b : Card) : Z :=
  let sa := cardSuit a in
  let sb := cardSuit b in
  if decide (sa ≠ sb) then SUIT_ORDER sa - SUIT_ORDER sb
  else
    let ra := indexOf RANKS (cardRank a) in
    let rb := indexOf RANKS (cardRank b) in
    ra - rb.

(** A counting loop [for (let i = start; ...; i++)] of [n] rounds whose body
    may throw. *)
Fixpoint for_loop {St} (body : St → nat → option St) (i n : nat) (st : St)
  : option St :=
  match n with
  | O => Some st
  | S n' => st' ← body st i; for_loop body (i + 1) n' st'
  end.

(** The body of the dealing loop of [planDeal] on the pair ([raw], [seat]):
    [raw[seat].push(deck[i]); seat = (seat + 1) % players]. [raw[seat]] is
    [undefined] for a seat that is no index of [raw], and the [push] throws.
    [deck[i]] is defined for every [i] the loop reaches ([players * each]
    does not exceed the deck, [deal_within_deck] below); the model has no
    [undefined] card and stops there as well. *)
Definition deal_step (deck : list Card) (players : nat)
    (st : list (list Card) * nat) (i : nat) : option (list (list Card) * nat) :=
  let '(raw, seat) := st in
  hand ← raw !! seat;
  c ← deck !! i;
  Some (<[seat := hand ++ [c]]> raw, (seat + 1) `mod` players)%nat.

(** [raw] after the dealing loop. *)
Definition deal (deck : list Card) (players each leaderSeat : nat)
  : option (list (list Card)) :=
  let raw := replicate players [] in
  fst <$> for_loop (deal_step deck players) 0 (players * each) (raw, leaderSeat).

Section Deal.
Variable seedrandom : string → nat → Q.

(** [random] is the number [Math.random()] returns in this call. The
    result is [None] when the source throws a [TypeError]: [raw[seat]] or
    [raw[hiderSeat]] undefined, or no card to hide ([cardSuit(undefined)]).
    [splice] removes the hidden card from [raw[hiderSeat]] in place. *)
Definition planDeal (players : nat) (deckCount : DeckCount)
    (hiderSeat leaderSeat : nat) (seed : string) (random : Q)
  : option DealPlan :=
  let deck := shuffle seedrandom (buildDecksNoTwos deckCount) seed in
  let each := cardsPerPlayer players deckCount in
  raw ← deal deck players each leaderSeat;
  hiderHand ← raw !! hiderSeat;
  let idx := floor_mul random (length hiderHand) in
  hidden_card ← hiderHand !! idx;
  let raw := <[hiderSeat := delete idx hiderHand]> raw in
  let trumpSuit := cardSuit hidden_card in
  let hands :=
    imap (λ s arr,
            mkHand (js_sort sortBySuitRank arr)
                   (if decide (s = hiderSeat) then Some hidden_card else None))
         raw in
  Some (mkDealPlan deckCount players hiderSeat leaderSeat trumpSuit hands seed).
End Deal.

(** [trumpRevealed] is only tested for truth: [undefined] is [false]. The
    parameter [hidden] is not read. *)
Definition canRevealTrump (handVisible : list Card) (hidden_card : option Card)
    (ledSuit : option Suit) (trumpRevealed : bool) : bool :=
  if trumpRevealed then false
  else match ledSuit with
       | None => false
       | Some l =>
           let hasLed := existsb (λ c, bool_decide (cardSuit c = l)) handVisible in
           if hasLed then false else true
       end.

Definition undefinedIfUnrevealed (trumpSuit : Suit) (plays : list Play)
  : option Suit :=
  Some trumpSuit.

Record TrickResult := mkTrickResult { winnerSeat : Z; tensTaken : nat }.

(** [win.seat] throws when [evaluateTrickWinner] returned [undefined]. *)
Definition resolveTrick (plays : list Play) (ledSuit trumpSuit : Suit)
    (players : nat) : option TrickResult :=
  win ← evaluateTrickWinner plays (Some ledSuit)
          (undefinedIfUnrevealed trumpSuit plays);
  let tens := length (filter (λ p, cardRank (card p) = RT) plays) in
  Some (mkTrickResult (seat win) tens).

Definition handFinished (hands : list HandDoc) : bool :=
  forallb (λ h, bool_decide (length (visible h) = 0%nat)
                && bool_decide (hidden h = None)) hands.

(** The hand [h] after the call (the function mutates [h] and returns
    nothing). A card is a non-empty string: [if (h.hidden)] tests for a
    card. *)
Definition applyRevealOnHand (h : HandDoc) (usingHidden : bool)
    (playedIfNotHidden : option Card) : HandDoc :=
  if usingHidden then mkHand (visible h) None
  else match hidden h with
       | Some c => mkHand (js_sort sortBySuitRank (visible h ++ [c])) None
       | None => h
       end.

(* ===================================================================== *)
(** ** game.tsx: the room, the store and the two play transactions *)
(* ===================================================================== *)

(** The fields of the room document that [playCard] and
    [revealTrumpAndPlay] read or write. Where every use of an optional
    field treats [undefined] like a default, the field holds the default:
    [trumpRevealed] ([false]), [plays] ([[]]), [trickIndex] ([0]) and
    [tensByTeam] ([{}]). [currentTurnSeat] is [None] for [undefined] and for
    [NaN]: both differ from every seat and both are replaced by [0] in
    [currentTurnSeat || 0]. The timestamp [updatedAt] of a hand document and
    the store's own validation of field values are outside the model. *)
Record RoomState := mkRoom {
  seats : option (list string);
  teamMap : option (list string);
  hiderSeat : option Z;
  trumpSuit : option Suit;
  trumpRevealed : bool;
  trumpRevealedBySeat : option Z;
  currentTurnSeat : option Z;
  ledSuit : option Suit;
  plays : list Play;
  trickIndex : Z;
  tensByTeam : gmap string Z
}.

(** The documents under [rooms/{roomId}]: the room document and the private
    hand documents [hands/{uid}]. *)
Record Db := mkDb {
  db_room : option RoomState;
  db_hands : gmap string HandDoc
}.

(** What a screen holds: its room id, its user id, and the snapshots of the
    room and of its own hand that the subscriptions delivered last. *)
Record Client := mkClient {
  roomId : option string;
  uid : option string;
  state : option RoomState;
  myHand : option HandDoc
}.

(** The end of a call: it returned before any transaction, the transaction
    function threw (nothing is written, the store stays as it is), or the
    transaction committed and the store is [db']. *)
Inductive Outcome :=
| Returned
| Thrown (msg : string)
| Committed (db' : Db).

(** A string that is present and not empty. *)
Definition truthy (o : option string) : option string :=
  match o with
  | Some s => if decide (s = EmptyString) then None else Some s
  | None => None
  end.

(** [l[z]] for a number [z]. *)
Definition lookupZ {T} (l : list T) (z : Z) : option T :=
  if z <? 0 then None else l !! Z.to_nat z.

(** [l.splice(idx, 1)] after [idx = l.indexOf(x)], when [idx >= 0]. *)
Fixpoint remove_first {T} `{EqDecision T} (x : T) (l : list T) : list T :=
  match l with
  | [] => []
  | y :: l' => if decide (y = x) then l' else y :: remove_first x l'
  end.

(** The comparator of [sort()] without argument on card strings. *)
Definition default_cmp (a b : Card) : Z :=
  match String.compare (card_string a) (card_string b) with
  | Lt => -1
  | Eq => 0
  | Gt => 1
  end.

(** [((cur || 0) + 1) % totalPlayers]; [%] keeps the sign of the dividend
    and is [NaN] for a zero divisor. *)
Definition next_seat (cur : option Z) (totalPlayers : nat) : option Z :=
  if decide (totalPlayers = 0%nat) then None
  else Some (Z.rem (default 0 cur + 1) (Z.of_nat totalPlayers)).

(** The resolution both transactions run on a full trick: the winner, and
    the tens of the trick added to the count of the winner's team. A team
    read outside [teamMap] is [undefined], as a key the string of that. *)
Definition credit_trick (room : RoomState) (newPlays : list Play)
    (led trump : option Suit) : option (Play * gmap string Z) :=
  win ← evaluateTrickWinner newPlays led trump;
  let tens := length (filter (λ p, cardRank (card p) = RT) newPlays) in
  let tensByTeam := tensByTeam room in
  team_map ← teamMap room;
  let winnerTeam := default "undefined"%string (lookupZ team_map (seat win)) in
  Some (win, <[winnerTeam := default 0 (tensByTeam !! winnerTeam) + Z.of_nat tens]> tensByTeam).

(** [playCard(card)]. The turn test before the transaction reads the
    screen's snapshot [state]; the transaction reads the stored room and the
    stored hand of the user. A missing document is [undefined], and reading
    a field of it throws. *)
Definition playCard (c : Client) (db : Db) (played : Card) : Outcome :=
  match truthy (roomId c) ≫= λ _, truthy (uid c), state c, myHand c with
  | Some uid, Some state, Some _ =>
      let mySeat := match seats state with
                    | Some ss => indexOf ss uid
                    | None => -1
                    end in
      if decide (Some mySeat ≠ currentTurnSeat state) then Returned
      else
        match db_room db, db_hands db !! uid with
        | None, _ | _, None => Thrown "TypeError"
        | Some room, Some hand =>
            let isFirstPlay := bool_decide (length (plays room) = 0%nat) in
            let led := if isFirstPlay then Some (cardSuit played) else ledSuit room in
            let vis := visible hand in
            if indexOf vis played <? 0 then Thrown "Card not in your hand"
            else
              let vis := remove_first played vis in
              let play := mkPlay mySeat played (Z.of_nat (length (plays room))) in
              let newPlays := plays room ++ [play] in
              match seats room with
              | None => Thrown "TypeError"
              | Some ss =>
                  let totalPlayers := length ss in
                  let hands' := <[uid := mkHand vis (hidden hand)]> (db_hands db) in
                  if decide (length newPlays = totalPlayers) then
                    let trump := if trumpRevealed room then trumpSuit room else None in
                    match credit_trick room newPlays led trump with
                    | None => Thrown "TypeError"
                    | Some (win, tens') =>
                        Committed
                          (mkDb (Some (mkRoom (seats room) (teamMap room) (hiderSeat room)
                                         (trumpSuit room) (trumpRevealed room)
                                         (trumpRevealedBySeat room)
                                         (Some (seat win)) None [] (trickIndex room + 1)
                                         tens'))
                                hands')
                    end
                  else
                    Committed
                      (mkDb (Some (mkRoom (seats room) (teamMap room) (hiderSeat room)
                                     (trumpSuit room) (trumpRevealed room)
                                     (trumpRevealedBySeat room)
                                     (next_seat (currentTurnSeat room) totalPlayers)
                                     led newPlays (trickIndex room) (tensByTeam room)))
                            hands')
              end
        end
  | _, _, _ => Returned
  end.

(** The handler of a press on the card [item] of the own hand:
    [playable && playCard(item)], with [playable], [amCurrent], [meSeat] and
    [legal] as the screen computes them. The screen shows no hand before the
    room snapshot has arrived. *)
Definition pressCard (c : Client) (db : Db) (item : Card) : Outcome :=
  match state c with
  | None => Returned
  | Some st =>
      let meSeat := match seats st, truthy (uid c) with
                    | Some ss, Some u => indexOf ss u
                    | _, _ => -1
                    end in
      let amCurrent := bool_decide (currentTurnSeat st = Some meSeat) in
      let legal := match myHand c with
                   | Some h => legalPlays (visible h) (ledSuit st)
                   | None => []
                   end in
      let playable := amCurrent && bool_decide (item ∈ legal) in
      if playable then playCard c db item else Returned
  end.

(** [revealTrumpAndPlay(useHiddenIfOnly)]. The tests before the transaction
    read the screen's snapshots [state] and [myHand]; the transaction reads
    the stored room and the stored hand of the user, and writes that hand
    and the room. [choice] is the pair of [cardToPlay] and [usingHidden], or
    the message of the [throw]; the sorted array of visible trumps is not
    empty where its last element is taken. *)
Definition revealTrumpAndPlay (c : Client) (db : Db) (useHiddenIfOnly : bool)
  : Outcome :=
  match truthy (roomId c) ≫= λ _, truthy (uid c), state c, myHand c with
  | Some uid, Some state, Some myHand =>
      match ledSuit state with
      | None => Returned
      | Some led =>
          if trumpRevealed state then Returned
          else
            let legal := legalPlays (visible myHand) (Some led) in
            let haveLed := existsb (λ x, bool_decide (cardSuit x = led)) legal in
            if haveLed then Returned
            else
              match db_room db with
              | None => Thrown "TypeError"
              | Some room =>
                  match seats room with
                  | None => Thrown "TypeError"
                  | Some ss =>
                      let mySeat := indexOf ss uid in
                      if decide (Some mySeat ≠ currentTurnSeat room)
                      then Thrown "Not your turn"
                      else
                        match db_hands db !! uid with
                        | None => Thrown "TypeError"
                        | Some hand =>
                            let trump := trumpSuit room in
                            let visibleTrumps :=
                              filter (λ x, Some (cardSuit x) = trump) (visible hand) in
                            let choice :=
                              if decide (length visibleTrumps ≠ 0%nat) then
                                match last (js_sort default_cmp visibleTrumps) with
                                | Some x => inr (x, false)
                                | None => inl "TypeError"%string
                                end
                              else
                                match hidden hand with
                                | Some h =>
                                    if decide (Some (cardSuit h) = trump) then
                                      if useHiddenIfOnly then inr (h, true)
                                      else inl "Only hidden trump available, pass useHiddenIfOnly=true"%string
                                    else inl "No trump to reveal with"%string
                                | None => inl "No trump to reveal with"%string
                                end in
                            match choice with
                            | inl msg => Thrown msg
                            | inr (cardToPlay, usingHidden) =>
                                let vis :=
                                  if usingHidden then visible hand
                                  else
                                    let vis := remove_first cardToPlay (visible hand) in
                                    match hidden hand with
                                    | Some h => vis ++ [h]
                                    | None => vis
                                    end in
                                let play := mkPlay mySeat cardToPlay
                                              (Z.of_nat (length (plays room))) in
                                let newPlays := plays room ++ [play] in
                                let totalPlayers := length ss in
                                let led' :=
                                  match ledSuit room with
                                  | Some l => Some l
                                  | None => cardSuit ∘ card <$> head newPlays
                                  end in
                                let hands' :=
                                  <[uid := mkHand (js_sort default_cmp vis) None]>
                                    (db_hands db) in
                                if decide (length newPlays = totalPlayers) then
                                  match credit_trick room newPlays led' (trumpSuit room) with
                                  | None => Thrown "TypeError"
                                  | Some (win, tens') =>
                                      Committed
                                        (mkDb (Some (mkRoom (seats room) (teamMap room)
                                                       (hiderSeat room) (trumpSuit room)
                                                       true (Some mySeat)
                                                       (Some (seat win)) None []
                                                       (trickIndex room + 1) tens'))
                                              hands')
                                  end
                                else
                                  Committed
                                    (mkDb (Some (mkRoom (seats room) (teamMap room)
                                                   (hiderSeat room) (trumpSuit room)
                                                   true (Some mySeat)
                                                   (next_seat (currentTurnSeat room) totalPlayers)
                                                   led' newPlays
                                                   (trickIndex room) (tensByTeam room)))
                                          hands')
                            end
                        end
                  end
              end
      end
  | _, _, _ => Returned
  end.

(* ===================================================================== *)
(** ** The rest of deck.ts and mindi.ts *)
(* ===================================================================== *)

(** The body of the loop of [dealToPlayers] on the pair ([hands], [p]):
    [hands[p].push(deck[i]); p = (p + 1) % players]. The deck is any array:
    past its end [deck[i]] is [undefined], which is pushed like a card, so
    an entry of a hand is an optional card. [hands[p]] is [undefined] for a
    seat that is no index of [hands], and the [push] throws. *)
Definition dealToPlayers_step (deck : list Card) (players : nat)
    (st : list (list (option Card)) * nat) (i : nat)
  : option (list (list (option Card)) * nat) :=
  let '(hands, p) := st in
  hand ← hands !! p;
  Some (<[p := hand ++ [deck !! i]]> hands, (p + 1) `mod` players)%nat.

Definition dealToPlayers (deck : list Card) (players startSeat each : nat)
  : option (list (list (option Card))) :=
  let hands := replicate players [] in
  fst <$> for_loop (dealToPlayers_step deck players) 0 (players * each)
            (hands, startSeat).

(** [a % b] for a number of players [b]: [NaN], here [None], for [b = 0];
    the sign is the sign of [a]. *)
Definition js_rem (a : Z) (b : nat) : option Z :=
  if decide (b = 0%nat) then None else Some (Z.rem a (Z.of_nat b)).

(** The result of [computeHiderAndLeader]; a seat is [None] when it is
    [NaN]. *)
Record HiderLeader := mkHiderLeader { hl_hider : option Z; hl_leader : option Z }.

(** [prevHiderSeat == null] holds for [null] and for [undefined]. Both
    branches of [hostIsSeat0 ? 0 : 0] are [0]. *)
Definition computeHiderAndLeader (prevHiderSeat : option Z) (players : nat)
    (hostIsSeat0 : bool) : HiderLeader :=
  let hider :=
    match prevHiderSeat with
    | None => Some (if hostIsSeat0 then 0 else 0)
    | Some prev => js_rem (prev + 1) players
    end in
  let leader := hider ≫= λ h, js_rem (h + 1) players in
  mkHiderLeader hider leader.

(** [legalPlays(handVisible, ledSuit ?? undefined)] *)
Definition legalToPlay (handVisible : list Card) (ledSuit : option Suit)
  : list Card :=
  legalPlays handVisible ledSuit.

(* ===================================================================== *)
(** ** The lobby and the setup screen *)
(* ===================================================================== *)

(** A row of the players of a room: the fields the seating reads. *)
Record Player := mkPlayer {
  p_uid : string;
  p_seat : Z;
  p_team : string;
  p_isHost : bool
}.

(** The loop [while (taken.has(seat)) seat++] of [claimSeat], run for at
    most [fuel] tests; [taken] holds the seats of the players. *)
Fixpoint first_free_loop (taken : list Z) (fuel : nat) (seat : Z) : option Z :=
  match fuel with
  | O => None
  | S fuel' =>
      if decide (seat ∈ taken) then first_free_loop taken fuel' (seat + 1)
      else Some seat
  end.

(** [nextSeatAndTeam]: the seat found from [0], and the team [seat % 2 === 0
    ? 'A' : 'B']. The loop leaves a free seat after at most one test more
    than there are players ([first_free_loop_returns]). *)
Definition nextSeatAndTeam (players : list Player) : option (Z * string) :=
  let taken := p_seat <$> players in
  seat ← first_free_loop taken (S (length players)) 0;
  let team := if decide (Z.rem seat 2 = 0) then "A"%string else "B"%string in
  Some (seat, team).

(** [claimSeat] of App.tsx on a screen that is in a room: the player
    document it writes for the signed-in user [uid]; none (an alert) when
    the user is in the list already. *)
Definition claimSeat (players : list Player) (uid : string) : option Player :=
  if decide (uid ∈ p_uid <$> players) then None
  else
    '(seat, team) ← nextSeatAndTeam players;
    Some (mkPlayer uid seat team (bool_decide (length players = 0%nat))).

(** [players.slice().sort((a, b) => a.seat - b.seat)] *)
Definition by_seat (players : list Player) : list Player :=
  js_sort (λ a b, p_seat a - p_seat b) players.

(** The seat list and the team list that [continueToSetup] and [applyTeams]
    write to the room. *)
Definition seatsOrdered (players : list Player) : list string :=
  p_uid <$> by_seat players.

Definition teamMapOrdered (players : list Player) : list string :=
  p_team <$> by_seat players.

Inductive Mode := M_2v2 | M_3v3 | M_3teams_of_2 | M_2v4 | M_4teams_of_2.

#[global] Instance Mode_eq_dec : EqDecision Mode.
Proof. solve_decision. Defined.

(** The team formats the setup screen offers for a player count. *)
Definition setup_options (count : nat) : list Mode :=
  (if decide (count = 4%nat) then [M_2v2] else [])
  ++ (if decide (count = 6%nat) then [M_3v3; M_3teams_of_2] else [])
  ++ (if decide (count = 8%nat) then [M_2v4; M_4teams_of_2] else []).

(** The deck count [applyTeams] writes, [deckCount] being the count chosen
    on the screen. *)
Definition setup_decks (count : nat) (deckCount : DeckCount) : DeckCount :=
  if decide (count = 8%nat) then deckCount else One.

(* ===================================================================== *)
(** ** game.tsx: the reveal buttons and the host's deal *)
(* ===================================================================== *)

(** [isVoid] and [canReveal] of a screen whose room snapshot has arrived:
    the two reveal buttons are shown when [canReveal] is true. *)
Definition screen_canReveal (st : RoomState) (myHand : option HandDoc) : bool :=
  let isVoid :=
    match myHand, ledSuit st with
    | Some h, Some l => negb (existsb (λ x, bool_decide (cardSuit x = l)) (visible h))
    | _, _ => false
    end in
  match myHand with
  | Some _ => negb (trumpRevealed st) && bool_decide (is_Some (ledSuit st)) && isVoid
  | None => false
  end.

(** [buildZeroCounts]: the key order of the object is not modelled. *)
Definition buildZeroCounts (teamMap : list string) : gmap string Z :=
  list_to_map ((λ t, (t, 0)) <$> teamMap).

(** The room document with the fields that the host's deal reads or writes
    besides those of [RoomState]. [handNumber] is only read as
    [room.handNumber ?? 0]: [undefined] is [0]. *)
Record RoomDoc := mkRoomDoc {
  rd_game : RoomState;
  rd_mode : option string;
  rd_deckCount : option DeckCount;
  rd_hostUid : option string;
  rd_handNumber : Z;
  rd_leaderSeat : option Z;
  rd_seed : option string
}.

Record HostDb := mkHostDb {
  hdb_room : option RoomDoc;
  hdb_hands : gmap string HandDoc
}.

(** The host's screen: its room id, its room snapshot, and [amHost], which
    the screen computes from the sign-in and the lobby list. *)
Record HostScreen := mkHostScreen {
  hs_roomId : option string;
  hs_state : option RoomDoc;
  hs_amHost : bool
}.

Inductive HostOutcome :=
| HostReturned
| HostThrown (msg : string)
| HostCommitted (db' : HostDb).

Definition isInitialized (st : RoomDoc) : bool :=
  bool_decide (is_Some (seats (rd_game st)))
  && bool_decide (is_Some (teamMap (rd_game st)))
  && bool_decide (is_Some (truthy (rd_hostUid st)))
  && bool_decide (is_Some (rd_deckCount st))
  && bool_decide (is_Some (truthy (rd_mode st))).

(** A seat number as an index of an array; there is none for [NaN] and for
    a negative number. *)
Definition seat_index (z : option Z) : option nat :=
  z ≫= λ z, if z <? 0 then None else Some (Z.to_nat z).

(** The loop of [hostStartHand] that writes the hand documents:
    [tx.set] replaces the document of [room.seats[s]]. A seat outside
    [room.seats] gives the document id [undefined]. *)
Definition write_hands (ss : list string) (hands_of_plan : list HandDoc)
    (st : gmap string HandDoc) (s : nat) : option (gmap string HandDoc) :=
  let u := default "undefined"%string (ss !! s) in
  hand ← hands_of_plan !! s;
  Some (<[u := hand]> st).

Section HostDeal.
Variable seedrandom : string → nat → Q.

(** [now] is [String(Date.now())] and [random] the number [Math.random()]
    returns inside [planDeal]. A deck count that is not [1] builds two
    decks and finds no entry for one deck in the table of [cardsPerPlayer]:
    [undefined] deals like [2]. A hider or leader seat that is [NaN] or
    negative is no index of [raw], and [planDeal] throws. *)
Definition hostStartHand (c : HostScreen) (db : HostDb) (now : string)
    (random : Q) : HostOutcome :=
  match truthy (hs_roomId c), hs_state c with
  | Some _, Some state =>
      if negb (hs_amHost c) then HostReturned
      else if negb (isInitialized state) then HostReturned
      else
        match seats (rd_game state) with
        | None => HostThrown "TypeError"
        | Some state_seats =>
            let playersCount := length state_seats in
            match hdb_room db with
            | None => HostThrown "TypeError"
            | Some room =>
                let prevHider := hiderSeat (rd_game room) in
                let hl := computeHiderAndLeader prevHider playersCount true in
                let seed := now in
                let plan :=
                  match seat_index (hl_hider hl), seat_index (hl_leader hl) with
                  | Some h, Some l =>
                      planDeal seedrandom playersCount
                        (default Two (rd_deckCount room)) h l seed random
                  | _, _ => None
                  end in
                match plan with
                | None => HostThrown "TypeError"
                | Some plan =>
                    let written :=
                      match seats (rd_game room) with
                      | None =>
                          if decide (playersCount = 0%nat)
                          then Some (hdb_hands db) else None
                      | Some ss =>
                          for_loop (write_hands ss (dp_hands plan)) 0
                            playersCount (hdb_hands db)
                      end in
                    match written with
                    | None => HostThrown "TypeError"
                    | Some hands' =>
                        let g := rd_game room in
                        HostCommitted
                          (mkHostDb
                             (Some (mkRoomDoc
                                      (mkRoom (seats g) (teamMap g)
                                         (hl_hider hl)
                                         (Some (dp_trumpSuit plan)) false None
                                         (hl_leader hl) None [] 0
                                         (buildZeroCounts
                                            (default [] (teamMap g))))
                                      (rd_mode room) (rd_deckCount room)
                                      (rd_hostUid room)
                                      (rd_handNumber room + 1)
                                      (hl_leader hl) (Some seed)))
                             hands')
                    end
                end
            end
        end
  | _, _ => HostReturned
  end.
End HostDeal.

(** A generator for the examples: a fixed stream of tenths that depends on
    the seed's length. Every property below is proved for any generator
    whose numbers lie in [0, 1). *)
Definition demo_seedrandom (seed : string) (k : nat) : Q :=
  Z.of_nat ((k * 7 + String.length seed) `mod` 10) # 10.

(* ===================================================================== *)
(** ** The vocabulary of the properties, and the examples *)
(* ===================================================================== *)

Definition unit_interval (u : Q) : Prop := (0 <= u)%Q ∧ (u < 1)%Q.

(** [deckCount] as the number of decks. *)
Definition deck_number (deckCount : DeckCount) : nat :=
  match deckCount with One => 1 | Two => 2 end.

(** Every swap the loop makes stays inside the array. *)
Inductive swaps_in_range {T} (rng : nat → Q) : nat → nat → list T → Prop :=
| sir_done k a : swaps_in_range rng k 0 a
| sir_step k i a :
    (S i < length a)%nat →
    (floor_mul (rng k) (S i + 1) ≤ S i)%nat →
    swaps_in_range rng (k + 1) i (swap a (S i) (floor_mul (rng k) (S i + 1))) →
    swaps_in_range rng k (S i) a.

(** What a stretch of the loop does to the lengths of the hands: the seats
    from [s0] up to (not including) [s0 + n] get one card each. *)
Definition grown (s0 n : nat) (raw raw' : list (list Card)) : Prop :=
  ∀ s h', raw' !! s = Some h' →
    ∃ h, raw !! s = Some h
         ∧ length h' = (length h + if decide (s0 ≤ s < s0 + n)%nat then 1 else 0)%nat.

(** The order the code sorts a hand in: by suit in the order S, H, D, C,
    and inside a suit the stronger rank first (the order of [RANKS]). *)
Definition display_le (a b : Card) : Prop :=
  SUIT_ORDER (cardSuit a) < SUIT_ORDER (cardSuit b)
  ∨ (cardSuit a = cardSuit b
     ∧ RANK_POWER (cardRank b) <= RANK_POWER (cardRank a)).

(** The order of the specification's sentence: inside a suit the weaker
    rank first. *)
Definition spec_display_le (a b : Card) : Prop :=
  SUIT_ORDER (cardSuit a) < SUIT_ORDER (cardSuit b)
  ∨ (cardSuit a = cardSuit b
     ∧ RANK_POWER (cardRank a) <= RANK_POWER (cardRank b)).

#[global] Instance display_le_dec : RelDecision display_le.
Proof. intros a b. unfold display_le. apply _. Defined.
#[global] Instance spec_display_le_dec : RelDecision spec_display_le.
Proof. intros a b. unfold spec_display_le. apply _. Defined.

(** The hands of a plan, from the dealt hands [raw], the hider's seat and
    the position [idx] of the card to hide. *)
Definition plan_hands (raw : list (list Card)) (hiderSeat : nat)
    (hiderHand : list Card) (idx : nat) (hidden_card : Card) : list HandDoc :=
  imap (λ s arr,
          mkHand (js_sort sortBySuitRank arr)
                 (if decide (s = hiderSeat) then Some hidden_card else None))
       (<[hiderSeat := delete idx hiderHand]> raw).

(** All the cards of a plan: the visible hands, and the hidden card. *)
Definition plan_cards (plan : DealPlan) (h : Card) : list Card :=
  concat (visible <$> dp_hands plan) ++ [h].

Definition power (p : Play) : Z := RANK_POWER (cardRank (card p)).
Definition suit_of (p : Play) : Suit := cardSuit (card p).

(** A trump suit is given and a play is of that suit. *)
Definition trump_played (plays : list Play) (trumpSuit : option Suit) : Prop :=
  ∃ t p, trumpSuit = Some t ∧ p ∈ plays ∧ suit_of p = t.

(** The contenders of the specification: the trump plays when a trump suit
    is given and played, the plays of the led suit otherwise. *)
Definition is_contender (plays : list Play) (ledSuit : Suit)
    (trumpSuit : option Suit) (p : Play) : Prop :=
  p ∈ plays
  ∧ ((trump_played plays trumpSuit ∧ Some (suit_of p) = trumpSuit)
     ∨ (¬ trump_played plays trumpSuit ∧ suit_of p = ledSuit)).

(** The comparator of the sort on plays of one suit: strength, then order. *)
Definition lex_cmp (a b : Play) : Z :=
  if decide (power a ≠ power b) then power a - power b else order a - order b.

Definition spec_trick : list Play :=
  [mkPlay 0 (mkCard RT S_) 0; mkPlay 1 (mkCard RK S_) 1;
   mkPlay 2 (mkCard RA H_) 2; mkPlay 3 (mkCard R9 S_) 3].

(** The screen of [u] is ready to act and, on its room snapshot [st], it is
    the turn of the seat of [u]. *)
Definition on_turn (c : Client) (u : string) (st : RoomState) : Prop :=
  is_Some (truthy (roomId c)) ∧ truthy (uid c) = Some u ∧ state c = Some st
  ∧ is_Some (myHand c)
  ∧ currentTurnSeat st
    = Some (match seats st with Some ss => indexOf ss u | None => -1 end).

(** The seat holds a card of the suit, among its visible cards or as its
    hidden card. *)
Definition holds_suit (s : Suit) (vis : list Card) (hid : option Card) : Prop :=
  (∃ x, x ∈ vis ∧ cardSuit x = s) ∨ (∃ h, hid = Some h ∧ cardSuit h = s).

(** The hand document of [v] has no hidden card. *)
Definition hidden_empty (db : Db) (v : string) : Prop :=
  ∃ h, db_hands db !! v = Some h ∧ hidden h = None.

(** One committed play or reveal of some screen. *)
Inductive game_step : Db → Db → Prop :=
| step_play c played db db' :
    playCard c db played = Committed db' → game_step db db'
| step_reveal c useHiddenIfOnly db db' :
    revealTrumpAndPlay c db useHiddenIfOnly = Committed db' → game_step db db'.

(** A committed play or reveal of a screen whose room snapshot is the stored
    room document. *)
Inductive synced_step : Db → Db → Prop :=
| synced_play c played db db' :
    state c = db_room db →
    playCard c db played = Committed db' → synced_step db db'
| synced_reveal c useHiddenIfOnly db db' :
    state c = db_room db →
    revealTrumpAndPlay c db useHiddenIfOnly = Committed db' → synced_step db db'.

(** Trump is revealed and the hand document of [v] still hides [h]. *)
Definition hidden_after_reveal (db : Db) (v : string) (h : Card) : Prop :=
  ∃ room hand,
    db_room db = Some room ∧ trumpRevealed room = true
    ∧ db_hands db !! v = Some hand ∧ hidden hand = Some h.

(** A table of four in the second play of a trick led in Spades; Clubs is
    the trump suit, not revealed; seat 0 hides the 7 of Clubs; it is the
    turn of seat 2. *)
Definition demo_room : RoomState :=
  mkRoom (Some ["u0"; "u1"; "u2"; "u3"]%string) (Some ["A"; "B"; "A"; "B"]%string)
    (Some 0) (Some C_) false None (Some 2) (Some S_)
    [mkPlay 1 (mkCard RK S_) 0] 0 ∅.

(** Seat 2 holds a Spade. *)
Definition demo_following : Db :=
  mkDb (Some demo_room)
    (<["u0"%string := mkHand [mkCard RA S_; mkCard R5 H_] (Some (mkCard R7 C_))]>
       (<["u2"%string := mkHand [mkCard R9 S_; mkCard RA H_; mkCard R4 C_] None]> ∅)).

(** Seat 2 is void in Spades and holds two Clubs. *)
Definition demo_void : Db :=
  mkDb (Some demo_room)
    (<["u0"%string := mkHand [mkCard RA S_; mkCard R5 H_] (Some (mkCard R7 C_))]>
       (<["u2"%string := mkHand [mkCard RA H_; mkCard R4 C_; mkCard RT C_] None]> ∅)).

(** Seat 2 is void in Spades and in Clubs. *)
Definition demo_no_trump : Db :=
  mkDb (Some demo_room)
    (<["u0"%string := mkHand [mkCard RA S_; mkCard R5 H_] (Some (mkCard R7 C_))]>
       (<["u2"%string := mkHand [mkCard RA H_; mkCard R3 D_] None]> ∅)).

(** Seat 2 leads a trick and holds two Spades and a Heart. *)
Definition demo_lead_room : RoomState :=
  mkRoom (Some ["u0"; "u1"; "u2"; "u3"]%string) (Some ["A"; "B"; "A"; "B"]%string)
    (Some 0) (Some C_) false None (Some 2) None [] 1 ∅.

Definition demo_lead : Db :=
  mkDb (Some demo_lead_room)
    (<["u2"%string := mkHand [mkCard R9 S_; mkCard R5 S_; mkCard RA H_] None]> ∅).

(** The hider at its turn, void in Spades, its only Club hidden. *)
Definition demo_hider_room : RoomState :=
  mkRoom (Some ["u0"; "u1"; "u2"; "u3"]%string) (Some ["A"; "B"; "A"; "B"]%string)
    (Some 0) (Some C_) false None (Some 0) (Some S_)
    [mkPlay 3 (mkCard RK S_) 0] 0 ∅.

Definition demo_hider : Db :=
  mkDb (Some demo_hider_room)
    (<["u0"%string := mkHand [mkCard RA H_; mkCard R5 H_] (Some (mkCard R7 C_))]> ∅).

(** The trick of the specification's test before its last play: Hearts are
    the trump suit, not revealed, and seat 3 is to play the 9 of Spades. *)
Definition demo_last_play : Db :=
  mkDb
    (Some (mkRoom (Some ["u0"; "u1"; "u2"; "u3"]%string)
             (Some ["A"; "B"; "A"; "B"]%string) (Some 0) (Some H_) false None
             (Some 3) (Some S_)
             [mkPlay 0 (mkCard RT S_) 0; mkPlay 1 (mkCard RK S_) 1;
              mkPlay 2 (mkCard RA H_) 2] 0 ∅))
    (<["u3"%string := mkHand [mkCard R9 S_; mkCard R4 D_] None]> ∅).

(** The screen of [u] with the snapshots of [db]. *)
Definition screen_of (u : string) (db : Db) : Client :=
  mkClient (Some "room"%string) (Some u) (db_room db) (db_hands db !! u).

(** The number of cards dealt before the seat [s] gets its first card, when
    the deal starts at [startSeat]. *)
Definition turn_offset (players startSeat s : nat) : nat :=
  if decide (startSeat ≤ s)%nat then (s - startSeat)%nat
  else (players - startSeat + s)%nat.

(** The hand of the seat [s] in a round-robin deal: every [players]-th
    position of the deck from the seat's first one. *)
Definition round_robin_hand (deck : list Card) (players startSeat each s : nat)
  : list (option Card) :=
  (λ k, deck !! (k * players + turn_offset players startSeat s)%nat)
    <$> seq 0 each.

(** The hider of the [n]-th hand after a hand hidden by [prev]. *)
Definition hider_after (players : nat) (n : nat) (prev : option Z) : option Z :=
  Nat.iter n (λ prev, hl_hider (computeHiderAndLeader prev players true)) prev.

(** The trick of a stored room is in order: it is not full, the led suit
    is the suit of its first play (and unset before the first play), and
    the plays are numbered from 0. *)
Definition trick_wf (room : RoomState) : Prop :=
  (∃ ss, seats room = Some ss ∧ (length (plays room) < length ss)%nat)
  ∧ match plays room with
    | [] => ledSuit room = None
    | p :: _ => ledSuit room = Some (suit_of p)
    end
  ∧ ∀ k p, plays room !! k = Some p → order p = Z.of_nat k.

(** The character code of the letter of a rank. *)
Definition letter_code (r : Rank) : Z :=
  match r with
  | RA => 65 | RK => 75 | RQ => 81 | RJ => 74 | RT => 84 | R9 => 57
  | R8 => 56 | R7 => 55 | R6 => 54 | R5 => 53 | R4 => 52 | R3 => 51
  end.

(** The host's screen with the snapshot of [db]. *)
Definition host_screen (db : HostDb) : HostScreen :=
  mkHostScreen (Some "room"%string) (hdb_room db) true.

(** The hands of cards as hands of array entries. *)
Definition as_entries (raw : list (list Card)) : list (list (option Card)) :=
  fmap (M := list) (fmap (M := list) Some) raw.
Arguments as_entries : simpl never.

(** The seat of the user [u] on a room snapshot:
    [state.seats?.indexOf(uid) ?? -1]. *)
Definition seat_on (st : RoomState) (u : string) : Z :=
  match seats st with Some ss => indexOf ss u | None => -1 end.

(** The play [playCard] adds to the trick, the led suit it computes, and
    the hand it writes. *)
Definition play_of (st room : RoomState) (u : string) (played : Card) : Play :=
  mkPlay (seat_on st u) played (Z.of_nat (length (plays room))).

Definition led_after (room : RoomState) (played : Card) : option Suit :=
  if bool_decide (length (plays room) = 0%nat) then Some (cardSuit played)
  else ledSuit room.

Definition hand_after_play (hand : HandDoc) (played : Card) : HandDoc :=
  mkHand (remove_first played (visible hand)) (hidden hand).

(** The room after a play that does not complete the trick, and after one
    that does, won by [win] with the tens counts [tens']. *)
Definition room_after_play (room : RoomState) (ss : list string)
    (led : option Suit) (newPlays : list Play) : RoomState :=
  mkRoom (seats room) (teamMap room) (hiderSeat room) (trumpSuit room)
    (trumpRevealed room) (trumpRevealedBySeat room)
    (next_seat (currentTurnSeat room) (length ss)) led newPlays
    (trickIndex room) (tensByTeam room).

Definition room_after_trick (room : RoomState) (win : Play)
    (tens' : gmap string Z) : RoomState :=
  mkRoom (seats room) (teamMap room) (hiderSeat room) (trumpSuit room)
    (trumpRevealed room) (trumpRevealedBySeat room)
    (Some (seat win)) None [] (trickIndex room + 1) tens'.

(** The same after a reveal by the seat [mySeat]. *)
Definition room_after_reveal (room : RoomState) (ss : list string)
    (mySeat : Z) (led : option Suit) (newPlays : list Play) : RoomState :=
  mkRoom (seats room) (teamMap room) (hiderSeat room) (trumpSuit room)
    true (Some mySeat)
    (next_seat (currentTurnSeat room) (length ss)) led newPlays
    (trickIndex room) (tensByTeam room).

Definition room_after_reveal_trick (room : RoomState) (mySeat : Z)
    (win : Play) (tens' : gmap string Z) : RoomState :=
  mkRoom (seats room) (teamMap room) (hiderSeat room) (trumpSuit room)
    true (Some mySeat)
    (Some (seat win)) None [] (trickIndex room + 1) tens'.

(** The visible trumps of a hand, and the hand a reveal writes. *)
Definition visible_trumps (room : RoomState) (hand : HandDoc) : list Card :=
  filter (λ x, Some (cardSuit x) = trumpSuit room) (visible hand).

Definition hand_after_reveal (hand : HandDoc) (played : Card)
    (usingHidden : bool) : HandDoc :=
  mkHand
    (js_sort default_cmp
       (if usingHidden then visible hand
        else remove_first played (visible hand) ++ option_list (hidden hand)))
    None.

(** The character code of the letter of a suit, and a card string as a
    number: the code of the rank letter, then the code of the suit letter. *)
Definition suit_code (s : Suit) : Z :=
  match s with S_ => 83 | H_ => 72 | D_ => 68 | C_ => 67 end.

Definition card_key (c : Card) : Z :=
  256 * letter_code (cardRank c) + suit_code (cardSuit c).

(** One claim on a lobby list, and a list of the documents after it, in any
    order. *)
Definition lobby_step (players players' : list Player) : Prop :=
  ∃ u p, claimSeat players u = Some p ∧ players' ≡ₚ p :: players.

(** The team of a seat: A and B in turn. *)
Definition team_of_seat (seat : Z) : string :=
  if Z.even seat then "A"%string else "B"%string.

(** The seats [0 .. n-1]. *)
Definition first_seats (n : nat) : list Z := Z.of_nat <$> seq 0 n.

(** The host's screen [c] is ready to deal the stored room [room] of [db],
    whose seat list [ss] has no user twice and as many seats as the seat
    list of the screen's snapshot: between one seat and one seat per card.
    A previous hider is not negative. *)
Definition ready_to_deal (c : HostScreen) (db : HostDb) (room : RoomDoc)
    (ss : list string) : Prop :=
  is_Some (truthy (hs_roomId c)) ∧ hs_amHost c = true
  ∧ (∃ state sseats,
       hs_state c = Some state ∧ isInitialized state = true
       ∧ seats (rd_game state) = Some sseats ∧ length sseats = length ss)
  ∧ hdb_room db = Some room ∧ seats (rd_game room) = Some ss
  ∧ NoDup ss
  ∧ (1 ≤ length ss ≤ length (buildDecksNoTwos (default Two (rd_deckCount room))))%nat
  ∧ ∀ h, hiderSeat (rd_game room) = Some h → 0 <= h.

(** The hider of the next hand of a stored room with [n] seats. *)
Definition next_hider (room : RoomDoc) (n : nat) : nat :=
  match hiderSeat (rd_game room) with
  | None => 0
  | Some h => Z.to_nat ((h + 1) `mod` Z.of_nat n)
  end.

(** The seat after the seat [s] at a table of [n]. *)
Definition seat_after (s n : nat) : nat := ((s + 1) `mod` n)%nat.

(** The room document after the update of [hostStartHand]. *)
Definition room_after_deal (room : RoomDoc) (hider leader : option Z)
    (trump : Suit) (seed : string) : RoomDoc :=
  let g := rd_game room in
  mkRoomDoc
    (mkRoom (seats g) (teamMap g) hider (Some trump) false None leader None []
       0 (buildZeroCounts (default [] (teamMap g))))
    (rd_mode room) (rd_deckCount room) (rd_hostUid room)
    (rd_handNumber room + 1) leader (Some seed).

(** A table of four before its first hand. *)
Definition demo_table_room : RoomDoc :=
  mkRoomDoc
    (mkRoom (Some ["u0"; "u1"; "u2"; "u3"]%string)
       (Some ["A"; "B"; "A"; "B"]%string) None None false None None None [] 0 ∅)
    (Some "2v2"%string) (Some One) (Some "u0"%string) 0 None None.

Definition demo_table : HostDb := mkHostDb (Some demo_table_room) ∅.

(* ===================================================================== *)
(** ** Properties *)
(* ===================================================================== *)

(** *** Numbers in [0, 1) *)

Lemma floor_mul_lt (u : Q) (n : nat) :
  unit_interval u → (0 < n)%nat → (floor_mul u n < n)%nat.
Proof.
  intros [Hlo Hhi] Hn. unfold floor_mul.
  assert (Hn' : (0 < inject_Z (Z.of_nat n))%Q).
  { change 0%Q with (inject_Z 0). rewrite <- Zlt_Qlt. lia. }
  assert (H0 : 0 <= Qfloor (u * inject_Z (Z.of_nat n))).
  { change 0 with (Qfloor (inject_Z 0)) at 1. apply Qfloor_resp_le.
    change (inject_Z 0) with 0%Q. apply Qmult_le_0_compat; [done|].
    by apply Qlt_le_weak. }
  assert (H1 : Qfloor (u * inject_Z (Z.of_nat n)) < Z.of_nat n).
  { rewrite Zlt_Qlt. eapply Qle_lt_trans; [apply Qfloor_le|].
    rewrite <- (Qmult_1_l (inject_Z (Z.of_nat n))) at 2.
    by apply Qmult_lt_compat_r. }
  lia.
Qed.

Lemma demo_seedrandom_range seed k : unit_interval (demo_seedrandom seed k).
Proof.
  unfold unit_interval, demo_seedrandom, Qle, Qlt; simpl.
  pose proof (Nat.mod_upper_bound (k * 7 + String.length seed) 10). lia.
Qed.

(** *** The swap and the Fisher-Yates loop *)

Lemma insert_cons_Permutation {T} (l : list T) (j : nat) (x y : T) :
  l !! j = Some y → y :: <[j := x]> l ≡ₚ x :: l.
Proof.
  revert j. induction l as [|z l IH]; intros [|j] Hj; simplify_eq/=.
  - apply perm_swap.
  - rewrite perm_swap, (IH _ Hj). apply perm_swap.
Qed.

Lemma swap_lookup_Permutation {T} (a : list T) (i j : nat) (x y : T) :
  a !! i = Some x → a !! j = Some y → <[j := x]> (<[i := y]> a) ≡ₚ a.
Proof.
  revert i j. induction a as [|z a IH]; intros [|i] [|j] Hi Hj; simplify_eq/=.
  - done.
  - by apply insert_cons_Permutation.
  - by apply insert_cons_Permutation.
  - f_equiv. by apply IH.
Qed.

Lemma swap_Permutation {T} (a : list T) (i j : nat) : swap a i j ≡ₚ a.
Proof.
  unfold swap. destruct (a !! i) eqn:Hi, (a !! j) eqn:Hj; try done.
  by apply swap_lookup_Permutation.
Qed.

Lemma swap_length {T} (a : list T) (i j : nat) : length (swap a i j) = length a.
Proof. apply Permutation_length, swap_Permutation. Qed.

(** Inside the array the swap is the source's: position [i] gets the old
    [a[j]] and position [j] the old [a[i]]. *)
Lemma swap_in_range {T} (a : list T) (i j : nat) :
  (i < length a)%nat → (j < length a)%nat →
  ∃ x y, a !! i = Some x ∧ a !! j = Some y
         ∧ swap a i j = <[j := x]> (<[i := y]> a).
Proof.
  intros Hi Hj.
  destruct (lookup_lt_is_Some_2 a i Hi) as [x Hx].
  destruct (lookup_lt_is_Some_2 a j Hj) as [y Hy].
  exists x, y. unfold swap. by rewrite Hx, Hy.
Qed.

Lemma shuffle_loop_in_range {T} (rng : nat → Q) (k i : nat) (a : list T) :
  (∀ n, unit_interval (rng n)) → (i < length a ∨ i = 0)%nat →
  swaps_in_range rng k i a.
Proof.
  intros Hrng. revert k a. induction i as [|i IH]; intros k a Hi.
  - constructor.
  - assert (floor_mul (rng k) (S i + 1) < S i + 1)%nat
      by (apply floor_mul_lt; [done|lia]).
    constructor; [lia|lia|]. apply IH. rewrite swap_length. lia.
Qed.

Lemma shuffle_loop_Permutation {T} (rng : nat → Q) (k i : nat) (a : list T) :
  shuffle_loop rng k i a ≡ₚ a.
Proof.
  revert k a. induction i as [|i IH]; intros k a; simpl; [done|].
  rewrite IH. apply swap_Permutation.
Qed.

(** *** The sort *)

Lemma sort_insert_Permutation {T} (cmp : T → T → Z) (x : T) (l : list T) :
  sort_insert cmp x l ≡ₚ x :: l.
Proof.
  induction l as [|y l IH]; simpl; [done|].
  destruct (cmp x y <=? 0); [done|]. rewrite IH. apply perm_swap.
Qed.

Lemma js_sort_Permutation {T} (cmp : T → T → Z) (l : list T) :
  js_sort cmp l ≡ₚ l.
Proof.
  induction l as [|x l IH]; simpl; [done|].
  by rewrite sort_insert_Permutation, IH.
Qed.

Lemma js_sort_elem_of {T} (cmp : T → T → Z) (l : list T) (x : T) :
  x ∈ js_sort cmp l ↔ x ∈ l.
Proof. by rewrite js_sort_Permutation. Qed.

(** The sort only looks at its comparator on the elements of the array. *)
Lemma sort_insert_ext {T} (cmp cmp' : T → T → Z) (x : T) (l : list T) :
  (∀ y, y ∈ l → cmp x y = cmp' x y) →
  sort_insert cmp x l = sort_insert cmp' x l.
Proof.
  induction l as [|y l IH]; intros Heq; simpl; [done|].
  rewrite <- (Heq y) by left.
  destruct (cmp x y <=? 0); [done|]. f_equal. apply IH.
  intros z Hz. apply Heq. by right.
Qed.

Lemma js_sort_ext {T} (cmp cmp' : T → T → Z) (l : list T) :
  (∀ x y, x ∈ l → y ∈ l → cmp x y = cmp' x y) →
  js_sort cmp l = js_sort cmp' l.
Proof.
  induction l as [|x l IH]; intros Heq; simpl; [done|].
  rewrite IH by (intros; apply Heq; by right).
  apply sort_insert_ext. intros y Hy. apply Heq; [left|right].
  by apply js_sort_elem_of in Hy.
Qed.

Section SortConsistent.
Context {T : Type} (cmp : T → T → Z).
Hypothesis cmp_total : ∀ a b, 0 < cmp a b → cmp b a <= 0.
Hypothesis cmp_trans : ∀ a b c, cmp a b <= 0 → cmp b c <= 0 → cmp a c <= 0.

Let le (a b : T) : Prop := cmp a b <= 0.

Lemma sort_insert_sorted (x : T) (l : list T) :
  StronglySorted le l → StronglySorted le (sort_insert cmp x l).
Proof.
  induction l as [|y l IH]; intros Hs; simpl.
  - repeat constructor.
  - apply StronglySorted_inv in Hs as [Hs Hy].
    destruct (cmp x y <=? 0) eqn:Hxy.
    + apply Z.leb_le in Hxy. constructor; [by constructor|].
      constructor; [done|]. eapply Forall_impl; [exact Hy|].
      intros z Hz. by eapply cmp_trans.
    + apply Z.leb_gt in Hxy. constructor; [by apply IH|].
      rewrite sort_insert_Permutation. constructor; [|done].
      by apply cmp_total.
Qed.

Lemma js_sort_sorted (l : list T) : StronglySorted le (js_sort cmp l).
Proof.
  induction l as [|x l IH]; simpl; [constructor|].
  by apply sort_insert_sorted.
Qed.

(** The last element of the sorted array is not below any element. *)
Lemma js_sort_last_max (l : list T) (w : T) :
  (∀ a, cmp a a <= 0) →
  last (js_sort cmp l) = Some w → ∀ p, p ∈ l → cmp p w <= 0.
Proof.
  intros Hrefl Hlast p Hp. apply (js_sort_elem_of cmp) in Hp.
  pose proof (js_sort_sorted l) as Hs.
  apply last_Some in Hlast as [l' Hl']. rewrite Hl' in Hs, Hp.
  apply elem_of_app in Hp as [Hp|Hp].
  - clear -Hs Hp. induction l' as [|z l' IH]; [by apply elem_of_nil in Hp|].
    simpl in Hs. apply StronglySorted_inv in Hs as [Hs Hz].
    apply elem_of_cons in Hp as [->|Hp]; [|by apply IH].
    rewrite Forall_app, Forall_singleton in Hz. apply Hz.
  - apply list_elem_of_singleton in Hp as ->. apply Hrefl.
Qed.
End SortConsistent.

Lemma filter_none {T} (P : T → Prop) `{∀ x, Decision (P x)} (l : list T) :
  (∀ x, x ∈ l → ¬ P x) → filter P l = [].
Proof.
  intros Hnone. destruct (filter P l) as [|x l'] eqn:E; [done|].
  assert (Hx : x ∈ filter P l) by (rewrite E; left).
  apply list_elem_of_filter in Hx as [HP Hx]. by destruct (Hnone x Hx).
Qed.

Lemma last_elem_of {T} (l : list T) (x : T) : last l = Some x → x ∈ l.
Proof.
  intros [l' ->]%last_Some. apply elem_of_app. right. by left.
Qed.

Lemma last_is_Some_nonempty {T} (l : list T) : l ≠ [] → is_Some (last l).
Proof.
  intros Hl. destruct (last l) eqn:E; [by eexists|].
  by apply last_None in E.
Qed.

(** *** The dealing loop *)

Lemma for_loop_app {St} (body : St → nat → option St) (i n m : nat) (st : St) :
  for_loop body i (n + m) st = for_loop body i n st ≫= for_loop body (i + n) m.
Proof.
  revert i st. induction n as [|n IH]; intros i st; simpl.
  - by rewrite Nat.add_0_r.
  - destruct (body st i) as [st'|]; simpl; [|done].
    rewrite IH. by replace (i + 1 + n)%nat with (i + S n)%nat by lia.
Qed.

Lemma concat_insert_snoc {T} (raw : list (list T)) (s : nat) (hand : list T) (c : T) :
  raw !! s = Some hand → concat (<[s := hand ++ [c]]> raw) ≡ₚ concat raw ++ [c].
Proof.
  revert s. induction raw as [|h raw IH]; intros [|s] Hs; simplify_eq/=.
  - by rewrite <- (assoc_L (++)), (comm (++) [c]), (assoc_L (++)).
  - by rewrite (IH _ Hs), (assoc_L (++)).
Qed.

(** A stretch of the loop that does not pass the last seat. *)
Lemma deal_run (deck : list Card) (p n : nat) :
  ∀ i raw s0,
    length raw = p → (s0 < p)%nat → (s0 + n ≤ p)%nat → (i + n ≤ length deck)%nat →
    ∃ raw',
      for_loop (deal_step deck p) i n (raw, s0) = Some (raw', ((s0 + n) `mod` p)%nat)
      ∧ length raw' = p
      ∧ grown s0 n raw raw'
      ∧ concat raw' ≡ₚ concat raw ++ take n (drop i deck).
Proof.
  induction n as [|n IH]; intros i raw s0 Hlen Hs0 Hn Hi.
  - exists raw. rewrite Nat.add_0_r, Nat.mod_small by done. simpl.
    split; [done|split; [done|split]].
    + intros s h' Hs. exists h'. split; [done|]. case_decide; lia.
    + by rewrite take_0, app_nil_r.
  - destruct (lookup_lt_is_Some_2 raw s0) as [hand Hhand]; [lia|].
    destruct (lookup_lt_is_Some_2 deck i) as [c Hc]; [lia|].
    assert (Hgrow : grown s0 1 raw (<[s0 := hand ++ [c]]> raw)).
    { intros s h' Hs. destruct (decide (s = s0)) as [->|Hne].
      - rewrite list_lookup_insert_eq in Hs by lia. simplify_eq.
        exists hand. split; [done|]. rewrite length_app. simpl.
        case_decide; lia.
      - rewrite list_lookup_insert_ne in Hs by done.
        exists h'. split; [done|]. case_decide; lia. }
    assert (Hdrop : take (S n) (drop i deck) = c :: take n (drop (i + 1) deck)).
    { rewrite (drop_S _ _ _ Hc). simpl. by rewrite Nat.add_1_r. }
    simpl. rewrite Hhand. simpl. rewrite Hc. simpl.
    destruct n as [|n].
    + exists (<[s0 := hand ++ [c]]> raw). simpl.
      repeat split; [by rewrite length_insert|done|].
      rewrite Hdrop, take_0. by apply concat_insert_snoc.
    + rewrite Nat.mod_small by lia.
      destruct (IH (i + 1)%nat (<[s0 := hand ++ [c]]> raw) (s0 + 1)%nat)
        as (raw' & Hrun & Hlen' & Hgrown & Hperm);
        [by rewrite length_insert|lia|lia|lia|].
      exists raw'. replace (s0 + S (S n))%nat with (s0 + 1 + S n)%nat by lia.
      repeat split; [done|done| |].
      * intros s h' Hs. destruct (Hgrown s h' Hs) as (h1 & Hh1 & Hl1).
        destruct (Hgrow s h1 Hh1) as (h & Hh & Hl).
        exists h. split; [done|]. rewrite Hl1, Hl.
        repeat case_decide; lia.
      * rewrite Hperm, (concat_insert_snoc _ _ _ _ Hhand), Hdrop.
        by rewrite <- (assoc_L (++)).
Qed.

(** One round: [p] steps starting at the leader give every seat a card and
    come back to the leader. *)
Lemma deal_round (deck : list Card) (p i leader : nat) (raw : list (list Card)) :
  length raw = p → (leader < p)%nat → (i + p ≤ length deck)%nat →
  ∃ raw',
    for_loop (deal_step deck p) i p (raw, leader) = Some (raw', leader)
    ∧ length raw' = p
    ∧ (∀ s h', raw' !! s = Some h' →
         ∃ h, raw !! s = Some h ∧ length h' = S (length h))
    ∧ concat raw' ≡ₚ concat raw ++ take p (drop i deck).
Proof.
  intros Hlen Hleader Hi.
  destruct (deal_run deck p (p - leader) i raw leader)
    as (raw1 & Hrun1 & Hlen1 & Hg1 & Hp1); [done|done|lia|lia|].
  replace (leader + (p - leader))%nat with p in Hrun1 by lia.
  rewrite Nat.Div0.mod_same in Hrun1.
  destruct (deal_run deck p leader (i + (p - leader)) raw1 0)
    as (raw2 & Hrun2 & Hlen2 & Hg2 & Hp2); [done|lia|lia|lia|].
  rewrite Nat.add_0_l, Nat.mod_small in Hrun2 by done.
  exists raw2. split; [|split; [done|split]].
  - replace p with ((p - leader) + leader)%nat at 2 by lia.
    rewrite for_loop_app, Hrun1. simpl. exact Hrun2.
  - intros s h' Hs. destruct (Hg2 s h' Hs) as (h1 & Hh1 & Hl1).
    destruct (Hg1 s h1 Hh1) as (h & Hh & Hl).
    exists h. split; [done|].
    apply lookup_lt_Some in Hh. rewrite Hl1, Hl.
    repeat case_decide; lia.
  - rewrite Hp2, Hp1, <- (assoc_L (++)). f_equiv.
    rewrite <- (drop_drop deck), take_take_drop. f_equiv. lia.
Qed.

Lemma deal_rounds (deck : list Card) (p leader e : nat) :
  ∀ i raw,
    length raw = p → (leader < p)%nat → (i + p * e ≤ length deck)%nat →
    ∃ raw',
      for_loop (deal_step deck p) i (p * e) (raw, leader) = Some (raw', leader)
      ∧ length raw' = p
      ∧ (∀ s h', raw' !! s = Some h' →
           ∃ h, raw !! s = Some h ∧ length h' = (length h + e)%nat)
      ∧ concat raw' ≡ₚ concat raw ++ take (p * e) (drop i deck).
Proof.
  induction e as [|e IH]; intros i raw Hlen Hleader Hi.
  - rewrite Nat.mul_0_r. exists raw. simpl.
    split; [done|split; [done|split]].
    + intros s h' Hs. exists h'. split; [done|lia].
    + by rewrite take_0, app_nil_r.
  - replace (p * S e)%nat with (p + p * e)%nat in * by lia.
    destruct (deal_round deck p i leader raw)
      as (raw1 & Hrun1 & Hlen1 & Hg1 & Hp1); [done|done|lia|].
    destruct (IH (i + p)%nat raw1)
      as (raw2 & Hrun2 & Hlen2 & Hg2 & Hp2); [done|done|lia|].
    exists raw2. split; [|split; [done|split]].
    + rewrite for_loop_app, Hrun1. simpl. exact Hrun2.
    + intros s h' Hs. destruct (Hg2 s h' Hs) as (h1 & Hh1 & Hl1).
      destruct (Hg1 s h1 Hh1) as (h & Hh & Hl).
      exists h. split; [done|lia].
    + rewrite Hp2, Hp1, <- (assoc_L (++)). f_equiv.
      by rewrite <- (drop_drop deck), take_take_drop.
Qed.

(** The dealing loop returns: every seat holds [each] cards, and together
    the hands are the first [players * each] cards of the deck. *)
Lemma deal_Some (deck : list Card) (players each leaderSeat : nat) :
  (leaderSeat < players)%nat → (players * each ≤ length deck)%nat →
  ∃ raw,
    deal deck players each leaderSeat = Some raw
    ∧ length raw = players
    ∧ (∀ s h, raw !! s = Some h → length h = each)
    ∧ concat raw ≡ₚ take (players * each) deck.
Proof.
  intros Hleader Hdeck. unfold deal.
  destruct (deal_rounds deck players leaderSeat each 0 (replicate players []))
    as (raw & Hrun & Hlen & Hg & Hp); [by rewrite length_replicate|done|lia|].
  exists raw. rewrite Hrun. split; [done|split; [done|split]].
  - intros s h Hs. destruct (Hg s h Hs) as (h0 & Hh0 & Hl).
    apply lookup_replicate in Hh0 as [-> _]. by rewrite Hl.
  - rewrite Hp, drop_0.
    assert (Hnil : concat (replicate players ([] : list Card)) = []).
    { clear. induction players as [|n IH]; simpl; done. }
    by rewrite Hnil.
Qed.

(** *** The deck and the hand size *)

Lemma buildDecksNoTwos_length (deckCount : DeckCount) :
  length (buildDecksNoTwos deckCount) = (48 * deck_number deckCount)%nat.
Proof. by destruct deckCount. Qed.

(** Every card is in the built deck as many times as there are decks. *)
Lemma buildDecksNoTwos_multiplicity (deckCount : DeckCount) (c : Card) :
  length (filter (λ x, x = c) (buildDecksNoTwos deckCount)) = deck_number deckCount.
Proof. by destruct deckCount, c as [[] []]. Qed.

(** The table of [cardsPerPlayer] agrees with its fallback. *)
Lemma cardsPerPlayer_div (players : nat) (deckCount : DeckCount) :
  cardsPerPlayer players deckCount
  = (length (buildDecksNoTwos deckCount) / players)%nat.
Proof.
  unfold cardsPerPlayer.
  repeat case_decide; try done;
    match goal with H : _ ∧ _ |- _ => destruct H as [-> ->] end; done.
Qed.

Lemma deal_within_deck (players : nat) (deckCount : DeckCount) :
  (players * cardsPerPlayer players deckCount
   ≤ length (buildDecksNoTwos deckCount))%nat.
Proof. rewrite cardsPerPlayer_div. apply Nat.Div0.mul_div_le. Qed.

Lemma cardsPerPlayer_pos (players : nat) (deckCount : DeckCount) :
  (0 < players ≤ length (buildDecksNoTwos deckCount))%nat →
  (0 < cardsPerPlayer players deckCount)%nat.
Proof. intros ?. rewrite cardsPerPlayer_div. apply Nat.div_str_pos. lia. Qed.

(** *** The display order *)

Lemma indexOf_RANKS (r : Rank) : indexOf RANKS r = 12 - RANK_POWER r.
Proof. by destruct r. Qed.

Lemma sortBySuitRank_le (a b : Card) :
  sortBySuitRank a b <= 0 ↔ display_le a b.
Proof.
  unfold sortBySuitRank, display_le. rewrite !indexOf_RANKS.
  destruct a as [ra []], b as [rb []]; simpl; repeat case_decide; try done;
    intuition (first [discriminate | lia]).
Qed.

Lemma sortBySuitRank_total (a b : Card) :
  0 < sortBySuitRank a b → sortBySuitRank b a <= 0.
Proof.
  unfold sortBySuitRank. rewrite !indexOf_RANKS.
  destruct a as [ra []], b as [rb []]; simpl; repeat case_decide; try done; lia.
Qed.

Lemma sortBySuitRank_trans (a b c : Card) :
  sortBySuitRank a b <= 0 → sortBySuitRank b c <= 0 → sortBySuitRank a c <= 0.
Proof.
  rewrite !sortBySuitRank_le. unfold display_le.
  destruct a as [ra []], b as [rb []], c as [rc []]; simpl;
    intuition (first [discriminate | lia]).
Qed.

Lemma js_sort_display_sorted (l : list Card) :
  StronglySorted display_le (js_sort sortBySuitRank l).
Proof.
  pose proof (js_sort_sorted sortBySuitRank sortBySuitRank_total
                sortBySuitRank_trans l) as Hs.
  induction Hs as [|x l' Hs IH Hx]; constructor; [done|].
  eapply Forall_impl; [exact Hx|]. intros y. apply sortBySuitRank_le.
Qed.

(** *** The plan *)

Lemma visible_imap (f : nat → list Card → HandDoc) (g : list Card → list Card)
    (raw : list (list Card)) :
  (∀ s arr, visible (f s arr) = g arr) → visible <$> imap f raw = g <$> raw.
Proof.
  revert f. induction raw as [|arr raw IH]; intros f Hf; simpl; [done|].
  rewrite Hf. f_equal. apply IH. intros s arr'. apply Hf.
Qed.

Lemma concat_fmap_Permutation {T} (g : list T → list T) (raw : list (list T)) :
  (∀ l, g l ≡ₚ l) → concat (g <$> raw) ≡ₚ concat raw.
Proof.
  intros Hg. induction raw as [|l raw IH]; simpl; [done|]. by rewrite Hg, IH.
Qed.

Lemma concat_insert_delete {T} (raw : list (list T)) (s idx : nat)
    (hand : list T) (x : T) :
  raw !! s = Some hand → hand !! idx = Some x →
  concat (<[s := delete idx hand]> raw) ++ [x] ≡ₚ concat raw.
Proof.
  revert s. induction raw as [|h raw IH]; intros [|s] Hs Hx; simplify_eq/=.
  - rewrite (delete_Permutation hand idx x Hx) at 2.
    by rewrite <- (assoc_L (++)), (comm (++) _ [x]), (assoc_L (++)),
      (comm (++) _ [x]).
  - by rewrite <- (assoc_L (++)), (IH _ Hs Hx).
Qed.

Section Plans.
Variable seedrandom : string → nat → Q.

(** [planDeal] returns a plan as soon as the seats exist, there is a card
    for every seat and [Math.random()] is in its range. *)
Lemma planDeal_Some (players : nat) (deckCount : DeckCount)
    (hiderSeat leaderSeat : nat) (seed : string) (random : Q) :
  (hiderSeat < players)%nat → (leaderSeat < players)%nat →
  (players ≤ length (buildDecksNoTwos deckCount))%nat →
  unit_interval random →
  let deck := shuffle seedrandom (buildDecksNoTwos deckCount) seed in
  let each := cardsPerPlayer players deckCount in
  ∃ raw hiderHand h,
    deal deck players each leaderSeat = Some raw
    ∧ length raw = players
    ∧ (∀ s dealt, raw !! s = Some dealt → length dealt = each)
    ∧ concat raw ≡ₚ take (players * each) deck
    ∧ raw !! hiderSeat = Some hiderHand
    ∧ hiderHand !! floor_mul random (length hiderHand) = Some h
    ∧ planDeal seedrandom players deckCount hiderSeat leaderSeat seed random
      = Some (mkDealPlan deckCount players hiderSeat leaderSeat (cardSuit h)
                (plan_hands raw hiderSeat hiderHand
                   (floor_mul random (length hiderHand)) h)
                seed).
Proof.
  intros Hhider Hleader Hplayers Hrandom deck each.
  assert (Hdeck : length deck = length (buildDecksNoTwos deckCount)).
  { apply Permutation_length, shuffle_loop_Permutation. }
  destruct (deal_Some deck players each leaderSeat)
    as (raw & Hdeal & Hlen & Heach & Hperm);
    [done|rewrite Hdeck; apply deal_within_deck|].
  destruct (lookup_lt_is_Some_2 raw hiderSeat) as [hiderHand Hhand]; [lia|].
  assert (Hpos : (0 < length hiderHand)%nat).
  { rewrite (Heach _ _ Hhand). apply cardsPerPlayer_pos. lia. }
  destruct (lookup_lt_is_Some_2 hiderHand (floor_mul random (length hiderHand)))
    as [h Hh]; [by apply floor_mul_lt|].
  exists raw, hiderHand, h. repeat (split; [done|]).
  unfold planDeal. fold deck each. rewrite Hdeal. simpl. rewrite Hhand. simpl.
  by rewrite Hh.
Qed.

(** What a returned plan is made of. *)
Lemma planDeal_inv (players : nat) (deckCount : DeckCount)
    (hiderSeat leaderSeat : nat) (seed : string) (random : Q) (plan : DealPlan) :
  planDeal seedrandom players deckCount hiderSeat leaderSeat seed random
  = Some plan →
  ∃ raw hiderHand h,
    deal (shuffle seedrandom (buildDecksNoTwos deckCount) seed) players
      (cardsPerPlayer players deckCount) leaderSeat = Some raw
    ∧ raw !! hiderSeat = Some hiderHand
    ∧ hiderHand !! floor_mul random (length hiderHand) = Some h
    ∧ plan = mkDealPlan deckCount players hiderSeat leaderSeat (cardSuit h)
               (plan_hands raw hiderSeat hiderHand
                  (floor_mul random (length hiderHand)) h)
               seed.
Proof.
  unfold planDeal. intros Hplan.
  destruct (deal _ _ _ _) as [raw|]; simpl in Hplan; [|done].
  destruct (raw !! hiderSeat) as [hiderHand|] eqn:Hhand; simpl in Hplan; [|done].
  destruct (hiderHand !! _) as [h|] eqn:Hh; simpl in Hplan; [|done].
  exists raw, hiderHand, h. by simplify_eq.
Qed.
End Plans.

Lemma plan_hands_lookup (raw : list (list Card)) (hiderSeat idx : nat)
    (hiderHand : list Card) (h : Card) (s : nat) (hand : HandDoc) :
  raw !! hiderSeat = Some hiderHand →
  plan_hands raw hiderSeat hiderHand idx h !! s = Some hand →
  (s = hiderSeat
   ∧ hand = mkHand (js_sort sortBySuitRank (delete idx hiderHand)) (Some h))
  ∨ (s ≠ hiderSeat
     ∧ ∃ dealt, raw !! s = Some dealt
                ∧ hand = mkHand (js_sort sortBySuitRank dealt) None).
Proof.
  intros Hhand Hs. unfold plan_hands in Hs. rewrite list_lookup_imap in Hs.
  destruct (decide (s = hiderSeat)) as [->|Hne].
  - left. split; [done|].
    rewrite list_lookup_insert_eq in Hs by (by eapply lookup_lt_Some).
    cbv [fmap option_fmap option_map] in Hs.
    rewrite ?decide_True in Hs by done. by simplify_eq.
  - right. split; [done|]. rewrite list_lookup_insert_ne in Hs by done.
    destruct (raw !! s) as [dealt|]; cbv [fmap option_fmap option_map] in Hs;
      [|done].
    rewrite ?decide_False in Hs by done. exists dealt. by simplify_eq.
Qed.

Lemma plan_hands_cards (raw : list (list Card)) (hiderSeat idx : nat)
    (hiderHand : list Card) (h : Card) :
  raw !! hiderSeat = Some hiderHand → hiderHand !! idx = Some h →
  concat (visible <$> plan_hands raw hiderSeat hiderHand idx h) ++ [h]
  ≡ₚ concat raw.
Proof.
  intros Hhand Hh. unfold plan_hands.
  rewrite (visible_imap _ (js_sort sortBySuitRank)) by done.
  rewrite concat_fmap_Permutation by apply js_sort_Permutation.
  by apply concat_insert_delete.
Qed.

(* ===================================================================== *)
(** ** The shuffle (C8) *)
(* ===================================================================== *)

Section SeededShuffle.
Variable seedrandom : string → nat → Q.
Hypothesis seedrandom_range : ∀ seed k, unit_interval (seedrandom seed k).

(** C8. For every input array and seed, with a generator whose numbers
    are in [0, 1): every swap of the loop exchanges two positions of the
    array; the array [shuffle] returns is a permutation of its argument;
    the argument is the same array afterwards; and two calls with the
    same seed and the same argument return the same array. *)
Theorem shuffle_permutation_pure_deterministic {T} (arr : list T) (seed : string) :
  let run := shuffle_run seedrandom arr seed in
  swaps_in_range (seedrandom seed) 0 (length arr - 1) arr
  ∧ run_a run ≡ₚ arr
  ∧ run_arr run = arr
  ∧ ∀ arr' seed', arr' = arr → seed' = seed →
      shuffle seedrandom arr' seed' = shuffle seedrandom arr seed.
Proof.
  simpl. split; [|split; [|split]].
  - apply shuffle_loop_in_range; [apply seedrandom_range|].
    destruct arr; simpl; lia.
  - apply shuffle_loop_Permutation.
  - done.
  - by intros arr' seed' -> ->.
Qed.
End SeededShuffle.

Lemma shuffle_permutation_pure_deterministic_witness :
  let arr := [1; 2; 3; 4; 5; 6]%nat in
  let run := shuffle_run demo_seedrandom arr "ab" in
  swaps_in_range (demo_seedrandom "ab") 0 (length arr - 1) arr
  ∧ run_a run ≡ₚ arr
  ∧ run_arr run = arr
  ∧ ∀ arr' seed', arr' = arr → seed' = "ab"%string →
      shuffle demo_seedrandom arr' seed' = shuffle demo_seedrandom arr "ab".
Proof.
  exact (shuffle_permutation_pure_deterministic demo_seedrandom
           demo_seedrandom_range [1; 2; 3; 4; 5; 6]%nat "ab").
Defined.

Example shuffle_demo :
  shuffle demo_seedrandom [1; 2; 3; 4; 5; 6]%nat "ab" = [6; 4; 1; 3; 5; 2]%nat.
Proof. reflexivity. Qed.

(* ===================================================================== *)
(** ** The deal (C2, C3, C9) *)
(* ===================================================================== *)

(** C2, as stated, fails for five players: with one deck every seat gets
    [floor(48 / 5) = 9] cards, the plan holds 45 cards and three cards of
    the deck are in no hand. *)
Lemma planDeal_five_players_drops_cards :
  ∃ plan h,
    planDeal demo_seedrandom 5 One 0 1 "seed" 0 = Some plan
    ∧ hidden <$> dp_hands plan = [Some h; None; None; None; None]
    ∧ length (plan_cards plan h) = 45%nat
    ∧ ¬ plan_cards plan h ≡ₚ buildDecksNoTwos One.
Proof.
  eexists _, _. split; [vm_compute; reflexivity|].
  split; [reflexivity|]. split; [reflexivity|].
  intros Hperm. apply Permutation_length in Hperm. vm_compute in Hperm.
  discriminate.
Qed.

Section Dealing.
Variable seedrandom : string → nat → Q.

(** C2, amended. For a player count between 1 and the size of the deck,
    seats of the hider and of the leader below the player count and a
    number of [Math.random()] in [0, 1), [planDeal] returns a plan with
    one hand per seat; exactly the hider's hand has a hidden card, which
    is a card of the hider's dealt hand, and every hand with its hidden
    card is the hand that was dealt to the seat; [trumpSuit] is the suit
    of the hidden card; the visible hands with the hidden card are the
    first [players * cardsPerPlayer] cards of the shuffled deck, so no
    card is there more often than the deck has it; and when
    [players * cardsPerPlayer] is the size of the deck (as for 4, 6 and 8
    players) they are the whole deck, every card as many times as there
    are decks. *)
Theorem planDeal_deals_the_deck (players : nat) (deckCount : DeckCount)
    (hiderSeat leaderSeat : nat) (seed : string) (random : Q) :
  (hiderSeat < players)%nat → (leaderSeat < players)%nat →
  (players ≤ length (buildDecksNoTwos deckCount))%nat →
  unit_interval random →
  let deck := shuffle seedrandom (buildDecksNoTwos deckCount) seed in
  let each := cardsPerPlayer players deckCount in
  ∃ plan raw hiderHand h,
    planDeal seedrandom players deckCount hiderSeat leaderSeat seed random
    = Some plan
    ∧ deal deck players each leaderSeat = Some raw
    ∧ raw !! hiderSeat = Some hiderHand
    ∧ h ∈ hiderHand
    ∧ length (dp_hands plan) = players
    ∧ (∀ s hand, dp_hands plan !! s = Some hand →
         hidden hand = if decide (s = hiderSeat) then Some h else None)
    ∧ (∀ s hand dealt, dp_hands plan !! s = Some hand → raw !! s = Some dealt →
         visible hand ++ option_list (hidden hand) ≡ₚ dealt)
    ∧ dp_trumpSuit plan = cardSuit h
    ∧ plan_cards plan h ≡ₚ take (players * each) deck
    ∧ plan_cards plan h ⊆+ buildDecksNoTwos deckCount
    ∧ ((players * each)%nat = length (buildDecksNoTwos deckCount) →
         plan_cards plan h ≡ₚ buildDecksNoTwos deckCount
         ∧ ∀ c, length (filter (λ x, x = c) (plan_cards plan h))
                = deck_number deckCount).
Proof.
  intros Hhider Hleader Hplayers Hrandom deck each.
  destruct (planDeal_Some seedrandom players deckCount hiderSeat leaderSeat
              seed random Hhider Hleader Hplayers Hrandom)
    as (raw & hiderHand & h & Hdeal & Hlen & _ & Hraw & Hhand & Hh & Hplan).
  fold deck each in Hdeal, Hraw.
  set (idx := floor_mul random (length hiderHand)) in *.
  assert (Hcards : plan_cards
                     (mkDealPlan deckCount players hiderSeat leaderSeat
                        (cardSuit h)
                        (plan_hands raw hiderSeat hiderHand idx h) seed) h
                   ≡ₚ take (players * each) deck).
  { unfold plan_cards. simpl. by rewrite plan_hands_cards. }
  assert (Hshuffle : deck ≡ₚ buildDecksNoTwos deckCount)
    by apply shuffle_loop_Permutation.
  eexists _, raw, hiderHand, h. split; [exact Hplan|].
  split; [done|]. split; [done|].
  split; [by eapply list_elem_of_lookup_2|].
  split; [unfold plan_hands; simpl; by rewrite length_imap, length_insert|].
  split; [|split; [|split; [done|split; [done|split]]]].
  - intros s hand Hs. simpl in Hs.
    destruct (plan_hands_lookup _ _ _ _ _ _ _ Hhand Hs)
      as [[-> ->]|[Hne (dealt & _ & ->)]]; simpl.
    + by rewrite decide_True.
    + by rewrite decide_False.
  - intros s hand dealt Hs Hdealt. simpl in Hs.
    destruct (plan_hands_lookup _ _ _ _ _ _ _ Hhand Hs)
      as [[-> ->]|[Hne (dealt' & Hdealt' & ->)]]; simplify_eq/=.
    + rewrite js_sort_Permutation.
      rewrite (delete_Permutation _ idx h Hh) at 2. by rewrite (comm (++)).
    + by rewrite js_sort_Permutation, (right_id_L [] (++)).
  - rewrite Hcards, <- Hshuffle. apply sublist_submseteq, sublist_take.
  - intros Hall. assert (Hwhole : plan_cards
                     (mkDealPlan deckCount players hiderSeat leaderSeat
                        (cardSuit h)
                        (plan_hands raw hiderSeat hiderHand idx h) seed) h
                   ≡ₚ buildDecksNoTwos deckCount).
    { rewrite Hcards, <- Hshuffle. rewrite take_ge; [done|].
      rewrite Hall. apply Nat.eq_le_incl, Permutation_length. done. }
    split; [done|]. intros c. rewrite Hwhole.
    apply buildDecksNoTwos_multiplicity.
Qed.

(** C3, amended. Two calls of [planDeal] with the same player count, deck
    count, hider, leader and seed return the same plan when
    [Math.random()], which the seed does not control, selects the same
    position in the hider's hand. Whatever it selects, both calls return
    a plan, the plans give the same hand to every seat but the hider, and
    the hider's visible cards with the hidden card are the same cards in
    both. *)
Theorem planDeal_reproducible_up_to_hidden (players : nat)
    (deckCount : DeckCount) (hiderSeat leaderSeat : nat) (seed : string)
    (random1 random2 : Q) :
  (hiderSeat < players)%nat → (leaderSeat < players)%nat →
  (players ≤ length (buildDecksNoTwos deckCount))%nat →
  unit_interval random1 → unit_interval random2 →
  let each := cardsPerPlayer players deckCount in
  ∃ plan1 plan2,
    planDeal seedrandom players deckCount hiderSeat leaderSeat seed random1
    = Some plan1
    ∧ planDeal seedrandom players deckCount hiderSeat leaderSeat seed random2
      = Some plan2
    ∧ (floor_mul random1 each = floor_mul random2 each → plan1 = plan2)
    ∧ (∀ s, s ≠ hiderSeat → dp_hands plan1 !! s = dp_hands plan2 !! s)
    ∧ (∀ hand1 hand2,
         dp_hands plan1 !! hiderSeat = Some hand1 →
         dp_hands plan2 !! hiderSeat = Some hand2 →
         visible hand1 ++ option_list (hidden hand1)
         ≡ₚ visible hand2 ++ option_list (hidden hand2)).
Proof.
  intros Hhider Hleader Hplayers Hr1 Hr2 each.
  destruct (planDeal_Some seedrandom players deckCount hiderSeat leaderSeat
              seed random1 Hhider Hleader Hplayers Hr1)
    as (raw & hiderHand & h1 & Hdeal & _ & Heach & _ & Hhand & Hh1 & Hplan1).
  destruct (planDeal_Some seedrandom players deckCount hiderSeat leaderSeat
              seed random2 Hhider Hleader Hplayers Hr2)
    as (raw' & hiderHand' & h2 & Hdeal' & _ & _ & _ & Hhand' & Hh2 & Hplan2).
  assert (raw' = raw) as -> by congruence.
  assert (hiderHand' = hiderHand) as -> by congruence.
  rewrite (Heach _ _ Hhand) in *. fold each in Hh1, Hh2, Hplan1, Hplan2.
  eexists _, _. split; [exact Hplan1|]. split; [exact Hplan2|].
  split; [|split].
  - intros Hidx. rewrite Hidx in *. by simplify_eq.
  - intros s Hs. simpl. unfold plan_hands. rewrite !list_lookup_imap.
    rewrite !list_lookup_insert_ne by done.
    destruct (raw !! s); simpl; [|done]. by rewrite !decide_False.
  - intros hand1 hand2 Hs1 Hs2. simpl in Hs1, Hs2.
    destruct (plan_hands_lookup _ _ _ _ _ _ _ Hhand Hs1)
      as [[_ ->]|[? _]]; [|done].
    destruct (plan_hands_lookup _ _ _ _ _ _ _ Hhand Hs2)
      as [[_ ->]|[? _]]; [|done].
    simpl. rewrite !js_sort_Permutation.
    rewrite !(comm (++) _ [_]). simpl.
    by rewrite <- (delete_Permutation hiderHand _ h1 Hh1),
      <- (delete_Permutation hiderHand _ h2 Hh2).
Qed.

(** C9, amended. In every plan [planDeal] returns, every visible hand is
    sorted by suit in the order Spades, Hearts, Diamonds, Clubs and,
    inside a suit, in the order of [RANKS]: by falling strength, the Ace
    first and the 3 last. *)
Theorem planDeal_hands_in_display_order (players : nat)
    (deckCount : DeckCount) (hiderSeat leaderSeat : nat) (seed : string)
    (random : Q) (plan : DealPlan) (hand : HandDoc) :
  planDeal seedrandom players deckCount hiderSeat leaderSeat seed random
  = Some plan →
  hand ∈ dp_hands plan →
  StronglySorted display_le (visible hand).
Proof.
  intros (raw & hiderHand & h & _ & _ & _ & ->)%planDeal_inv Hhand.
  simpl in Hhand. unfold plan_hands in Hhand.
  apply elem_of_lookup_imap in Hhand as (s & arr & -> & _). simpl.
  apply js_sort_display_sorted.
Qed.
End Dealing.

Lemma unit_interval_0 : unit_interval 0.
Proof. split; [apply Qle_refl|reflexivity]. Qed.

Lemma unit_interval_half : unit_interval (1 # 2).
Proof. split; [discriminate|reflexivity]. Qed.

Lemma planDeal_deals_the_deck_witness :
  ∃ plan h,
    planDeal demo_seedrandom 4 One 0 1 "seed" 0 = Some plan
    ∧ dp_trumpSuit plan = cardSuit h
    ∧ plan_cards plan h ≡ₚ buildDecksNoTwos One.
Proof.
  destruct (planDeal_deals_the_deck demo_seedrandom 4 One 0 1 "seed" 0)
    as (plan & raw & hiderHand & h & Hplan & _ & _ & _ & _ & _ & _ & Htrump
        & _ & _ & Hall).
  - lia.
  - lia.
  - vm_compute. lia.
  - apply unit_interval_0.
  - exists plan, h. split; [exact Hplan|]. split; [exact Htrump|].
    apply Hall. reflexivity.
Defined.

(** C3, as stated, fails: the seed does not fix the hidden card. With the
    same arguments, the call in which [Math.random()] returns 0 hides a
    Club, and the call in which it returns 0.5 hides a Spade. *)
Lemma planDeal_same_seed_different_plans :
  unit_interval 0 ∧ unit_interval (1 # 2)
  ∧ dp_trumpSuit <$> planDeal demo_seedrandom 4 One 0 1 "seed" 0 = Some C_
  ∧ dp_trumpSuit <$> planDeal demo_seedrandom 4 One 0 1 "seed" (1 # 2) = Some S_
  ∧ planDeal demo_seedrandom 4 One 0 1 "seed" 0
    ≠ planDeal demo_seedrandom 4 One 0 1 "seed" (1 # 2).
Proof.
  split; [apply unit_interval_0|]. split; [apply unit_interval_half|].
  split; [by vm_compute|]. split; [by vm_compute|].
  intros Heq. apply (f_equal (fmap dp_trumpSuit)) in Heq.
  vm_compute in Heq. discriminate.
Qed.

Lemma planDeal_reproducible_up_to_hidden_witness :
  ∃ plan1 plan2,
    planDeal demo_seedrandom 4 One 0 1 "seed" 0 = Some plan1
    ∧ planDeal demo_seedrandom 4 One 0 1 "seed" (1 # 2) = Some plan2
    ∧ ∀ s, s ≠ 0%nat → dp_hands plan1 !! s = dp_hands plan2 !! s.
Proof.
  destruct (planDeal_reproducible_up_to_hidden demo_seedrandom 4 One 0 1
              "seed" 0 (1 # 2))
    as (plan1 & plan2 & H1 & H2 & _ & Hothers & _).
  - lia.
  - lia.
  - vm_compute. lia.
  - apply unit_interval_0.
  - apply unit_interval_half.
  - exists plan1, plan2. split; [exact H1|]. split; [exact H2|]. exact Hothers.
Defined.

(** C9, as stated, fails: the hand of seat 0 starts with the Ace of Spades
    followed by the 6 of Spades, the strongest card of the suit first. *)
Lemma planDeal_hand_strongest_first :
  ∃ plan hand rest,
    planDeal demo_seedrandom 4 One 0 1 "seed" 0 = Some plan
    ∧ dp_hands plan !! 0%nat = Some hand
    ∧ visible hand = mkCard RA S_ :: mkCard R6 S_ :: rest
    ∧ ¬ StronglySorted spec_display_le (visible hand).
Proof.
  eexists _, _, _. split; [vm_compute; reflexivity|].
  split; [reflexivity|]. split; [reflexivity|].
  intros Hs. apply StronglySorted_inv in Hs as [_ Hx].
  apply Forall_inv in Hx. destruct Hx as [Hx|[_ Hx]]; simpl in Hx; lia.
Qed.

Lemma planDeal_hands_in_display_order_witness :
  StronglySorted display_le
    [mkCard RA S_; mkCard R6 S_; mkCard R4 S_; mkCard R3 S_; mkCard RQ H_;
     mkCard R7 H_; mkCard RA D_; mkCard RT D_; mkCard R6 D_; mkCard R4 C_;
     mkCard R3 C_].
Proof.
  refine (planDeal_hands_in_display_order demo_seedrandom 4 One 0 1 "seed" 0
            _ (mkHand _ (Some (mkCard R7 C_))) _ _).
  - vm_compute. reflexivity.
  - simpl. left.
Defined.

(* ===================================================================== *)
(** ** The trick winner (C1, C10, C4) *)
(* ===================================================================== *)

Lemma trick_cmp_same_suit (a b : Play) :
  suit_of a = suit_of b → trick_cmp a b = lex_cmp a b.
Proof.
  intros Hs. unfold trick_cmp, lex_cmp, power, suit_of in *.
  repeat case_decide; done.
Qed.

Lemma lex_cmp_total (a b : Play) : 0 < lex_cmp a b → lex_cmp b a <= 0.
Proof. unfold lex_cmp. repeat case_decide; lia. Qed.

Lemma lex_cmp_trans (a b c : Play) :
  lex_cmp a b <= 0 → lex_cmp b c <= 0 → lex_cmp a c <= 0.
Proof. unfold lex_cmp. repeat case_decide; lia. Qed.

Lemma lex_cmp_refl (a : Play) : lex_cmp a a <= 0.
Proof. unfold lex_cmp. case_decide; lia. Qed.

(** The array the code sorts: the plays of one suit, which is the trump
    suit exactly when a trump suit is given and played. *)
Lemma evaluateTrickWinner_contenders (plays : list Play) (ledSuit : option Suit)
    (trumpSuit : option Suit) :
  ∃ s : option Suit,
    evaluateTrickWinner plays ledSuit trumpSuit
    = last (js_sort trick_cmp (filter (λ p, Some (suit_of p) = s) plays))
    ∧ ((trump_played plays trumpSuit ∧ s = trumpSuit)
       ∨ (¬ trump_played plays trumpSuit ∧ s = ledSuit)).
Proof.
  unfold evaluateTrickWinner. destruct trumpSuit as [t|].
  - destruct (existsb _ plays) eqn:Hex.
    + exists (Some t). split.
      * do 2 f_equal. apply list_filter_iff. intros p. unfold suit_of.
        split; [by intros ->|by intros [= ->]].
      * left. split; [|done]. apply existsb_exists in Hex as (p & Hp & Ht).
        exists t, p. rewrite list_elem_of_In.
        by apply bool_decide_eq_true in Ht.
    + exists ledSuit. split; [done|]. right. split; [|done].
      intros (t' & p & [= <-] & Hp & Ht).
      assert (existsb (λ p, bool_decide (cardSuit (card p) = t)) plays = true)
        as Hex'; [|congruence].
      apply existsb_exists. exists p. rewrite <- list_elem_of_In.
      split; [done|]. by apply bool_decide_eq_true.
  - exists ledSuit. split; [done|]. right. split; [|done].
    by intros (t & p & [=] & _).
Qed.


(** On plays of one suit the comparator of the code is [lex_cmp]. *)
Lemma evaluateTrickWinner_last_of_suit (plays : list Play)
    (ledSuit trumpSuit : option Suit) :
  ∃ s : option Suit,
    evaluateTrickWinner plays ledSuit trumpSuit
    = last (js_sort lex_cmp (filter (λ p, Some (suit_of p) = s) plays))
    ∧ ((trump_played plays trumpSuit ∧ s = trumpSuit)
       ∨ (¬ trump_played plays trumpSuit ∧ s = ledSuit)).
Proof.
  destruct (evaluateTrickWinner_contenders plays ledSuit trumpSuit)
    as (s & Heval & Hs).
  exists s. split; [|done]. rewrite Heval. f_equal.
  apply js_sort_ext. intros x y Hx Hy. apply trick_cmp_same_suit.
  apply list_elem_of_filter in Hx as [Hx _].
  apply list_elem_of_filter in Hy as [Hy _]. congruence.
Qed.

Lemma sorted_contenders_last (contenders : list Play) (p0 : Play) :
  p0 ∈ contenders →
  ∃ w, last (js_sort lex_cmp contenders) = Some w
       ∧ w ∈ contenders
       ∧ ∀ p, p ∈ contenders → lex_cmp p w <= 0.
Proof.
  intros Hp0.
  destruct (last_is_Some_nonempty (js_sort lex_cmp contenders)) as [w Hw].
  { intros Hnil. apply (js_sort_elem_of lex_cmp) in Hp0.
    rewrite Hnil in Hp0. by apply elem_of_nil in Hp0. }
  exists w. split; [done|]. split.
  - eapply js_sort_elem_of, last_elem_of, Hw.
  - intros p Hp.
    exact (js_sort_last_max lex_cmp lex_cmp_total lex_cmp_trans
             contenders w lex_cmp_refl Hw p Hp).
Qed.

(** A trick whose led suit is the suit of its first play has a contender. *)
Lemma completed_trick_has_contender (p : Play) (rest : list Play)
    (ledSuit : Suit) (trumpSuit : option Suit) :
  suit_of p = ledSuit → ∃ q, is_contender (p :: rest) ledSuit trumpSuit q.
Proof.
  intros Hled.
  destruct (evaluateTrickWinner_contenders (p :: rest) (Some ledSuit) trumpSuit)
    as (s & _ & [[Ht _]|[Hn _]]).
  - destruct Ht as (t & q & Htrump & Hq & Hsuit) eqn:E. exists q.
    split; [done|]. left. split; [by exists t, q|by rewrite Hsuit].
  - exists p. split; [left|]. by right.
Qed.



(** The three tricks of the specification's tests. *)
Example trick_led_suit_wins :
  seat <$> evaluateTrickWinner spec_trick (Some S_) None = Some 1.
Proof. reflexivity. Qed.

Example trick_trump_wins :
  seat <$> evaluateTrickWinner spec_trick (Some S_) (Some H_) = Some 2.
Proof. reflexivity. Qed.

Example trick_later_duplicate_wins :
  seat <$> evaluateTrickWinner
             [mkPlay 0 (mkCard RA S_) 0; mkPlay 2 (mkCard RA S_) 2]
             (Some S_) None
  = Some 2.
Proof. reflexivity. Qed.

(** C10. When a play is of the led suit, or a trump suit is given and a
    play is of it, [evaluateTrickWinner] returns one of its input plays;
    when no play is of the led suit and none of a given trump suit, the
    array of contenders is empty and the result is [undefined]. *)
Theorem evaluateTrickWinner_defined_on_contenders (plays : list Play)
    (ledSuit : Suit) (trumpSuit : option Suit) :
  ((∃ p, p ∈ plays ∧ suit_of p = ledSuit) ∨ trump_played plays trumpSuit →
   ∃ w, evaluateTrickWinner plays (Some ledSuit) trumpSuit = Some w ∧ w ∈ plays)
  ∧ ((∀ p, p ∈ plays → suit_of p ≠ ledSuit) → ¬ trump_played plays trumpSuit →
     evaluateTrickWinner plays (Some ledSuit) trumpSuit = None).
Proof.
  destruct (evaluateTrickWinner_last_of_suit plays (Some ledSuit) trumpSuit)
    as (s & -> & Hs).
  split.
  - intros Hsome.
    assert (Hp0 : ∃ p0, p0 ∈ filter (λ p, Some (suit_of p) = s) plays).
    { destruct Hs as [[(t & p & -> & Hp & Hsuit) ->]|[Hn ->]].
      - exists p. apply list_elem_of_filter. by rewrite Hsuit.
      - destruct Hsome as [(p & Hp & Hsuit)|Ht]; [|done].
        exists p. apply list_elem_of_filter. by rewrite Hsuit. }
    destruct Hp0 as [p0 Hp0].
    destruct (sorted_contenders_last _ p0 Hp0) as (w & Hw & Hwin & _).
    exists w. split; [done|]. by apply list_elem_of_filter in Hwin as [_ ?].
  - intros Hled Hn. destruct Hs as [[Ht _]|[_ ->]]; [done|].
    rewrite filter_none; [done|].
    intros p Hp [= Hsuit]. by apply (Hled p).
Qed.

Lemma evaluateTrickWinner_defined_on_contenders_witness :
  (∃ w, evaluateTrickWinner spec_trick (Some S_) None = Some w ∧ w ∈ spec_trick)
  ∧ evaluateTrickWinner spec_trick (Some D_) (Some C_) = None.
Proof.
  split.
  - apply (proj1 (evaluateTrickWinner_defined_on_contenders spec_trick S_ None)).
    left. exists (mkPlay 0 (mkCard RT S_) 0). split; [left|reflexivity].
  - apply (proj2 (evaluateTrickWinner_defined_on_contenders spec_trick D_
                    (Some C_))).
    + intros p Hp. unfold spec_trick in Hp.
      repeat (apply elem_of_cons in Hp as [->|Hp]); try discriminate.
      by apply elem_of_nil in Hp.
    + intros (t & p & Ht & Hp & Hsuit). injection Ht as <-.
      unfold spec_trick in Hp.
      repeat (apply elem_of_cons in Hp as [->|Hp]); try discriminate.
      by apply elem_of_nil in Hp.
Defined.

(** C4. [resolveTrick] has no knowledge of the reveal: its helper
    [undefinedIfUnrevealed] returns the trump suit in every case, and the
    winner is the one [evaluateTrickWinner] computes with the trump suit
    active. On the trick of the specification's test, led in Spades with
    Hearts as the trump suit of the hand, it returns seat 2 (the only
    Heart); with no trump suit the winner is seat 1. *)
Theorem resolveTrick_keeps_trump_active :
  resolveTrick spec_trick S_ H_ 4 = Some (mkTrickResult 2 1)
  ∧ seat <$> evaluateTrickWinner spec_trick (Some S_) None = Some 1
  ∧ ∀ plays ledSuit trumpSuit players,
      winnerSeat <$> resolveTrick plays ledSuit trumpSuit players
      = seat <$> evaluateTrickWinner plays (Some ledSuit) (Some trumpSuit).
Proof.
  split; [reflexivity|]. split; [reflexivity|].
  intros plays led trump players. unfold resolveTrick, undefinedIfUnrevealed.
  by destruct (evaluateTrickWinner plays (Some led) (Some trump)).
Qed.

(** [playCard] resolves the same trick with trump inactive while trump is
    not revealed: seat 1 wins and leads the next trick, and its team gets
    the ten of the trick. *)
Example playCard_unrevealed_trump_inactive :
  ∃ room' hands',
    playCard (screen_of "u3" demo_last_play) demo_last_play (mkCard R9 S_)
    = Committed (mkDb (Some room') hands')
    ∧ currentTurnSeat room' = Some 1
    ∧ plays room' = []
    ∧ trickIndex room' = 1
    ∧ tensByTeam room' !! "B"%string = Some 1.
Proof. eexists _, _. by vm_compute. Qed.

(* ===================================================================== *)
(** ** Playing and revealing (C5, C6, C7) *)
(* ===================================================================== *)

Lemma indexOf_nonneg {T} `{EqDecision T} (l : list T) (x : T) :
  0 <= indexOf l x ↔ x ∈ l.
Proof.
  unfold indexOf. destruct (list_find _ l) as [[i y]|] eqn:E.
  - apply list_find_Some in E as (Hi & -> & _). split; [|lia].
    intros _. by eapply list_elem_of_lookup_2.
  - split; [lia|]. intros Hx.
    apply list_find_None in E. rewrite Forall_forall in E. by destruct (E x Hx).
Qed.

Lemma remove_first_Permutation {T} `{EqDecision T} (l : list T) (x : T) :
  x ∈ l → x :: remove_first x l ≡ₚ l.
Proof.
  induction l as [|y l IH]; intros Hx; [by apply elem_of_nil in Hx|]. simpl.
  case_decide as Hy; [by subst|].
  apply elem_of_cons in Hx as [->|Hx]; [done|].
  by rewrite perm_swap, IH.
Qed.

(** The test [haveLed] of the reveal on the legal plays is the test on the
    visible hand. *)
Lemma existsb_legalPlays (vis : list Card) (l : Suit) :
  existsb (λ x, bool_decide (cardSuit x = l)) (legalPlays vis (Some l))
  = existsb (λ x, bool_decide (cardSuit x = l)) vis.
Proof.
  unfold legalPlays. case_decide as Hlen; [|done].
  destruct (filter (λ c, cardSuit c = l) vis) as [|x rest] eqn:E; [done|].
  assert (Hx : x ∈ filter (λ c, cardSuit c = l) vis) by (rewrite E; left).
  apply list_elem_of_filter in Hx as [Hsuit Hx]. simpl.
  rewrite (bool_decide_eq_true_2 _ Hsuit). simpl. symmetry.
  apply existsb_exists. exists x. rewrite <- list_elem_of_In.
  split; [done|]. by apply bool_decide_eq_true.
Qed.

(** *** What a committed play writes *)

Lemma playCard_Committed (c : Client) (db db' : Db) (played : Card) :
  playCard c db played = Committed db' →
  ∃ u st room hand room',
    on_turn c u st
    ∧ db_room db = Some room ∧ db_hands db !! u = Some hand
    ∧ played ∈ visible hand
    ∧ db_room db' = Some room'
    ∧ trumpRevealed room' = trumpRevealed room
    ∧ db_hands db'
      = <[u := mkHand (remove_first played (visible hand)) (hidden hand)]>
          (db_hands db).
Proof.
  unfold playCard. intros Hplay.
  destruct (truthy (roomId c)) as [r|] eqn:Hr; simpl in Hplay; [|done].
  destruct (truthy (uid c)) as [u|] eqn:Hu; [|done].
  destruct (state c) as [st|] eqn:Hst; [|done].
  destruct (myHand c) as [mine|] eqn:Hmine; [|done].
  case_decide as Hturn; [done|].
  destruct (db_room db) as [room|] eqn:Hroom; [|done].
  destruct (db_hands db !! u) as [hand|] eqn:Hhand; [|done].
  destruct (indexOf (visible hand) played <? 0) eqn:Hidx; [done|].
  apply Z.ltb_ge, indexOf_nonneg in Hidx.
  destruct (seats room) as [ss|]; [|done].
  assert (Hon : on_turn c u st).
  { unfold on_turn. rewrite Hr, Hmine. eauto 10. }
  case_decide.
  - destruct (credit_trick _ _ _ _) as [[win tens']|]; [|done].
    simplify_eq. by eexists u, st, room, hand, _.
  - simplify_eq. by eexists u, st, room, hand, _.
Qed.

(** A direct call of [playCard] does not look at the led suit: with the
    9 of Spades in the hand and Spades led, it commits the Ace of Hearts.
    The press handler does not make this call from a screen that shows this
    hand and this led suit. *)
Lemma playCard_accepts_off_suit :
  ∃ room' hand',
    playCard (screen_of "u2" demo_following) demo_following (mkCard RA H_)
    = Committed (mkDb (Some room')
                   (<["u2"%string := hand']> (db_hands demo_following)))
    ∧ ledSuit demo_room = Some S_
    ∧ db_hands demo_following !! "u2"%string
      = Some (mkHand [mkCard R9 S_; mkCard RA H_; mkCard R4 C_] None)
    ∧ plays room' = [mkPlay 1 (mkCard RK S_) 0; mkPlay 2 (mkCard RA H_) 1]
    ∧ visible hand' = [mkCard R9 S_; mkCard R4 C_].
Proof. eexists _, _. by vm_compute. Qed.

(** What the play path refuses. [playCard] returns before any
    transaction when the seat of the user is not the current turn seat of
    the screen's room snapshot; when the screen is ready, it is the user's
    turn there and the played card is not in the stored visible hand, the
    transaction throws "Card not in your hand"; and for a screen whose hand
    holds a card of the led suit it shows, a press on a card of another
    suit does not call [playCard]. *)
Lemma playCard_rejects_turn_and_absent_card (c : Client) (db : Db)
    (played : Card) :
  (∀ u st, truthy (uid c) = Some u → state c = Some st →
     currentTurnSeat st
     ≠ Some (match seats st with Some ss => indexOf ss u | None => -1 end) →
     playCard c db played = Returned)
  ∧ (∀ u st room hand,
       on_turn c u st → db_room db = Some room → db_hands db !! u = Some hand →
       played ∉ visible hand →
       playCard c db played = Thrown "Card not in your hand")
  ∧ (∀ st mine l x,
       state c = Some st → myHand c = Some mine → ledSuit st = Some l →
       x ∈ visible mine → cardSuit x = l → cardSuit played ≠ l →
       pressCard c db played = Returned).
Proof.
  split; [|split].
  - intros u st Hu Hst Hturn. unfold playCard. rewrite Hu, Hst.
    destruct (truthy (roomId c)); simpl; [|done].
    destruct (myHand c); [|done]. by rewrite decide_True by congruence.
  - intros u st room hand (Hr & Hu & Hst & Hmine & Hturn) Hroom Hhand Hnot.
    unfold playCard. destruct Hr as [r ->], Hmine as [mine ->].
    rewrite Hu, Hst. simpl. rewrite Hroom, Hhand.
    rewrite decide_False by (rewrite Hturn; by intros []).
    destruct (Z.ltb_spec (indexOf (visible hand) played) 0) as [|Hidx]; [done|].
    by apply indexOf_nonneg in Hidx.
  - intros st mine l x Hst Hmine Hled Hx Hsuit Hplayed.
    unfold pressCard. rewrite Hst, Hmine, Hled.
    assert (Hlegal : played ∉ legalPlays (visible mine) (Some l)).
    { unfold legalPlays.
      assert (Hin : x ∈ filter (λ c, cardSuit c = l) (visible mine))
        by by apply list_elem_of_filter.
      rewrite decide_True by (by destruct Hin).
      intros [? _]%list_elem_of_filter. done. }
    rewrite (bool_decide_eq_false_2 _ Hlegal). by rewrite andb_false_r.
Qed.

Lemma playCard_rejects_turn_and_absent_card_witness :
  playCard (screen_of "u0" demo_following) demo_following (mkCard RA S_)
  = Returned
  ∧ playCard (screen_of "u2" demo_following) demo_following (mkCard RA D_)
    = Thrown "Card not in your hand"
  ∧ pressCard (screen_of "u2" demo_following) demo_following (mkCard RA H_)
    = Returned.
Proof.
  split; [|split].
  - eapply (proj1 (playCard_rejects_turn_and_absent_card _ _ _));
      [reflexivity|reflexivity|]. vm_compute. discriminate.
  - eapply (proj1 (proj2 (playCard_rejects_turn_and_absent_card _ _ _))
              "u2"%string demo_room);
      [|reflexivity|reflexivity|].
    + unfold on_turn. repeat split; by eexists.
    + vm_compute. intros Hin.
      repeat (apply elem_of_cons in Hin as [?|Hin]; [discriminate|]).
      by apply elem_of_nil in Hin.
  - eapply (proj2 (proj2 (playCard_rejects_turn_and_absent_card _ _ _)))
      with (x := mkCard R9 S_);
      [reflexivity|reflexivity|reflexivity|left|reflexivity|discriminate].
Defined.

(** C5. A play out of turn and off suit is committed. Seat 2 leads the 9
    of Spades from a screen that is in step with the store: the play is
    committed, Spades are led and the turn passes to seat 3. A second press
    on the same screen, which still shows the turn of seat 2 and no led
    suit, plays the Ace of Hearts: it is committed as well, although in the
    stored room it is the turn of seat 3 and the stored hand of seat 2
    holds the 5 of Spades. Seat 2 has played twice in the trick and the
    turn has passed over seat 3. *)
Theorem playCard_commits_out_of_turn :
  ∃ db1 room1 hand1 db2 room2 hand2,
    pressCard (screen_of "u2" demo_lead) demo_lead (mkCard R9 S_)
    = Committed db1
    ∧ db_room db1 = Some room1 ∧ db_hands db1 !! "u2"%string = Some hand1
    ∧ seats room1 = Some ["u0"; "u1"; "u2"; "u3"]%string
    ∧ currentTurnSeat room1 = Some 3
    ∧ ledSuit room1 = Some S_
    ∧ visible hand1 = [mkCard R5 S_; mkCard RA H_]
    ∧ pressCard (screen_of "u2" demo_lead) db1 (mkCard RA H_) = Committed db2
    ∧ db_room db2 = Some room2 ∧ db_hands db2 !! "u2"%string = Some hand2
    ∧ plays room2 = [mkPlay 2 (mkCard R9 S_) 0; mkPlay 2 (mkCard RA H_) 1]
    ∧ ledSuit room2 = Some S_
    ∧ currentTurnSeat room2 = Some 0
    ∧ visible hand2 = [mkCard R5 S_].
Proof.
  eexists _, _, _, _, _, _.
  split; [by vm_compute|]. split; [reflexivity|]. split; [by vm_compute|].
  split; [reflexivity|]. split; [reflexivity|]. split; [reflexivity|].
  split; [reflexivity|]. split; [by vm_compute|]. split; [reflexivity|].
  split; [by vm_compute|]. split; [reflexivity|]. split; [reflexivity|].
  split; reflexivity.
Qed.

(** The same second press on the reveal button is refused: the transaction
    of [revealTrumpAndPlay] tests the turn on the stored room. *)
Example reveal_second_press_throws :
  ∃ db1 room1,
    revealTrumpAndPlay (screen_of "u2" demo_void) demo_void false
    = Committed db1
    ∧ db_room db1 = Some room1 ∧ currentTurnSeat room1 = Some 3
    ∧ revealTrumpAndPlay (screen_of "u2" demo_void) db1 false
      = Thrown "Not your turn".
Proof.
  eexists _, _. split; [by vm_compute|]. split; [reflexivity|].
  split; reflexivity.
Qed.

(** *** What a committed reveal writes *)

Lemma revealTrumpAndPlay_Committed (c : Client) (db db' : Db)
    (useHiddenIfOnly : bool) :
  revealTrumpAndPlay c db useHiddenIfOnly = Committed db' →
  ∃ u room hand room' hand' played,
    truthy (uid c) = Some u
    ∧ db_room db = Some room ∧ db_hands db !! u = Some hand
    ∧ Some (cardSuit played) = trumpSuit room
    ∧ db' = mkDb (Some room') (<[u := hand']> (db_hands db))
    ∧ trumpRevealed room' = true
    ∧ hidden hand' = None
    ∧ ((played ∈ visible hand
        ∧ visible hand'
          ≡ₚ remove_first played (visible hand) ++ option_list (hidden hand))
       ∨ ((∀ x, x ∈ visible hand → Some (cardSuit x) ≠ trumpSuit room)
          ∧ hidden hand = Some played
          ∧ useHiddenIfOnly = true
          ∧ visible hand' ≡ₚ visible hand))
    ∧ ((∃ s, plays room' = plays room ++ [mkPlay s played (Z.of_nat (length (plays room)))])
       ∨ (plays room' = []
          ∧ (length <$> seats room) = Some (S (length (plays room))))).
Proof.
  unfold revealTrumpAndPlay. intros Hrev.
  destruct (truthy (roomId c)) as [r|]; simpl in Hrev; [|done].
  destruct (truthy (uid c)) as [u|] eqn:Hu; [|done].
  destruct (state c) as [st|]; [|done].
  destruct (myHand c) as [mine|]; [|done].
  destruct (ledSuit st) as [led|]; [|done].
  destruct (trumpRevealed st); [done|].
  destruct (existsb _ _); [done|].
  destruct (db_room db) as [room|] eqn:Hroom; [|done].
  destruct (seats room) as [ss|] eqn:Hss; [|done].
  case_decide as Hturn; [done|].
  destruct (db_hands db !! u) as [hand|] eqn:Hhand; [|done].
  set (trumps := filter (λ x, Some (cardSuit x) = trumpSuit room) (visible hand))
    in *.
  case_decide as Hlen.
  - destruct (last (js_sort default_cmp trumps)) as [x|] eqn:Hlast; [|done].
    apply last_elem_of, js_sort_elem_of, list_elem_of_filter in Hlast
      as [Hsuit Hx].
    assert (Hvis : ∀ l, js_sort default_cmp l ≡ₚ l) by apply js_sort_Permutation.
    simpl in Hrev. case_decide as Hn.
    + destruct (credit_trick _ _ _ _) as [[win tens']|]; [|done].
      simplify_eq. eexists u, room, hand, _, _, x.
      repeat (split; [done|]). simpl. split.
      * left. split; [done|]. rewrite Hvis.
        destruct (hidden hand); simpl; by rewrite ?app_nil_r.
      * right. split; [done|]. rewrite Hss. rewrite length_app in Hn.
        simpl in *. f_equal. lia.
    + simplify_eq. eexists u, room, hand, _, _, x.
      repeat (split; [done|]). simpl. split.
      * left. split; [done|]. rewrite Hvis.
        destruct (hidden hand); simpl; by rewrite ?app_nil_r.
      * left. by eexists.
  - assert (Hnone : ∀ x, x ∈ visible hand → Some (cardSuit x) ≠ trumpSuit room).
    { intros x Hx Hsuit. assert (x ∈ trumps) as Hin
        by by apply list_elem_of_filter.
      destruct trumps; [by apply elem_of_nil in Hin|done]. }
    destruct (hidden hand) as [h|] eqn:Hh; [|done].
    case_decide as Hsuit; [|done].
    destruct useHiddenIfOnly; [|done].
    simpl in Hrev. case_decide as Hn.
    + destruct (credit_trick _ _ _ _) as [[win tens']|]; [|done].
      simplify_eq. eexists u, room, hand, _, _, h.
      repeat (split; [done|]). simpl. split.
      * right. repeat (split; [done|]). apply js_sort_Permutation.
      * right. split; [done|]. rewrite Hss. rewrite length_app in Hn.
        simpl in *. f_equal. lia.
    + simplify_eq. eexists u, room, hand, _, _, h.
      repeat (split; [done|]). simpl. split.
      * right. repeat (split; [done|]). apply js_sort_Permutation.
      * left. by eexists.
Qed.

(** C6, as stated, fails: [canRevealTrump] does not look for a trump card.
    It answers [true] for a hand void in the led Spades that holds no Club,
    visible or hidden, when Clubs are the trump suit. *)
Lemma canRevealTrump_true_without_trump :
  canRevealTrump [mkCard RA H_; mkCard R3 D_] None (Some S_) false = true
  ∧ ¬ holds_suit C_ [mkCard RA H_; mkCard R3 D_] None.
Proof.
  split; [reflexivity|]. intros [(x & Hx & Hsuit)|(h & Hh & _)]; [|done].
  repeat (apply elem_of_cons in Hx as [->|Hx]; [discriminate|]).
  by apply elem_of_nil in Hx.
Qed.

(** C6, amended. [canRevealTrump] returns [true] exactly when trump is not
    yet revealed, the led suit is set and the seat holds no visible card of
    the led suit; it does not test that the seat holds a trump card. That
    test is made by [revealTrumpAndPlay]: a reveal is committed only for a
    seat that holds a card of the trump suit, visible or hidden; and when
    the reveal of a seat with no trump at all reaches that test (the
    screen's snapshots allow the reveal and the seat is at turn in the
    stored room), the transaction throws "No trump to reveal with". *)
Theorem canRevealTrump_void_and_unrevealed (handVisible : list Card)
    (hidden_card : option Card) (led : option Suit) (revealed : bool) :
  (canRevealTrump handVisible hidden_card led revealed = true
   ↔ revealed = false
     ∧ ∃ l, led = Some l ∧ ∀ x, x ∈ handVisible → cardSuit x ≠ l)
  ∧ (∀ c db useHiddenIfOnly db',
       revealTrumpAndPlay c db useHiddenIfOnly = Committed db' →
       ∃ u room hand t,
         truthy (uid c) = Some u ∧ db_room db = Some room
         ∧ db_hands db !! u = Some hand ∧ trumpSuit room = Some t
         ∧ holds_suit t (visible hand) (hidden hand))
  ∧ (∀ c db useHiddenIfOnly u st mine room ss hand,
       is_Some (truthy (roomId c)) → truthy (uid c) = Some u →
       state c = Some st → myHand c = Some mine →
       canRevealTrump (visible mine) (hidden mine) (ledSuit st)
         (trumpRevealed st) = true →
       db_room db = Some room → seats room = Some ss →
       currentTurnSeat room = Some (indexOf ss u) →
       db_hands db !! u = Some hand →
       (∀ t, trumpSuit room = Some t →
             ¬ holds_suit t (visible hand) (hidden hand)) →
       revealTrumpAndPlay c db useHiddenIfOnly
       = Thrown "No trump to reveal with").
Proof.
  split; [|split].
  - unfold canRevealTrump. destruct revealed.
    { split; [done|]. by intros [? _]. }
    destruct led as [l|].
    2: { split; [done|]. by intros [_ (l & ? & _)]. }
    destruct (existsb _ handVisible) eqn:Hex.
    + split; [done|]. intros [_ (l' & [= <-] & Hvoid)].
      apply existsb_exists in Hex as (x & Hx & Hsuit).
      apply bool_decide_eq_true in Hsuit. apply list_elem_of_In in Hx.
      by destruct (Hvoid x Hx).
    + split; [|done]. intros _. split; [done|]. exists l. split; [done|].
      intros x Hx Hsuit.
      assert (existsb (λ c, bool_decide (cardSuit c = l)) handVisible = true)
        as Hex'; [|congruence].
      apply existsb_exists. exists x. rewrite <- list_elem_of_In.
      split; [done|]. by apply bool_decide_eq_true.
  - intros c db b db' Hrev.
    destruct (revealTrumpAndPlay_Committed c db db' b Hrev)
      as (u & room & hand & room' & hand' & played & Hu & Hroom & Hhand
          & Hsuit & _ & _ & _ & Hcase & _).
    exists u, room, hand, (cardSuit played). repeat (split; [done|]).
    destruct Hcase as [[Hin _]|(_ & Hhid & _)].
    + left. by exists played.
    + right. by exists played.
  - intros c db b u st mine room ss hand [r Hr] Hu Hst Hmine Hcan Hroom Hss
      Hturn Hhand Hnone.
    unfold canRevealTrump in Hcan.
    destruct (trumpRevealed st) eqn:Hrevealed; [done|].
    destruct (ledSuit st) as [l|] eqn:Hl; [|done].
    destruct (existsb _ (visible mine)) eqn:Hex; [done|].
    unfold revealTrumpAndPlay. rewrite Hr, Hu, Hst, Hmine.
    cbn [mbind option_bind]. rewrite Hl, Hrevealed, existsb_legalPlays, Hex.
    rewrite Hroom, Hss, Hhand.
    rewrite decide_False by (rewrite Hturn; by intros []).
    assert (Hvis : filter (λ x, Some (cardSuit x) = trumpSuit room) (visible hand)
                   = []).
    { apply filter_none. intros x Hx Hsuit.
      apply (Hnone (cardSuit x)); [done|]. left. by exists x. }
    rewrite Hvis. simpl.
    destruct (hidden hand) as [h|] eqn:Hh; [|done].
    case_decide as Hsuit; [|done].
    destruct (Hnone (cardSuit h)); [done|]. right. by exists h.
Qed.

Lemma canRevealTrump_void_and_unrevealed_witness :
  (∃ t, trumpSuit demo_room = Some t
        ∧ holds_suit t [mkCard RA H_; mkCard R4 C_; mkCard RT C_] None)
  ∧ revealTrumpAndPlay (screen_of "u2" demo_no_trump) demo_no_trump false
    = Thrown "No trump to reveal with".
Proof.
  split.
  2: { eapply (proj2 (proj2 (canRevealTrump_void_and_unrevealed [] None None
                               false))
                 _ _ _ "u2"%string demo_room
                 (mkHand [mkCard RA H_; mkCard R3 D_] None) demo_room
                 ["u0"; "u1"; "u2"; "u3"]%string
                 (mkHand [mkCard RA H_; mkCard R3 D_] None)).
       - by eexists.
       - reflexivity.
       - reflexivity.
       - reflexivity.
       - reflexivity.
       - reflexivity.
       - reflexivity.
       - reflexivity.
       - reflexivity.
       - intros t Ht. injection Ht as <-.
         intros [(x & Hx & Hsuit)|(h & Hh & _)]; [|discriminate Hh].
         simpl in Hx.
         repeat (apply elem_of_cons in Hx as [->|Hx]; [discriminate|]).
         by apply elem_of_nil in Hx. }
  destruct (proj1 (proj2 (canRevealTrump_void_and_unrevealed [] None None false))
              (screen_of "u2" demo_void) demo_void false
              (mkDb
                 (Some (mkRoom (seats demo_room) (teamMap demo_room)
                          (hiderSeat demo_room) (trumpSuit demo_room) true
                          (Some 2) (Some 3) (Some S_)
                          (plays demo_room ++ [mkPlay 2 (mkCard RT C_) 1])
                          0 ∅))
                 (<["u2"%string := mkHand [mkCard R4 C_; mkCard RA H_] None]>
                    (db_hands demo_void))))
    as (u & room & hand & t & Hu & Hroom & Hhand & Ht & Hholds).
  - vm_compute. reflexivity.
  - exists t. injection Hu as <-. injection Hroom as <-.
    vm_compute in Hhand. injection Hhand as <-. split; [exact Ht|exact Hholds].
Defined.

(** With no trump in the hand the reveal is refused. *)
Example reveal_without_trump_throws :
  revealTrumpAndPlay (screen_of "u2" demo_no_trump) demo_no_trump true
  = Thrown "No trump to reveal with".
Proof. reflexivity. Qed.

(** *** The hidden slot after a reveal *)

Lemma game_step_hidden_empty (db db' : Db) (v : string) :
  game_step db db' → hidden_empty db v → hidden_empty db' v.
Proof.
  unfold hidden_empty. intros Hstep (h & Hv & Hnone).
  destruct Hstep as [c played db db' Hplay|c b db db' Hrev].
  - apply playCard_Committed in Hplay
      as (u & st & room & hand & room' & _ & _ & Hhand & _ & _ & _ & Hhands).
    rewrite Hhands. destruct (decide (u = v)) as [->|Hne].
    + eexists. rewrite lookup_insert_eq. split; [done|]. simpl. congruence.
    + exists h. by rewrite lookup_insert_ne.
  - apply revealTrumpAndPlay_Committed in Hrev
      as (u & room & hand & room' & hand' & played & _ & _ & _ & _ & ->
          & _ & Hhid & _).
    simpl. destruct (decide (u = v)) as [->|Hne].
    + exists hand'. by rewrite lookup_insert_eq.
    + exists h. by rewrite lookup_insert_ne.
Qed.

Lemma game_steps_hidden_empty (db db' : Db) (v : string) :
  rtc game_step db db' → hidden_empty db v → hidden_empty db' v.
Proof.
  induction 1 as [|db1 db2 db3 Hstep _ IH]; [done|].
  intros Hv. by apply IH, (game_step_hidden_empty db1).
Qed.

(** After a reveal that left a card hidden, that card stays hidden: a play
    keeps the hidden slot, and a screen that sees trump revealed makes no
    reveal. *)
Lemma synced_step_hidden_after_reveal (db db' : Db) (v : string) (h : Card) :
  synced_step db db' → hidden_after_reveal db v h → hidden_after_reveal db' v h.
Proof.
  unfold hidden_after_reveal. intros Hstep (room & hand & Hroom & Hrev & Hv & Hh).
  destruct Hstep as [c played db db' _ Hplay|c b db db' Hsync Hreveal].
  - apply playCard_Committed in Hplay
      as (u & st & room0 & hand0 & room' & _ & Hroom0 & Hhand0 & _ & Hroom'
          & Htrump & Hhands).
    assert (room0 = room) as -> by congruence.
    exists room'. rewrite Hhands. destruct (decide (u = v)) as [->|Hne].
    + eexists. rewrite lookup_insert_eq. repeat split; [done|congruence|].
      simpl. congruence.
    + exists hand. rewrite lookup_insert_ne by done.
      repeat split; [done|congruence|done|done].
  - exfalso. unfold revealTrumpAndPlay in Hreveal. rewrite Hsync, Hroom in Hreveal.
    destruct (truthy (roomId c) ≫= _); [|done].
    destruct (myHand c); [|done].
    destruct (ledSuit room); [|done]. by rewrite Hrev in Hreveal.
Qed.

Lemma synced_steps_hidden_after_reveal (db db' : Db) (v : string) (h : Card) :
  rtc synced_step db db' → hidden_after_reveal db v h →
  hidden_after_reveal db' v h.
Proof.
  induction 1 as [|db1 db2 db3 Hstep _ IH]; [done|].
  intros Hv. by apply IH, (synced_step_hidden_after_reveal db1).
Qed.

(** C7. The code does not do what the claim says for a reveal by a seat
    other than the hider: the reveal writes the hand of the revealing seat
    only. Seat 2 reveals with the 10 of Clubs, which is not the hidden
    card; the hand document of the hider, seat 0, is the same as before,
    the 7 of Clubs hidden and not among its visible cards. From then on, as
    long as the screens act on the stored room, the card stays hidden and
    the hider's hand is never finished. *)
Theorem reveal_by_other_seat_keeps_hider_card_hidden :
  ∃ db',
    revealTrumpAndPlay (screen_of "u2" demo_void) demo_void false = Committed db'
    ∧ hiderSeat demo_room = Some 0
    ∧ (seats demo_room ≫= λ ss, lookupZ ss 0) = Some "u0"%string
    ∧ trumpRevealed <$> db_room db' = Some true
    ∧ plays <$> db_room db'
      = Some [mkPlay 1 (mkCard RK S_) 0; mkPlay 2 (mkCard RT C_) 1]
    ∧ db_hands db' !! "u0"%string
      = Some (mkHand [mkCard RA S_; mkCard R5 H_] (Some (mkCard R7 C_)))
    ∧ ∀ db'', rtc synced_step db' db'' →
        ∃ hand, db_hands db'' !! "u0"%string = Some hand
                ∧ hidden hand = Some (mkCard R7 C_)
                ∧ handFinished [hand] = false.
Proof.
  eexists. split; [by vm_compute|]. do 5 (split; [by vm_compute|]).
  intros db'' Hsteps.
  destruct (synced_steps_hidden_after_reveal _ _ "u0" (mkCard R7 C_) Hsteps)
    as (room & hand & _ & _ & Hhand & Hh).
  - eexists _, _. by vm_compute.
  - exists hand. split; [done|]. split; [done|].
    unfold handFinished. simpl. rewrite Hh.
    by rewrite (bool_decide_eq_false_2 (Some _ = None)), andb_false_r.
Qed.

(** X27. What the code does on a reveal: it writes the hand document of
    the revealing user and no other hand document, and leaves that hand with an
    empty hidden slot, which no later play or reveal fills again. When the
    hand has a visible trump, the played card is one of its visible cards
    and the new visible hand is the old one without the played card and
    with the hand's own hidden card, if it had one: the hider's hidden card
    becomes visible when the hider reveals. When the hand has no visible
    trump, the played card is the hand's hidden card, [useHiddenIfOnly] is
    set, and the visible hand keeps its cards. *)
Lemma revealTrumpAndPlay_unlocks_own_hidden (c : Client) (db db' : Db)
    (useHiddenIfOnly : bool) :
  revealTrumpAndPlay c db useHiddenIfOnly = Committed db' →
  ∃ u room hand hand' played,
    truthy (uid c) = Some u
    ∧ db_room db = Some room
    ∧ db_hands db !! u = Some hand
    ∧ db_hands db' !! u = Some hand'
    ∧ (∀ v, v ≠ u → db_hands db' !! v = db_hands db !! v)
    ∧ Some (cardSuit played) = trumpSuit room
    ∧ hidden hand' = None
    ∧ (∀ db'', rtc game_step db' db'' → hidden_empty db'' u)
    ∧ ((played ∈ visible hand
        ∧ (∀ h, hidden hand = Some h → h ∈ visible hand')
        ∧ visible hand'
          ≡ₚ remove_first played (visible hand) ++ option_list (hidden hand))
       ∨ ((∀ x, x ∈ visible hand → Some (cardSuit x) ≠ trumpSuit room)
          ∧ hidden hand = Some played
          ∧ useHiddenIfOnly = true
          ∧ visible hand' ≡ₚ visible hand)).
Proof.
  intros Hrev.
  destruct (revealTrumpAndPlay_Committed c db db' useHiddenIfOnly Hrev)
    as (u & room & hand & room' & hand' & played & Hu & Hroom & Hhand
        & Hsuit & -> & _ & Hhid & Hcase & _).
  exists u, room, hand, hand', played. simpl.
  split; [done|]. split; [done|]. split; [done|].
  split; [by rewrite lookup_insert_eq|].
  split; [by intros v Hv; rewrite lookup_insert_ne|].
  split; [done|]. split; [done|]. split.
  - intros db'' Hsteps. apply (game_steps_hidden_empty _ _ _ Hsteps).
    exists hand'. simpl. by rewrite lookup_insert_eq.
  - destruct Hcase as [(Hin & Hperm)|Hcase]; [left|by right].
    split; [done|]. split; [|done].
    intros h Hh. rewrite Hperm, Hh. apply elem_of_app. right. by left.
Qed.

Lemma revealTrumpAndPlay_unlocks_own_hidden_witness :
  ∃ hand', visible hand' ≡ₚ [mkCard RA H_; mkCard R5 H_] ∧ hidden hand' = None.
Proof.
  destruct (revealTrumpAndPlay_unlocks_own_hidden
              (screen_of "u0" demo_hider) demo_hider
              (mkDb
                 (Some (mkRoom (seats demo_hider_room) (teamMap demo_hider_room)
                          (hiderSeat demo_hider_room) (trumpSuit demo_hider_room)
                          true (Some 0) (Some 1) (Some S_)
                          (plays demo_hider_room ++ [mkPlay 0 (mkCard R7 C_) 1])
                          0 ∅))
                 (<["u0"%string := mkHand [mkCard R5 H_; mkCard RA H_] None]>
                    (db_hands demo_hider)))
              true)
    as (u & room & hand & hand' & played & Hu & Hroom & Hhand & _ & _ & Hsuit
        & Hhid & _ & Hcase).
  - vm_compute. reflexivity.
  - exists hand'. split; [|exact Hhid].
    injection Hu as <-. injection Hroom as <-.
    vm_compute in Hhand. injection Hhand as <-.
    destruct Hcase as [(Hin & _)|(_ & _ & _ & Hperm)]; [|exact Hperm].
    exfalso. simpl in Hin.
    repeat (apply elem_of_cons in Hin as [->|Hin]; [discriminate|]).
    by apply elem_of_nil in Hin.
Defined.

(** The hider reveals with a visible trump: its hidden card joins its
    visible cards. *)
Example hider_reveal_unlocks_hidden :
  ∃ room',
    revealTrumpAndPlay
      (mkClient (Some "room"%string) (Some "u0"%string) (Some demo_hider_room)
         (Some (mkHand [mkCard RA H_; mkCard R4 C_] (Some (mkCard R7 C_)))))
      (mkDb (Some demo_hider_room)
         (<["u0"%string := mkHand [mkCard RA H_; mkCard R4 C_] (Some (mkCard R7 C_))]> ∅))
      false
    = Committed
        (mkDb (Some room')
           (<["u0"%string := mkHand [mkCard R7 C_; mkCard RA H_] None]> ∅))
    ∧ plays room' = [mkPlay 3 (mkCard RK S_) 0; mkPlay 0 (mkCard R4 C_) 1].
Proof. eexists. by vm_compute. Qed.

(* ===================================================================== *)
(** ** More about the deck and the hand size *)
(* ===================================================================== *)

(** X1. A single deck holds every card once: 48 cards without a
    repetition. The built deck holds every card as many times as there are
    decks, 48 cards per deck. *)
Theorem buildDecksNoTwos_every_card (deckCount : DeckCount) (c : Card) :
  NoDup buildSingleDeckNoTwos
  ∧ c ∈ buildSingleDeckNoTwos
  ∧ length (filter (λ x, x = c) (buildDecksNoTwos deckCount))
    = deck_number deckCount
  ∧ length (buildDecksNoTwos deckCount) = (48 * deck_number deckCount)%nat.
Proof.
  split; [|split; [|split]].
  - apply (bool_decide_unpack _). by vm_compute.
  - apply (bool_decide_unpack _). by destruct c as [[] []]; vm_compute.
  - apply buildDecksNoTwos_multiplicity.
  - apply buildDecksNoTwos_length.
Qed.

(** X2. For a positive player count the table of [cardsPerPlayer] gives the
    quotient of the deck size by the player count: the cards dealt do not
    exceed the deck, fewer than [players] cards are left over, and a seat
    gets no card exactly when there are more players than cards. *)
Theorem cardsPerPlayer_quotient (players : nat) (deckCount : DeckCount) :
  (0 < players)%nat →
  let total := length (buildDecksNoTwos deckCount) in
  let each := cardsPerPlayer players deckCount in
  (players * each ≤ total)%nat
  ∧ (total < players * each + players)%nat
  ∧ (each = 0%nat ↔ (total < players)%nat).
Proof.
  intros Hpos total each. unfold each. rewrite cardsPerPlayer_div. fold total.
  pose proof (Nat.div_mod_eq total players) as Hdiv.
  pose proof (Nat.mod_upper_bound total players ltac:(lia)) as Hmod.
  split; [lia|]. split; [lia|]. split.
  - intros Hz. rewrite Hz in Hdiv. lia.
  - intros Hlt. by apply Nat.div_small.
Qed.

Lemma cardsPerPlayer_quotient_witness :
  (5 * cardsPerPlayer 5 One ≤ 48)%nat
  ∧ (48 < 5 * cardsPerPlayer 5 One + 5)%nat.
Proof.
  destruct (cardsPerPlayer_quotient 5 One) as (H1 & H2 & _).
  - lia.
  - split; [exact H1|exact H2].
Defined.

(* ===================================================================== *)
(** ** The round-robin deal *)
(* ===================================================================== *)

Lemma option_fmap_Some {A B} (f : A → B) (x : A) : f <$> Some x = Some (f x).
Proof. done. Qed.

(** A stretch of the loop of [dealToPlayers] that does not pass the last
    seat: the seat [s] of the stretch gets the card at the position of its
    turn. *)
Lemma dealToPlayers_run (deck : list Card) (p n : nat) :
  ∀ i hands s0,
    length hands = p → (s0 < p)%nat → (s0 + n ≤ p)%nat →
    ∃ hands',
      for_loop (dealToPlayers_step deck p) i n (hands, s0)
      = Some (hands', ((s0 + n) `mod` p)%nat)
      ∧ length hands' = p
      ∧ ∀ s, hands' !! s
             = (λ h, h ++ if decide (s0 ≤ s < s0 + n)%nat
                          then [deck !! (i + (s - s0))%nat] else [])
               <$> hands !! s.
Proof.
  induction n as [|n IH]; intros i hands s0 Hlen Hs0 Hn.
  - exists hands. rewrite Nat.add_0_r, Nat.mod_small by done. simpl.
    split; [done|split; [done|]]. intros s.
    destruct (hands !! s) as [h|]; simpl; [|done].
    rewrite decide_False by lia. by rewrite app_nil_r.
  - destruct (lookup_lt_is_Some_2 hands s0) as [hand Hhand]; [lia|].
    simpl. rewrite Hhand. simpl.
    destruct n as [|n].
    + exists (<[s0 := hand ++ [deck !! i]]> hands). simpl.
      split; [done|split; [by rewrite length_insert|]]. intros s.
      destruct (decide (s = s0)) as [->|Hne].
      * rewrite list_lookup_insert_eq, Hhand by lia. simpl.
        rewrite decide_True by lia. by rewrite Nat.sub_diag, Nat.add_0_r.
      * rewrite list_lookup_insert_ne by done.
        destruct (hands !! s) as [h|]; simpl; [|done].
        rewrite decide_False by lia. by rewrite app_nil_r.
    + rewrite Nat.mod_small by lia.
      destruct (IH (i + 1)%nat (<[s0 := hand ++ [deck !! i]]> hands) (s0 + 1)%nat)
        as (hands' & Hrun & Hlen' & Hget); [by rewrite length_insert|lia|lia|].
      exists hands'. replace (s0 + S (S n))%nat with (s0 + 1 + S n)%nat by lia.
      split; [done|split; [done|]]. intros s. rewrite Hget.
      destruct (decide (s = s0)) as [->|Hne].
      * rewrite list_lookup_insert_eq, Hhand by lia. simpl.
        rewrite decide_False, decide_True by lia.
        by rewrite app_nil_r, Nat.sub_diag, Nat.add_0_r.
      * rewrite list_lookup_insert_ne by done.
        destruct (hands !! s) as [h|]; simpl; [|done].
        destruct (decide (s0 + 1 ≤ s < s0 + 1 + S n)%nat).
        -- rewrite decide_True by lia. do 4 f_equal. lia.
        -- by rewrite decide_False by lia.
Qed.

(** One round of [dealToPlayers]. *)
Lemma dealToPlayers_round (deck : list Card) (p i start : nat)
    (hands : list (list (option Card))) :
  length hands = p → (start < p)%nat →
  ∃ hands',
    for_loop (dealToPlayers_step deck p) i p (hands, start) = Some (hands', start)
    ∧ length hands' = p
    ∧ ∀ s, hands' !! s
           = (λ h, h ++ [deck !! (i + turn_offset p start s)%nat]) <$> hands !! s.
Proof.
  intros Hlen Hstart.
  destruct (dealToPlayers_run deck p (p - start) i hands start)
    as (hands1 & Hrun1 & Hlen1 & Hget1); [done|done|lia|].
  replace (start + (p - start))%nat with p in Hrun1, Hget1 by lia.
  rewrite Nat.Div0.mod_same in Hrun1.
  destruct (dealToPlayers_run deck p start (i + (p - start)) hands1 0)
    as (hands2 & Hrun2 & Hlen2 & Hget2); [done|lia|lia|].
  rewrite Nat.add_0_l, Nat.mod_small in Hrun2 by done.
  exists hands2. split; [|split; [done|]].
  - replace p with ((p - start) + start)%nat at 2 by lia.
    rewrite for_loop_app, Hrun1. simpl. exact Hrun2.
  - intros s. rewrite Hget2, Hget1.
    destruct (hands !! s) as [h|] eqn:Hs; simpl; [|done].
    apply lookup_lt_Some in Hs. unfold turn_offset. f_equal.
    rewrite <- (assoc_L (++)). f_equal.
    destruct (decide (start ≤ s)%nat).
    + rewrite decide_True, decide_False by lia. done.
    + rewrite decide_False, decide_True by lia. simpl. do 2 f_equal. lia.
Qed.

Lemma dealToPlayers_rounds (deck : list Card) (p start e : nat) :
  ∀ i hands,
    length hands = p → (start < p)%nat →
    ∃ hands',
      for_loop (dealToPlayers_step deck p) i (p * e) (hands, start)
      = Some (hands', start)
      ∧ length hands' = p
      ∧ ∀ s, hands' !! s
             = (λ h, h ++ ((λ k, deck !! (i + k * p + turn_offset p start s)%nat)
                             <$> seq 0 e))
               <$> hands !! s.
Proof.
  induction e as [|e IH]; intros i hands Hlen Hstart.
  - rewrite Nat.mul_0_r. exists hands. simpl. split; [done|split; [done|]].
    intros s. destruct (hands !! s); simpl; [|done]. by rewrite app_nil_r.
  - replace (p * S e)%nat with (p + p * e)%nat by lia.
    destruct (dealToPlayers_round deck p i start hands)
      as (hands1 & Hrun1 & Hlen1 & Hget1); [done|done|].
    destruct (IH (i + p)%nat hands1) as (hands2 & Hrun2 & Hlen2 & Hget2);
      [done|done|].
    exists hands2. split; [|split; [done|]].
    + rewrite for_loop_app, Hrun1. simpl. exact Hrun2.
    + intros s. rewrite Hget2, Hget1.
      destruct (hands !! s) as [h|]; [|done].
      rewrite !option_fmap_Some. cbv beta. f_equal.
      rewrite <- (assoc_L (++)). f_equal.
      change (seq 0 (S e)) with (0%nat :: seq 1 e).
      rewrite fmap_cons, <- fmap_S_seq, <- list_fmap_compose.
      change ([?x] ++ ?l) with (x :: l).
      f_equal; [f_equal; lia|].
      apply list_fmap_ext. intros _ k _. simpl. f_equal. lia.
Qed.

Lemma turn_offset_mod (players startSeat s : nat) :
  (startSeat < players)%nat → (s < players)%nat →
  turn_offset players startSeat s = ((s + players - startSeat) `mod` players)%nat.
Proof.
  intros Hstart Hs. unfold turn_offset. case_decide.
  - replace (s + players - startSeat)%nat
      with ((s - startSeat) + 1 * players)%nat by lia.
    rewrite Nat.Div0.mod_add. by rewrite Nat.mod_small by lia.
  - rewrite Nat.mod_small by lia. lia.
Qed.

Lemma dealToPlayers_hands (deck : list Card) (players startSeat each : nat) :
  (startSeat < players)%nat →
  dealToPlayers deck players startSeat each
  = Some (round_robin_hand deck players startSeat each <$> seq 0 players).
Proof.
  intros Hstart. unfold dealToPlayers.
  destruct (dealToPlayers_rounds deck players startSeat each 0
              (replicate players []))
    as (hands & Hrun & Hlen & Hget); [by rewrite length_replicate|done|].
  rewrite Hrun. simpl. f_equal. apply list_eq. intros s. rewrite Hget.
  rewrite list_lookup_fmap.
  destruct (decide (s < players)%nat) as [Hs|Hs].
  - rewrite lookup_replicate_2, lookup_seq_lt by done. simpl. done.
  - rewrite (proj1 (lookup_replicate_None _ _ _)), lookup_seq_ge by lia. done.
Qed.

(** X3. [dealToPlayers] from a start seat below the player count returns
    one hand per seat, and the hand of a seat is every [players]-th entry of
    the deck, from the position of the seat's first turn after the start
    seat: [each] entries per seat, [undefined] where the deck has ended. *)
Theorem dealToPlayers_round_robin (deck : list Card)
    (players startSeat each : nat) :
  (startSeat < players)%nat →
  dealToPlayers deck players startSeat each
  = Some (round_robin_hand deck players startSeat each <$> seq 0 players)
  ∧ ∀ s, (s < players)%nat →
      turn_offset players startSeat s
      = ((s + players - startSeat) `mod` players)%nat.
Proof.
  intros Hstart. split.
  - by apply dealToPlayers_hands.
  - intros s Hs. by apply turn_offset_mod.
Qed.

Lemma dealToPlayers_round_robin_witness :
  dealToPlayers (buildDecksNoTwos One) 4 1 12
  = Some (round_robin_hand (buildDecksNoTwos One) 4 1 12 <$> seq 0 4).
Proof.
  destruct (dealToPlayers_round_robin (buildDecksNoTwos One) 4 1 12) as [H _].
  - lia.
  - exact H.
Defined.

(** X4. [dealToPlayers] with nothing to deal returns the empty hands
    whatever the start seat is; with something to deal and a start seat that
    is no seat, the first [push] throws. *)
Theorem dealToPlayers_edges (deck : list Card) (players startSeat each : nat) :
  ((players * each)%nat = 0%nat →
   dealToPlayers deck players startSeat each = Some (replicate players []))
  ∧ ((0 < players * each)%nat → (players ≤ startSeat)%nat →
     dealToPlayers deck players startSeat each = None).
Proof.
  unfold dealToPlayers. split.
  - by intros ->.
  - intros Hpos Hstart. destruct (players * each)%nat as [|n]; [lia|]. simpl.
    rewrite (proj1 (lookup_replicate_None _ _ _)) by lia. done.
Qed.

Lemma dealToPlayers_edges_witness :
  dealToPlayers (buildDecksNoTwos One) 4 9 0 = Some [[]; []; []; []]
  ∧ dealToPlayers (buildDecksNoTwos One) 4 4 12 = None.
Proof.
  split.
  - apply (proj1 (dealToPlayers_edges (buildDecksNoTwos One) 4 9 0)). reflexivity.
  - apply (proj2 (dealToPlayers_edges (buildDecksNoTwos One) 4 4 12)); lia.
Defined.

Lemma as_entries_lookup (raw : list (list Card)) (s : nat) :
  as_entries raw !! s = fmap (M := list) Some <$> raw !! s.
Proof. unfold as_entries. apply list_lookup_fmap. Qed.

Lemma as_entries_insert (raw : list (list Card)) (s : nat) (hand : list Card) :
  as_entries (<[s := hand]> raw) = <[s := Some <$> hand]> (as_entries raw).
Proof. unfold as_entries. apply list_fmap_insert. Qed.

(** The dealing loop of [planDeal] is the loop of [dealToPlayers] as long
    as the deck has a card for every turn. *)
Lemma deal_loop_dealToPlayers (deck : list Card) (p n : nat) :
  ∀ i (raw : list (list Card)) seat,
    (i + n ≤ length deck)%nat →
    for_loop (dealToPlayers_step deck p) i n (as_entries raw, seat)
    = (λ st : list (list Card) * nat, (as_entries st.1, st.2))
        <$> for_loop (deal_step deck p) i n (raw, seat).
Proof.
  induction n as [|n IH]; intros i raw seat Hi; simpl; [done|].
  rewrite as_entries_lookup.
  destruct (raw !! seat) as [hand|]; simpl; [|done].
  destruct (lookup_lt_is_Some_2 deck i) as [c Hc]; [lia|]. rewrite Hc. simpl.
  rewrite <- IH by lia. do 2 f_equal.
  by rewrite as_entries_insert, fmap_app.
Qed.

Lemma deal_dealToPlayers (deck : list Card) (players each leaderSeat : nat) :
  (players * each ≤ length deck)%nat →
  dealToPlayers deck players leaderSeat each
  = as_entries <$> deal deck players each leaderSeat.
Proof.
  intros Hdeck. unfold dealToPlayers, deal.
  pose proof (deal_loop_dealToPlayers deck players (players * each) 0
                (replicate players []) leaderSeat Hdeck) as Hsim.
  assert (Hnil : as_entries (replicate players []) = replicate players [])
    by (unfold as_entries; by rewrite fmap_replicate).
  rewrite Hnil in Hsim. rewrite Hsim.
  destruct (for_loop (deal_step deck players) 0 (players * each)
              (replicate players [], leaderSeat)) as [[raw seat]|];
    reflexivity.
Qed.

Section DealOrder.
Variable seedrandom : string → nat → Q.

(** X5. [planDeal] deals like [dealToPlayers] from the leader's seat: in
    the plan it returns, the visible cards of a seat with its hidden card
    are the cards of the shuffled deck at the positions of the seat's turns:
    the leader gets the first card, the seat after it the second, and the
    hider's hidden card is one of the hider's turns. *)
Theorem planDeal_round_robin (players : nat) (deckCount : DeckCount)
    (hiderSeat leaderSeat : nat) (seed : string) (random : Q) :
  (hiderSeat < players)%nat → (leaderSeat < players)%nat →
  (players ≤ length (buildDecksNoTwos deckCount))%nat →
  unit_interval random →
  let deck := shuffle seedrandom (buildDecksNoTwos deckCount) seed in
  let each := cardsPerPlayer players deckCount in
  ∃ plan,
    planDeal seedrandom players deckCount hiderSeat leaderSeat seed random
    = Some plan
    ∧ ∀ s hand, dp_hands plan !! s = Some hand →
        Some <$> (visible hand ++ option_list (hidden hand))
        ≡ₚ round_robin_hand deck players leaderSeat each s.
Proof.
  intros Hhider Hleader Hplayers Hrandom deck each.
  destruct (planDeal_Some seedrandom players deckCount hiderSeat leaderSeat
              seed random Hhider Hleader Hplayers Hrandom)
    as (raw & hiderHand & h & Hdeal & Hlen & _ & _ & Hhand & Hh & Hplan).
  fold deck each in Hdeal.
  assert (Hdeck : (players * each ≤ length deck)%nat).
  { unfold deck. erewrite Permutation_length by apply shuffle_loop_Permutation.
    apply deal_within_deck. }
  pose proof (deal_dealToPlayers deck players each leaderSeat Hdeck) as Hsame.
  rewrite Hdeal, (dealToPlayers_hands deck players leaderSeat each Hleader)
    in Hsame.
  simpl in Hsame. injection Hsame as Hsame.
  assert (Hraw : ∀ s dealt, raw !! s = Some dealt →
            Some <$> dealt = round_robin_hand deck players leaderSeat each s).
  { intros s dealt Hs. apply (f_equal (λ l, l !! s)) in Hsame.
    rewrite as_entries_lookup, list_lookup_fmap, Hs in Hsame.
    rewrite lookup_seq_lt in Hsame by (rewrite <- Hlen; by eapply lookup_lt_Some).
    simpl in Hsame. by injection Hsame as <-. }
  eexists. split; [exact Hplan|]. intros s hand Hs. simpl in Hs.
  destruct (plan_hands_lookup _ _ _ _ _ _ _ Hhand Hs)
    as [[-> ->]|[Hne (dealt & Hdealt & ->)]]; simpl.
  - rewrite <- (Hraw _ _ Hhand). apply fmap_Permutation.
    rewrite (js_sort_Permutation sortBySuitRank), (comm (++)). simpl.
    symmetry. by apply delete_Permutation.
  - rewrite <- (Hraw _ _ Hdealt). apply fmap_Permutation.
    by rewrite (js_sort_Permutation sortBySuitRank), app_nil_r.
Qed.
End DealOrder.

Lemma planDeal_round_robin_witness :
  ∃ plan,
    planDeal demo_seedrandom 4 One 0 1 "seed" 0 = Some plan
    ∧ ∀ s hand, dp_hands plan !! s = Some hand →
        Some <$> (visible hand ++ option_list (hidden hand))
        ≡ₚ round_robin_hand
             (shuffle demo_seedrandom (buildDecksNoTwos One) "seed") 4 1
             (cardsPerPlayer 4 One) s.
Proof.
  apply (planDeal_round_robin demo_seedrandom 4 One 0 1 "seed" 0).
  - lia.
  - lia.
  - vm_compute. lia.
  - apply unit_interval_0.
Defined.

(* ===================================================================== *)
(** ** The rotation of the hider *)
(* ===================================================================== *)

Lemma js_rem_nonneg (a : Z) (b : nat) :
  0 <= a → (0 < b)%nat → js_rem a b = Some (a `mod` Z.of_nat b).
Proof.
  intros Ha Hb. unfold js_rem. rewrite decide_False by lia.
  by rewrite Z.rem_mod_nonneg by lia.
Qed.

(** X6. For a positive player count and a previous hider that is not set or
    not negative, [computeHiderAndLeader] returns two seats of the table:
    the hider is seat 0 on the first hand and the seat after the previous
    hider otherwise, and the leader is the seat after the hider, both
    counted around the table. With no player both seats after a previous
    hider are [NaN]. *)
Theorem computeHiderAndLeader_seats (prev : option Z) (players : nat)
    (hostIsSeat0 : bool) :
  ((0 < players)%nat → (∀ h, prev = Some h → 0 <= h) →
   ∃ hd ld,
     computeHiderAndLeader prev players hostIsSeat0
     = mkHiderLeader (Some hd) (Some ld)
     ∧ 0 <= hd < Z.of_nat players
     ∧ 0 <= ld < Z.of_nat players
     ∧ hd = match prev with
            | None => 0
            | Some h => (h + 1) `mod` Z.of_nat players
            end
     ∧ ld = (hd + 1) `mod` Z.of_nat players)
  ∧ (players = 0%nat → is_Some prev →
     computeHiderAndLeader prev players hostIsSeat0 = mkHiderLeader None None).
Proof.
  split.
  - intros Hpos Hprev. unfold computeHiderAndLeader.
    set (hd := match prev with
               | None => 0
               | Some h => (h + 1) `mod` Z.of_nat players
               end).
    assert (Hhd : 0 <= hd < Z.of_nat players).
    { unfold hd. destruct prev as [h|]; [|lia]. apply Z.mod_pos_bound. lia. }
    assert (Hhider : match prev with
                     | None => Some (if hostIsSeat0 then 0 else 0)
                     | Some prev => js_rem (prev + 1) players
                     end = Some hd).
    { unfold hd. destruct prev as [h|].
      - apply js_rem_nonneg; [|done]. specialize (Hprev h eq_refl). lia.
      - by destruct hostIsSeat0. }
    rewrite Hhider. simpl. rewrite js_rem_nonneg by lia.
    exists hd, ((hd + 1) `mod` Z.of_nat players).
    split; [done|]. split; [done|]. split; [|done].
    apply Z.mod_pos_bound. lia.
  - intros -> [h ->]. reflexivity.
Qed.

Lemma computeHiderAndLeader_seats_witness :
  computeHiderAndLeader (Some 3) 4 true = mkHiderLeader (Some 0) (Some 1)
  ∧ computeHiderAndLeader (Some 3) 0 true = mkHiderLeader None None.
Proof.
  split.
  - destruct (proj1 (computeHiderAndLeader_seats (Some 3) 4 true))
      as (hd & ld & Heq & _ & _ & -> & ->).
    + lia.
    + intros h Hh. injection Hh as <-. lia.
    + exact Heq.
  - apply (proj2 (computeHiderAndLeader_seats (Some 3) 0 true)).
    + reflexivity.
    + by eexists.
Defined.

Lemma hider_after_S (players n : nat) (prev : option Z) :
  hider_after players (S n) prev
  = hl_hider (computeHiderAndLeader (hider_after players n prev) players true).
Proof. reflexivity. Qed.

(** X7. The hider goes round the table: after [n] more hands the hider of
    a table of [players] seats has moved [n] seats on. It is back at the
    same seat after [players] hands and at no hand before. *)
Theorem hider_rotation (players : nat) (h : Z) :
  0 <= h < Z.of_nat players →
  (∀ n, hider_after players n (Some h)
        = Some ((h + Z.of_nat n) `mod` Z.of_nat players))
  ∧ hider_after players players (Some h) = Some h
  ∧ ∀ n, (0 < n < players)%nat → hider_after players n (Some h) ≠ Some h.
Proof.
  intros Hh.
  assert (Hiter : ∀ n, hider_after players n (Some h)
                       = Some ((h + Z.of_nat n) `mod` Z.of_nat players)).
  { induction n as [|n IH].
    - simpl. by rewrite Z.add_0_r, Z.mod_small.
    - rewrite hider_after_S, IH. unfold computeHiderAndLeader. simpl.
      rewrite js_rem_nonneg by (try apply Z.add_nonneg_nonneg;
                                try apply Z.mod_pos_bound; lia).
      f_equal. rewrite Z.add_mod_idemp_l by lia. f_equal. lia. }
  split; [done|]. split.
  - rewrite Hiter. f_equal.
    replace (h + Z.of_nat players) with (h + 1 * Z.of_nat players) by lia.
    rewrite Z.mod_add by lia. by apply Z.mod_small.
  - intros n Hn. rewrite Hiter. intros [= Heq].
    destruct (decide (h + Z.of_nat n < Z.of_nat players)).
    + rewrite Z.mod_small in Heq by lia. lia.
    + replace (h + Z.of_nat n)
        with ((h + Z.of_nat n - Z.of_nat players) + 1 * Z.of_nat players)
        in Heq by lia.
      rewrite Z.mod_add, Z.mod_small in Heq by lia. lia.
Qed.

Lemma hider_rotation_witness :
  hider_after 6 6 (Some 2) = Some 2 ∧ hider_after 6 3 (Some 2) ≠ Some 2.
Proof.
  destruct (hider_rotation 6 2) as (_ & Hback & Hnot).
  - lia.
  - split; [exact Hback|]. apply Hnot. lia.
Defined.

(* ===================================================================== *)
(** ** The legal plays *)
(* ===================================================================== *)

(** X8. [legalPlays] keeps the order of the hand and returns a card of the
    hand exactly when the card may be played: always when no suit is led or
    the hand is void in the led suit, and only for a card of the led suit
    when the hand holds one. It returns no card only for an empty hand.
    [legalToPlay] is the same function. *)
Theorem legalPlays_follow_suit (hand : list Card) (ledSuit : option Suit) :
  legalPlays hand ledSuit `sublist_of` hand
  ∧ (∀ c, c ∈ legalPlays hand ledSuit
          ↔ c ∈ hand
            ∧ ∀ l, ledSuit = Some l → (∃ x, x ∈ hand ∧ cardSuit x = l) →
                   cardSuit c = l)
  ∧ (legalPlays hand ledSuit = [] ↔ hand = [])
  ∧ legalToPlay hand ledSuit = legalPlays hand ledSuit.
Proof.
  unfold legalToPlay, legalPlays. destruct ledSuit as [l|].
  2: { split; [done|]. split; [|done]. intros c. split; [|by intros [? _]].
       intros Hc. split; [done|]. by intros l [=]. }
  case_decide as Hlen.
  - assert (Hex : ∃ x, x ∈ hand ∧ cardSuit x = l).
    { destruct (filter (λ c, cardSuit c = l) hand) as [|x rest] eqn:E; [done|].
      exists x. apply and_comm, (list_elem_of_filter (λ c, cardSuit c = l)).
      rewrite E. left. }
    split; [apply sublist_filter|]. split; [|split; [|done]].
    + intros c. rewrite list_elem_of_filter. split.
      * intros [Hsuit Hc]. split; [done|]. by intros l' [= <-] _.
      * intros [Hc Hsuit]. split; [|done]. by apply (Hsuit l).
    + split.
      * intros Hnil. by rewrite Hnil in Hlen.
      * intros ->. done.
  - apply length_zero_iff_nil in Hlen.
    split; [done|]. split; [|done]. intros c. split; [|by intros [? _]].
    intros Hc. split; [done|]. intros l' [= <-] (x & Hx & Hsuit).
    exfalso. eapply (filter_nil_not_elem_of (λ c, cardSuit c = l)); done.
Qed.

(* ===================================================================== *)
(** ** The end of a hand and the unlocking of the hidden card *)
(* ===================================================================== *)

Lemma handFinished_true (hands : list HandDoc) :
  handFinished hands = true
  ↔ ∀ h, h ∈ hands → visible h = [] ∧ hidden h = None.
Proof.
  unfold handFinished. rewrite forallb_forall. split.
  - intros Hall h Hh. apply list_elem_of_In, Hall in Hh.
    apply andb_prop in Hh as [Hv Hhid].
    apply bool_decide_eq_true in Hv, Hhid.
    split; [by apply length_zero_iff_nil|done].
  - intros Hall h Hh. apply list_elem_of_In, Hall in Hh as [-> ->]. done.
Qed.

Section FreshDeal.
Variable seedrandom : string → nat → Q.

(** X9. [handFinished] holds exactly when every hand has no visible card
    and no hidden card; the hands of a plan that [planDeal] returns are not
    finished: the hider's hand holds the hidden card. *)
Theorem handFinished_not_after_deal (players : nat) (deckCount : DeckCount)
    (hiderSeat leaderSeat : nat) (seed : string) (random : Q) (plan : DealPlan) :
  planDeal seedrandom players deckCount hiderSeat leaderSeat seed random
  = Some plan →
  handFinished (dp_hands plan) = false
  ∧ ∀ hands, handFinished hands = true
             ↔ ∀ h, h ∈ hands → visible h = [] ∧ hidden h = None.
Proof.
  intros (raw & hiderHand & h & _ & Hhand & _ & ->)%planDeal_inv.
  split; [|apply handFinished_true]. simpl.
  apply not_true_is_false. intros Hfin.
  assert (Hin : mkHand (js_sort sortBySuitRank
                          (delete (floor_mul random (length hiderHand)) hiderHand))
                  (Some h)
                ∈ plan_hands raw hiderSeat hiderHand
                    (floor_mul random (length hiderHand)) h).
  { apply list_elem_of_lookup. exists hiderSeat. unfold plan_hands.
    rewrite list_lookup_imap, list_lookup_insert_eq
      by (by eapply lookup_lt_Some).
    simpl. by rewrite decide_True. }
  by destruct (proj1 (handFinished_true _) Hfin _ Hin) as [_ ?].
Qed.
End FreshDeal.

Lemma handFinished_not_after_deal_witness :
  ∃ plan,
    planDeal demo_seedrandom 4 One 0 1 "seed" 0 = Some plan
    ∧ handFinished (dp_hands plan) = false.
Proof.
  eexists. split; [vm_compute; reflexivity|].
  refine (proj1 (handFinished_not_after_deal demo_seedrandom 4 One 0 1 "seed" 0
                   _ _)).
  vm_compute. reflexivity.
Defined.

(** X10. [applyRevealOnHand] always leaves the hidden slot empty and is
    idempotent. When the hidden card is the one played, the visible cards
    are untouched; otherwise the visible cards afterwards are the visible
    cards before together with the hidden card, in display order when a
    card was unlocked, and the hand is unchanged when there was no hidden
    card. The played card is removed in no case. *)
Theorem applyRevealOnHand_unlocks (h : HandDoc) (usingHidden : bool)
    (played : option Card) :
  let h' := applyRevealOnHand h usingHidden played in
  hidden h' = None
  ∧ (∀ b p, applyRevealOnHand h' b p = h')
  ∧ (usingHidden = true → visible h' = visible h)
  ∧ (usingHidden = false →
     visible h' ≡ₚ visible h ++ option_list (hidden h)
     ∧ (is_Some (hidden h) → StronglySorted display_le (visible h'))
     ∧ (hidden h = None → h' = h)).
Proof.
  unfold applyRevealOnHand. destruct h as [vis [c|]], usingHidden; simpl.
  - split; [done|]. split; [by intros [] p|]. done.
  - split; [done|]. split; [by intros [] p|]. split; [done|]. intros _.
    split; [apply js_sort_Permutation|]. split; [|done].
    intros _. apply js_sort_display_sorted.
  - split; [done|]. split; [by intros [] p|]. done.
  - split; [done|]. split; [by intros [] p|]. split; [done|]. intros _.
    split; [by rewrite app_nil_r|]. split; [by intros [? ?]|done].
Qed.

Lemma applyRevealOnHand_unlocks_witness :
  visible (applyRevealOnHand
             (mkHand [mkCard R5 H_; mkCard RA H_] (Some (mkCard R7 C_)))
             false (Some (mkCard R5 H_)))
  ≡ₚ [mkCard R5 H_; mkCard RA H_; mkCard R7 C_].
Proof.
  destruct (applyRevealOnHand_unlocks
              (mkHand [mkCard R5 H_; mkCard RA H_] (Some (mkCard R7 C_)))
              false (Some (mkCard R5 H_))) as (_ & _ & _ & Hfalse).
  destruct Hfalse as (Hperm & _ & _); [reflexivity|]. exact Hperm.
Defined.

(* ===================================================================== *)
(** ** The two transactions in full *)
(* ===================================================================== *)

(** Every committed [playCard]. *)
Lemma playCard_inv (c : Client) (db db' : Db) (played : Card) :
  playCard c db played = Committed db' →
  ∃ u st room hand ss,
    on_turn c u st
    ∧ db_room db = Some room ∧ db_hands db !! u = Some hand
    ∧ played ∈ visible hand
    ∧ seats room = Some ss
    ∧ let newPlays := plays room ++ [play_of st room u played] in
      let led := led_after room played in
      let hands' := <[u := hand_after_play hand played]> (db_hands db) in
      (length newPlays ≠ length ss
       ∧ db' = mkDb (Some (room_after_play room ss led newPlays)) hands')
      ∨ (length newPlays = length ss
         ∧ ∃ win tens',
             credit_trick room newPlays led
               (if trumpRevealed room then trumpSuit room else None)
             = Some (win, tens')
             ∧ db' = mkDb (Some (room_after_trick room win tens')) hands').
Proof.
  unfold playCard. intros Hplay.
  destruct (truthy (roomId c)) as [r|] eqn:Hr; simpl in Hplay; [|done].
  destruct (truthy (uid c)) as [u|] eqn:Hu; [|done].
  destruct (state c) as [st|] eqn:Hst; [|done].
  destruct (myHand c) as [mine|] eqn:Hmine; [|done].
  case_decide as Hturn; [done|].
  destruct (db_room db) as [room|] eqn:Hroom; [|done].
  destruct (db_hands db !! u) as [hand|] eqn:Hhand; [|done].
  destruct (indexOf (visible hand) played <? 0) eqn:Hidx; [done|].
  apply Z.ltb_ge, indexOf_nonneg in Hidx.
  destruct (seats room) as [ss|] eqn:Hss; [|done].
  assert (Hon : on_turn c u st).
  { unfold on_turn. rewrite Hr, Hmine. eauto 10. }
  exists u, st, room, hand, ss. repeat (split; [done|]).
  case_decide as Hn.
  - right. split; [done|].
    destruct (credit_trick _ _ _ _) as [[win tens']|] eqn:Hcredit; [|done].
    exists win, tens'. split; [done|]. injection Hplay as <-.
    unfold room_after_trick. by rewrite Hss.
  - left. split; [done|]. injection Hplay as <-.
    unfold room_after_play. by rewrite Hss.
Qed.

(** Every committed [revealTrumpAndPlay]. *)
Lemma revealTrumpAndPlay_inv (c : Client) (db db' : Db) (useHiddenIfOnly : bool) :
  revealTrumpAndPlay c db useHiddenIfOnly = Committed db' →
  ∃ u room hand ss played usingHidden,
    truthy (uid c) = Some u
    ∧ db_room db = Some room ∧ db_hands db !! u = Some hand
    ∧ seats room = Some ss
    ∧ currentTurnSeat room = Some (indexOf ss u)
    ∧ ((usingHidden = false
        ∧ last (js_sort default_cmp (visible_trumps room hand)) = Some played)
       ∨ (usingHidden = true ∧ useHiddenIfOnly = true
          ∧ visible_trumps room hand = []
          ∧ hidden hand = Some played
          ∧ Some (cardSuit played) = trumpSuit room))
    ∧ let mySeat := indexOf ss u in
      let newPlays :=
        plays room ++ [mkPlay mySeat played (Z.of_nat (length (plays room)))] in
      let led := match ledSuit room with
                 | Some l => Some l
                 | None => cardSuit ∘ card <$> head newPlays
                 end in
      let hands' := <[u := hand_after_reveal hand played usingHidden]> (db_hands db) in
      (length newPlays ≠ length ss
       ∧ db' = mkDb (Some (room_after_reveal room ss mySeat led newPlays)) hands')
      ∨ (length newPlays = length ss
         ∧ ∃ win tens',
             credit_trick room newPlays led (trumpSuit room) = Some (win, tens')
             ∧ db' = mkDb (Some (room_after_reveal_trick room mySeat win tens'))
                       hands').
Proof.
  unfold revealTrumpAndPlay. intros Hrev.
  destruct (truthy (roomId c)) as [r|]; simpl in Hrev; [|done].
  destruct (truthy (uid c)) as [u|] eqn:Hu; [|done].
  destruct (state c) as [st|]; [|done].
  destruct (myHand c) as [mine|]; [|done].
  destruct (ledSuit st) as [led|]; [|done].
  destruct (trumpRevealed st); [done|].
  destruct (existsb _ _); [done|].
  destruct (db_room db) as [room|] eqn:Hroom; [|done].
  destruct (seats room) as [ss|] eqn:Hss; [|done].
  case_decide as Hturn; [done|].
  destruct (db_hands db !! u) as [hand|] eqn:Hhand; [|done].
  fold (visible_trumps room hand) in Hrev.
  case_decide as Hlen.
  - destruct (last (js_sort default_cmp (visible_trumps room hand)))
      as [x|] eqn:Hlast; [|done].
    exists u, room, hand, ss, x, false. repeat (split; [done|]).
    split; [by left|]. simpl in Hrev. unfold hand_after_reveal.
    assert (Hvis : (match hidden hand with
                    | Some h => remove_first x (visible hand) ++ [h]
                    | None => remove_first x (visible hand)
                    end) = remove_first x (visible hand) ++ option_list (hidden hand)).
    { destruct (hidden hand); simpl; by rewrite ?app_nil_r. }
    rewrite Hvis in Hrev. case_decide as Hn.
    + right. split; [done|].
      destruct (credit_trick _ _ _ _) as [[win tens']|] eqn:Hcredit; [|done].
      exists win, tens'. split; [done|]. injection Hrev as <-.
      unfold room_after_reveal_trick. by rewrite Hss.
    + left. split; [done|]. injection Hrev as <-.
      unfold room_after_reveal. by rewrite Hss.
  - apply length_zero_iff_nil in Hlen.
    destruct (hidden hand) as [h|] eqn:Hh; [|done].
    case_decide as Hsuit; [|done].
    destruct useHiddenIfOnly; [|done].
    exists u, room, hand, ss, h, true. repeat (split; [done|]).
    split; [by right|]. simpl in Hrev. unfold hand_after_reveal.
    case_decide as Hn.
    + right. split; [done|].
      destruct (credit_trick _ _ _ _) as [[win tens']|] eqn:Hcredit; [|done].
      exists win, tens'. split; [done|]. injection Hrev as <-.
      unfold room_after_reveal_trick. by rewrite Hss.
    + left. split; [done|]. injection Hrev as <-.
      unfold room_after_reveal. by rewrite Hss.
Qed.

(* ===================================================================== *)
(** ** The reveal buttons *)
(* ===================================================================== *)

(** X11. The flag [canReveal] that shows the reveal buttons is
    [canRevealTrump] on the screen's snapshots, and for a ready screen
    [revealTrumpAndPlay] returns before its transaction exactly when
    [canRevealTrump] is false there: behind a shown button the call reaches
    the transaction, which commits or throws. *)
Theorem reveal_gate_is_canRevealTrump (c : Client) (db : Db)
    (useHiddenIfOnly : bool) (st : RoomState) (mine : HandDoc) :
  is_Some (truthy (roomId c)) → is_Some (truthy (uid c)) →
  state c = Some st → myHand c = Some mine →
  screen_canReveal st (Some mine)
  = canRevealTrump (visible mine) (hidden mine) (ledSuit st) (trumpRevealed st)
  ∧ (revealTrumpAndPlay c db useHiddenIfOnly = Returned
     ↔ canRevealTrump (visible mine) (hidden mine) (ledSuit st)
         (trumpRevealed st) = false).
Proof.
  intros [r Hr] [u Hu] Hst Hmine. split.
  - unfold screen_canReveal, canRevealTrump.
    destruct (trumpRevealed st), (ledSuit st) as [l|]; simpl; try done;
      by destruct (existsb _ _).
  - unfold revealTrumpAndPlay, canRevealTrump. rewrite Hr, Hu, Hst, Hmine.
    cbn [mbind option_bind].
    destruct (ledSuit st) as [l|]; [|by destruct (trumpRevealed st)].
    destruct (trumpRevealed st); [done|].
    rewrite existsb_legalPlays. destruct (existsb _ (visible mine)); [done|].
    split; [|done]. intros Hret. exfalso. revert Hret.
    repeat case_match; done.
Qed.

Lemma reveal_gate_is_canRevealTrump_witness :
  revealTrumpAndPlay (screen_of "u2" demo_following) demo_following false
  = Returned.
Proof.
  apply (reveal_gate_is_canRevealTrump (screen_of "u2" demo_following)
           demo_following false demo_room
           (mkHand [mkCard R9 S_; mkCard RA H_; mkCard R4 C_] None)).
  - by eexists.
  - by eexists.
  - reflexivity.
  - reflexivity.
  - reflexivity.
Defined.

(* ===================================================================== *)
(** ** What a play changes *)
(* ===================================================================== *)

Lemma remove_first_length {T} `{EqDecision T} (l : list T) (x : T) :
  x ∈ l → S (length (remove_first x l)) = length l.
Proof.
  intros Hx. apply remove_first_Permutation, Permutation_length in Hx. done.
Qed.

Lemma evaluateTrickWinner_elem_of (plays : list Play)
    (ledSuit trumpSuit : option Suit) (w : Play) :
  evaluateTrickWinner plays ledSuit trumpSuit = Some w → w ∈ plays.
Proof.
  destruct (evaluateTrickWinner_last_of_suit plays ledSuit trumpSuit)
    as (s & -> & _).
  intros Hlast%last_elem_of%js_sort_elem_of.
  by apply list_elem_of_filter in Hlast as [_ ?].
Qed.

Lemma credit_trick_inv (room : RoomState) (newPlays : list Play)
    (led trump : option Suit) (win : Play) (tens' : gmap string Z) :
  credit_trick room newPlays led trump = Some (win, tens') →
  ∃ tm,
    teamMap room = Some tm
    ∧ evaluateTrickWinner newPlays led trump = Some win
    ∧ let team := default "undefined"%string (lookupZ tm (seat win)) in
      tens' = <[team := default 0 (tensByTeam room !! team)
                        + Z.of_nat (length (filter (λ p, cardRank (card p) = RT)
                                              newPlays))]>
                (tensByTeam room).
Proof.
  unfold credit_trick. intros Hcredit.
  destruct (evaluateTrickWinner newPlays led trump) as [w|]; [|done].
  simpl in Hcredit. destruct (teamMap room) as [tm|]; [|done].
  simpl in Hcredit. injection Hcredit as <- <-. by exists tm.
Qed.

(** X12. A committed [playCard] is made by the seat at turn on the screen's
    snapshot with a card of the stored hand. It takes exactly that card
    (one copy of it) out of the visible hand, keeps the hidden slot, and
    writes no other hand. In the room either the play is added at the end
    of the trick, numbered with its position, and the turn passes on, with
    the trick number and the tens as they were; or the trick is emptied,
    the led suit unset, the trick number raised by one and the turn given
    to the seat of one of the plays of the trick. *)
Theorem playCard_plays_one_card (c : Client) (db db' : Db) (played : Card) :
  playCard c db played = Committed db' →
  ∃ u st room hand ss room' hand',
    on_turn c u st
    ∧ db_room db = Some room ∧ db_hands db !! u = Some hand
    ∧ seats room = Some ss
    ∧ db_room db' = Some room' ∧ db_hands db' !! u = Some hand'
    ∧ played :: visible hand' ≡ₚ visible hand
    ∧ S (length (visible hand')) = length (visible hand)
    ∧ hidden hand' = hidden hand
    ∧ (∀ v, v ≠ u → db_hands db' !! v = db_hands db !! v)
    ∧ ((S (length (plays room)) ≠ length ss
        ∧ plays room' = plays room ++ [play_of st room u played]
        ∧ currentTurnSeat room' = next_seat (currentTurnSeat room) (length ss)
        ∧ trickIndex room' = trickIndex room
        ∧ tensByTeam room' = tensByTeam room)
       ∨ (S (length (plays room)) = length ss
          ∧ plays room' = [] ∧ ledSuit room' = None
          ∧ trickIndex room' = trickIndex room + 1
          ∧ ∃ win, win ∈ plays room ++ [play_of st room u played]
                   ∧ currentTurnSeat room' = Some (seat win))).
Proof.
  intros (u & st & room & hand & ss & Hon & Hroom & Hhand & Hin & Hss & Hcase)
    %playCard_inv.
  assert (Hlen : ∀ p : Play, length (plays room ++ [p]) = S (length (plays room)))
    by (intros p; rewrite length_app; simpl; lia).
  assert (Hhands : ∀ room',
            db' = mkDb (Some room')
                    (<[u := hand_after_play hand played]> (db_hands db)) →
            db_room db' = Some room'
            ∧ db_hands db' !! u = Some (hand_after_play hand played)
            ∧ ∀ v, v ≠ u → db_hands db' !! v = db_hands db !! v).
  { intros room' ->. simpl. split; [done|]. split; [by rewrite lookup_insert_eq|].
    intros v Hv. by rewrite lookup_insert_ne. }
  cbv zeta in Hcase. rewrite Hlen in Hcase.
  destruct Hcase as [[Hn Hdb]|(Hn & win & tens' & Hcredit & Hdb)];
    destruct (Hhands _ Hdb) as (Hroom' & Hhand' & Hothers).
  - eexists u, st, room, hand, ss, _, _. repeat (split; [done|]).
    split; [by apply remove_first_Permutation|].
    split; [by apply remove_first_length|]. split; [done|]. split; [done|].
    left. done.
  - eexists u, st, room, hand, ss, _, _. repeat (split; [done|]).
    split; [by apply remove_first_Permutation|].
    split; [by apply remove_first_length|]. split; [done|]. split; [done|].
    right. repeat (split; [done|]). exists win. split; [|done].
    apply credit_trick_inv in Hcredit as (tm & _ & Hwin & _).
    by eapply evaluateTrickWinner_elem_of.
Qed.

Lemma playCard_plays_one_card_witness :
  ∃ hand',
    mkCard R9 S_ :: visible hand'
    ≡ₚ [mkCard R9 S_; mkCard RA H_; mkCard R4 C_].
Proof.
  destruct (playCard_plays_one_card (screen_of "u2" demo_following)
              demo_following
              (mkDb
                 (Some (room_after_play demo_room ["u0"; "u1"; "u2"; "u3"]%string
                          (Some S_)
                          [mkPlay 1 (mkCard RK S_) 0; mkPlay 2 (mkCard R9 S_) 1]))
                 (<["u2"%string := mkHand [mkCard RA H_; mkCard R4 C_] None]>
                    (db_hands demo_following)))
              (mkCard R9 S_))
    as (u & st & room & hand & ss & room' & hand' & Hon & _ & Hhand & _ & _ & _
        & Hperm & _).
  - vm_compute. reflexivity.
  - exists hand'. destruct Hon as (_ & Hu & _). injection Hu as <-.
    vm_compute in Hhand. injection Hhand as <-. exact Hperm.
Defined.

(** X13. When a play completes the trick, the winner is the play that
    [evaluateTrickWinner] picks among the plays of the trick with the new
    one, with the trump suit only if trump is revealed; the winner's seat
    has the next turn; the number of tens in the trick is added to the count
    of the team of the winner's seat, and the count of no other team
    changes. *)
Theorem playCard_completes_trick (c : Client) (db db' : Db) (played : Card)
    (room : RoomState) (ss : list string) :
  playCard c db played = Committed db' →
  db_room db = Some room → seats room = Some ss →
  S (length (plays room)) = length ss →
  ∃ u st room' win tm,
    on_turn c u st
    ∧ db_room db' = Some room'
    ∧ teamMap room = Some tm
    ∧ let newPlays := plays room ++ [play_of st room u played] in
      let team := default "undefined"%string (lookupZ tm (seat win)) in
      let tens := length (filter (λ p, cardRank (card p) = RT) newPlays) in
      evaluateTrickWinner newPlays (led_after room played)
        (if trumpRevealed room then trumpSuit room else None) = Some win
      ∧ currentTurnSeat room' = Some (seat win)
      ∧ tensByTeam room' !! team
        = Some (default 0 (tensByTeam room !! team) + Z.of_nat tens)
      ∧ ∀ t, t ≠ team → tensByTeam room' !! t = tensByTeam room !! t.
Proof.
  intros (u & st & room0 & hand & ss0 & Hon & Hroom & Hhand & Hin & Hss & Hcase)
    %playCard_inv Hroom0 Hss0 Hfull.
  assert (room0 = room) as -> by congruence.
  assert (ss0 = ss) as -> by congruence.
  cbv zeta in Hcase. rewrite length_app in Hcase. simpl in Hcase.
  destruct Hcase as [[Hn _]|(_ & win & tens' & Hcredit & ->)]; [lia|].
  apply credit_trick_inv in Hcredit as (tm & Htm & Hwin & ->).
  eexists u, st, _, win, tm.
  split; [done|]. split; [reflexivity|]. split; [done|]. simpl.
  split; [done|]. split; [done|]. split; [by rewrite lookup_insert_eq|].
  intros t Ht. by rewrite lookup_insert_ne.
Qed.

Lemma playCard_completes_trick_witness :
  ∃ room', currentTurnSeat room' = Some 1
           ∧ tensByTeam room' !! "B"%string = Some 1.
Proof.
  destruct (playCard_completes_trick (screen_of "u3" demo_last_play)
              demo_last_play
              (mkDb
                 (Some (mkRoom (Some ["u0"; "u1"; "u2"; "u3"]%string)
                          (Some ["A"; "B"; "A"; "B"]%string) (Some 0) (Some H_)
                          false None (Some 1) None [] 1 (<["B"%string := 1]> ∅)))
                 (<["u3"%string := mkHand [mkCard R4 D_] None]> ∅))
              (mkCard R9 S_)
              (mkRoom (Some ["u0"; "u1"; "u2"; "u3"]%string)
                 (Some ["A"; "B"; "A"; "B"]%string) (Some 0) (Some H_) false None
                 (Some 3) (Some S_)
                 [mkPlay 0 (mkCard RT S_) 0; mkPlay 1 (mkCard RK S_) 1;
                  mkPlay 2 (mkCard RA H_) 2] 0 ∅)
              ["u0"; "u1"; "u2"; "u3"]%string)
    as (u & st & room' & win & tm & Hon & _ & Htm & Hwin & Hturn & Htens & _).
  - vm_compute. reflexivity.
  - reflexivity.
  - reflexivity.
  - reflexivity.
  - exists room'. destruct Hon as (_ & Hu & Hst & _).
    injection Hu as <-. injection Hst as <-. injection Htm as <-.
    vm_compute in Hwin. injection Hwin as <-.
    split; [exact Hturn|exact Htens].
Defined.

(* ===================================================================== *)
(** ** The trick stays in order *)
(* ===================================================================== *)

Lemma trick_wf_snoc (room : RoomState) (p : Play) (led : option Suit) :
  trick_wf room → order p = Z.of_nat (length (plays room)) →
  led = match plays room with
        | [] => Some (suit_of p)
        | q :: _ => Some (suit_of q)
        end →
  match plays room ++ [p] with
  | [] => led = None
  | q :: _ => led = Some (suit_of q)
  end
  ∧ ∀ k q, (plays room ++ [p]) !! k = Some q → order q = Z.of_nat k.
Proof.
  intros (_ & _ & Hord) Hp ->. split; [by destruct (plays room)|].
  intros k q Hk. apply lookup_app_Some in Hk as [Hk|[Hlen Hk]].
  - by apply Hord.
  - apply list_lookup_singleton_Some in Hk as [Hk <-].
    rewrite Hp. f_equal. lia.
Qed.

(** X14. Every committed play or reveal keeps the trick of the stored room
    in order (not full, led suit the suit of the first play and unset for
    an empty trick, plays numbered from 0). It changes neither the seats,
    nor the team map, nor the trump suit, nor the hider seat, and it never
    takes back that trump is revealed. *)
Theorem game_step_keeps_trick_in_order (db db' : Db) (room : RoomState) :
  game_step db db' → db_room db = Some room → trick_wf room →
  ∃ room',
    db_room db' = Some room'
    ∧ trick_wf room'
    ∧ seats room' = seats room ∧ teamMap room' = teamMap room
    ∧ trumpSuit room' = trumpSuit room ∧ hiderSeat room' = hiderSeat room
    ∧ (trumpRevealed room = true → trumpRevealed room' = true).
Proof.
  intros Hstep Hroom Hwf.
  assert (Hsnoc : ∀ p : Play, length (plays room ++ [p]) = S (length (plays room)))
    by (intros p; rewrite length_app; simpl; lia).
  destruct Hwf as ((ss0 & Hss0 & Hlt) & Hled & Hord) eqn:Hwf'. clear Hwf'.
  destruct Hstep as [c played db db' Hplay|c b db db' Hrev].
  - apply playCard_inv in Hplay
      as (u & st & room0 & hand & ss & Hon & Hroom0 & Hhand & Hin & Hss & Hcase).
    assert (room0 = room) as -> by congruence.
    assert (ss0 = ss) as -> by congruence.
    cbv zeta in Hcase. rewrite Hsnoc in Hcase.
    destruct Hcase as [[Hn ->]|(Hn & win & tens' & _ & ->)].
    + eexists. split; [reflexivity|]. simpl. split; [|done].
      destruct (trick_wf_snoc room (play_of st room u played)
                  (led_after room played)) as [Hled' Hord'];
        [done|done| |].
      { unfold led_after. destruct (plays room) as [|q rest]; simpl; [done|].
        by rewrite Hled. }
      split; [|done]. exists ss. split; [done|].
      unfold room_after_play, room_after_reveal. simpl. rewrite length_app.
      simpl. lia.
    + eexists. split; [reflexivity|]. simpl. split; [|done].
      split; [|done]. exists ss. split; [done|]. simpl. lia.
  - apply revealTrumpAndPlay_inv in Hrev
      as (u & room0 & hand & ss & played & usingHidden & Hu & Hroom0 & Hhand
          & Hss & Hturn & _ & Hcase).
    assert (room0 = room) as -> by congruence.
    assert (ss0 = ss) as -> by congruence.
    cbv zeta in Hcase. rewrite Hsnoc in Hcase.
    destruct Hcase as [[Hn ->]|(Hn & win & tens' & _ & ->)].
    + eexists. split; [reflexivity|]. simpl. split; [|done].
      destruct (trick_wf_snoc room
                  (mkPlay (indexOf ss u) played (Z.of_nat (length (plays room))))
                  (match ledSuit room with
                   | Some l => Some l
                   | None => cardSuit ∘ card
                             <$> head (plays room
                                       ++ [mkPlay (indexOf ss u) played
                                             (Z.of_nat (length (plays room)))])
                   end)) as [Hled' Hord'];
        [done|done| |].
      { destruct (plays room) as [|q rest]; simpl; by rewrite Hled. }
      split; [|done]. exists ss. split; [done|].
      unfold room_after_play, room_after_reveal. simpl. rewrite length_app.
      simpl. lia.
    + eexists. split; [reflexivity|]. simpl. split; [|done].
      split; [|done]. exists ss. split; [done|]. simpl. lia.
Qed.

Lemma game_step_keeps_trick_in_order_witness :
  ∃ room', trick_wf room' ∧ seats room' = seats demo_room.
Proof.
  destruct (game_step_keeps_trick_in_order demo_following
              (mkDb
                 (Some (room_after_play demo_room ["u0"; "u1"; "u2"; "u3"]%string
                          (Some S_)
                          [mkPlay 1 (mkCard RK S_) 0; mkPlay 2 (mkCard R9 S_) 1]))
                 (<["u2"%string := mkHand [mkCard RA H_; mkCard R4 C_] None]>
                    (db_hands demo_following)))
              demo_room)
    as (room' & _ & Hwf & Hseats & _).
  - apply (step_play (screen_of "u2" demo_following) (mkCard R9 S_)).
    vm_compute. reflexivity.
  - reflexivity.
  - split; [|split].
    + exists ["u0"; "u1"; "u2"; "u3"]%string. split; [reflexivity|]. simpl. lia.
    + reflexivity.
    + intros k p Hk. destruct k as [|[|k]]; simpl in Hk; [|done|done].
      by injection Hk as <-.
  - exists room'. split; [exact Hwf|exact Hseats].
Defined.

Lemma evaluateTrickWinner_is_Some (plays : list Play)
    (ledSuit trumpSuit : option Suit) (p : Play) :
  p ∈ plays → Some (suit_of p) = ledSuit →
  is_Some (evaluateTrickWinner plays ledSuit trumpSuit).
Proof.
  intros Hp Hsuit.
  destruct (evaluateTrickWinner_last_of_suit plays ledSuit trumpSuit)
    as (s & -> & Hs).
  assert (Hp0 : ∃ p0, p0 ∈ filter (λ p, Some (suit_of p) = s) plays).
  { destruct Hs as [[(t & q & -> & Hq & Hqs) ->]|[_ ->]].
    - exists q. apply list_elem_of_filter. by rewrite Hqs.
    - exists p. by apply list_elem_of_filter. }
  destruct Hp0 as [p0 Hp0].
  destruct (sorted_contenders_last _ p0 Hp0) as (w & Hw & _). by exists w.
Qed.

(** X15. On a stored room whose trick is in order and that has a team map,
    [playCard] by the seat at turn with a card of the stored hand always
    commits: the resolution of a full trick finds a winner and throws no
    [TypeError]. *)
Theorem playCard_commits_in_order (c : Client) (db : Db) (played : Card)
    (u : string) (st room : RoomState) (hand : HandDoc) :
  on_turn c u st →
  db_room db = Some room → trick_wf room → is_Some (teamMap room) →
  db_hands db !! u = Some hand → played ∈ visible hand →
  ∃ db', playCard c db played = Committed db'.
Proof.
  intros (Hr & Hu & Hst & Hmine & Hturn) Hroom
    ((ss & Hss & Hlt) & Hled & _) [tm Htm] Hhand Hin.
  unfold playCard. destruct Hr as [r ->], Hmine as [mine ->].
  rewrite Hu, Hst. cbn [mbind option_bind]. rewrite Hroom, Hhand.
  rewrite decide_False by (rewrite Hturn; by intros []).
  destruct (Z.ltb_spec (indexOf (visible hand) played) 0) as [Hneg|_].
  { apply indexOf_nonneg in Hin. lia. }
  rewrite Hss. case_decide as Hn; [|by eexists].
  set (play := mkPlay _ played _).
  set (led := if bool_decide (length (plays room) = 0%nat)
              then Some (cardSuit played) else ledSuit room).
  assert (Hwin : is_Some (evaluateTrickWinner (plays room ++ [play]) led
                            (if trumpRevealed room then trumpSuit room else None))).
  { destruct (plays room) as [|q rest] eqn:Hplays.
    - apply (evaluateTrickWinner_is_Some _ _ _ play); [left|done].
    - apply (evaluateTrickWinner_is_Some _ _ _ q); [left|].
      unfold led. simpl. by rewrite Hled. }
  destruct Hwin as [win Hwin]. unfold credit_trick. rewrite Hwin, Htm. simpl.
  by eexists.
Qed.

Lemma playCard_commits_in_order_witness :
  ∃ db', playCard (screen_of "u3" demo_last_play) demo_last_play (mkCard R9 S_)
         = Committed db'.
Proof.
  eapply (playCard_commits_in_order _ _ _ "u3").
  - unfold on_turn. repeat split; by eexists.
  - reflexivity.
  - split; [|split].
    + exists ["u0"; "u1"; "u2"; "u3"]%string. split; [reflexivity|]. simpl. lia.
    + reflexivity.
    + intros k p Hk. destruct k as [|[|[|k]]]; simpl in Hk; try done;
        by injection Hk as <-.
  - by eexists.
  - reflexivity.
  - left.
Defined.

(** X16. A press on a card reaches [playCard] only for a legal card of the
    screen's hand at the screen's turn. So when the screen's snapshots are
    the stored room and the stored hand, a play committed through a press
    is a legal play of the stored hand for the stored led suit: if the hand
    holds a card of the led suit, the played card is of the led suit. *)
Theorem pressCard_follows_suit (c : Client) (db db' : Db) (item : Card) :
  pressCard c db item = Committed db' →
  state c = db_room db →
  (∀ u, truthy (uid c) = Some u → myHand c = db_hands db !! u) →
  playCard c db item = Committed db'
  ∧ ∃ u room hand,
      truthy (uid c) = Some u
      ∧ db_room db = Some room ∧ db_hands db !! u = Some hand
      ∧ item ∈ legalPlays (visible hand) (ledSuit room)
      ∧ ∀ x, x ∈ visible hand → Some (cardSuit x) = ledSuit room →
             Some (cardSuit item) = ledSuit room.
Proof.
  unfold pressCard. intros Hpress Hsync Hmy.
  destruct (state c) as [st|] eqn:Hst; [|done].
  destruct (bool_decide (currentTurnSeat st = _)); simpl in Hpress; [|done].
  destruct (bool_decide (item ∈ _)) eqn:Hlegal; [|done].
  apply bool_decide_eq_true in Hlegal. split; [done|].
  destruct (playCard_inv _ _ _ _ Hpress)
    as (u & st' & room & hand & ss & (_ & Hu & _) & Hroom & Hhand & _).
  rewrite (Hmy u Hu), Hhand in Hlegal.
  assert (st = room) as -> by congruence.
  exists u, room, hand. repeat (split; [done|]).
  intros x Hx Hsuit.
  destruct (ledSuit room) as [l|]; [|done]. injection Hsuit as Hsuit.
  unfold legalPlays in Hlegal.
  assert (Hin : x ∈ filter (λ c, cardSuit c = l) (visible hand))
    by by apply list_elem_of_filter.
  rewrite decide_True in Hlegal by (by destruct Hin).
  apply list_elem_of_filter in Hlegal as [-> _]. done.
Qed.

Lemma pressCard_follows_suit_witness :
  playCard (screen_of "u2" demo_following) demo_following (mkCard R9 S_)
  = pressCard (screen_of "u2" demo_following) demo_following (mkCard R9 S_).
Proof.
  destruct (pressCard_follows_suit (screen_of "u2" demo_following)
              demo_following
              (mkDb
                 (Some (room_after_play demo_room ["u0"; "u1"; "u2"; "u3"]%string
                          (Some S_)
                          [mkPlay 1 (mkCard RK S_) 0; mkPlay 2 (mkCard R9 S_) 1]))
                 (<["u2"%string := mkHand [mkCard RA H_; mkCard R4 C_] None]>
                    (db_hands demo_following)))
              (mkCard R9 S_)) as [Hplay _].
  - vm_compute. reflexivity.
  - reflexivity.
  - intros u Hu. injection Hu as <-. reflexivity.
  - rewrite Hplay. vm_compute. reflexivity.
Defined.

(* ===================================================================== *)
(** ** The card a reveal plays *)
(* ===================================================================== *)

(** The default sort compares the card strings, that is the rank letters
    and then the suit letters by their character codes. *)
Lemma default_cmp_key (a b : Card) :
  default_cmp a b <= 0 ↔ card_key a <= card_key b.
Proof.
  rewrite <- !Z.leb_le.
  assert ((default_cmp a b <=? 0) = (card_key a <=? card_key b)) as ->; [|done].
  by destruct a as [[] []], b as [[] []].
Qed.

Lemma default_cmp_total (a b : Card) : 0 < default_cmp a b → default_cmp b a <= 0.
Proof.
  pose proof (default_cmp_key a b). rewrite default_cmp_key. lia.
Qed.

Lemma default_cmp_trans (a b c : Card) :
  default_cmp a b <= 0 → default_cmp b c <= 0 → default_cmp a c <= 0.
Proof. rewrite !default_cmp_key. lia. Qed.

Lemma default_cmp_refl (a : Card) : default_cmp a a <= 0.
Proof. rewrite default_cmp_key. lia. Qed.

Lemma js_sort_default_sorted (l : list Card) :
  StronglySorted (λ a b, card_key a <= card_key b) (js_sort default_cmp l).
Proof.
  pose proof (js_sort_sorted default_cmp default_cmp_total default_cmp_trans l)
    as Hs.
  induction Hs as [|x l' Hs IH Hx]; constructor; [done|].
  eapply Forall_impl; [exact Hx|]. intros y. apply default_cmp_key.
Qed.

Lemma hand_after_reveal_cards (room : RoomState) (hand : HandDoc)
    (played : Card) (usingHidden useHiddenIfOnly : bool) :
  (usingHidden = false
   ∧ last (js_sort default_cmp (visible_trumps room hand)) = Some played)
  ∨ (usingHidden = true ∧ useHiddenIfOnly = true
     ∧ visible_trumps room hand = []
     ∧ hidden hand = Some played
     ∧ Some (cardSuit played) = trumpSuit room) →
  played :: visible (hand_after_reveal hand played usingHidden)
  ≡ₚ visible hand ++ option_list (hidden hand)
  ∧ Some (cardSuit played) = trumpSuit room
  ∧ ∀ x, x ∈ visible hand → Some (cardSuit x) = trumpSuit room →
         played ∈ visible hand
         ∧ letter_code (cardRank x) <= letter_code (cardRank played).
Proof.
  unfold hand_after_reveal. simpl.
  intros [[-> Hlast]|(-> & _ & Hnil & Hhid & Hsuit)].
  - pose proof Hlast as Hin.
    apply last_elem_of, js_sort_elem_of, list_elem_of_filter in Hin
      as [Hsuit Hin].
    split; [|split; [done|]].
    + rewrite (js_sort_Permutation default_cmp), app_comm_cons.
      by rewrite remove_first_Permutation.
    + intros x Hx Hxs. split; [done|].
      assert (Hxt : x ∈ visible_trumps room hand)
        by by apply list_elem_of_filter.
      pose proof (js_sort_last_max default_cmp default_cmp_total
                    default_cmp_trans _ _ default_cmp_refl Hlast x Hxt) as Hle.
      apply default_cmp_key in Hle. unfold card_key in Hle.
      assert (cardSuit x = cardSuit played) as Heq by congruence.
      rewrite Heq in Hle. lia.
  - split; [|split; [done|]].
    + rewrite (js_sort_Permutation default_cmp), Hhid. simpl.
      by rewrite (comm (++) _ [played]).
    + intros x Hx Hxs.
      assert (Hxt : x ∈ visible_trumps room hand)
        by by apply list_elem_of_filter.
      rewrite Hnil in Hxt. by apply elem_of_nil in Hxt.
Qed.

(** X17. A committed reveal takes one card of the trump suit out of the
    hand: the played card with the new visible hand is the old visible
    hand with the hidden card. When the hand has a visible trump, the
    played card is a visible trump, the one whose rank letter has the
    greatest character code: the 10 ('T') before the Queen, the King, the
    Jack and the Ace, and these before the digits. *)
Theorem reveal_plays_last_letter (c : Client) (db db' : Db)
    (useHiddenIfOnly : bool) :
  revealTrumpAndPlay c db useHiddenIfOnly = Committed db' →
  ∃ u room hand hand' played,
    truthy (uid c) = Some u
    ∧ db_room db = Some room ∧ db_hands db !! u = Some hand
    ∧ db_hands db' !! u = Some hand'
    ∧ played :: visible hand' ≡ₚ visible hand ++ option_list (hidden hand)
    ∧ Some (cardSuit played) = trumpSuit room
    ∧ ∀ x, x ∈ visible hand → Some (cardSuit x) = trumpSuit room →
           played ∈ visible hand
           ∧ letter_code (cardRank x) <= letter_code (cardRank played).
Proof.
  intros (u & room & hand & ss & played & usingHidden & Hu & Hroom & Hhand
          & Hss & Hturn & Hchoice & Hcase)%revealTrumpAndPlay_inv.
  exists u, room, hand, (hand_after_reveal hand played usingHidden), played.
  repeat (split; [done|]). split.
  - cbv zeta in Hcase.
    destruct Hcase as [[_ ->]|(_ & win & tens' & _ & ->)]; simpl;
      by rewrite lookup_insert_eq.
  - by eapply hand_after_reveal_cards.
Qed.

Lemma reveal_plays_last_letter_witness :
  ∃ played,
    mkCard R4 C_ ∈ [mkCard RA H_; mkCard R4 C_; mkCard RT C_] →
    letter_code R4 <= letter_code (cardRank played).
Proof.
  destruct (reveal_plays_last_letter (screen_of "u2" demo_void) demo_void
              (mkDb
                 (Some (room_after_reveal demo_room
                          ["u0"; "u1"; "u2"; "u3"]%string 2 (Some S_)
                          [mkPlay 1 (mkCard RK S_) 0; mkPlay 2 (mkCard RT C_) 1]))
                 (<["u2"%string := mkHand [mkCard R4 C_; mkCard RA H_] None]>
                    (db_hands demo_void)))
              false)
    as (u & room & hand & hand' & played & Hu & Hroom & Hhand & _ & _ & _ & Hmax).
  - vm_compute. reflexivity.
  - exists played. injection Hu as <-. injection Hroom as <-.
    vm_compute in Hhand. injection Hhand as <-.
    intros Hin. by apply (Hmax (mkCard R4 C_) Hin).
Defined.

(** X18. A reveal is committed only for the user whose seat in the stored
    seat list is the stored current turn seat. It records trump as
    revealed, by that seat, and leaves the user's visible hand sorted by
    the card strings. *)
Theorem reveal_by_stored_turn_seat (c : Client) (db db' : Db)
    (useHiddenIfOnly : bool) :
  revealTrumpAndPlay c db useHiddenIfOnly = Committed db' →
  ∃ u room ss room' hand',
    truthy (uid c) = Some u
    ∧ db_room db = Some room ∧ seats room = Some ss
    ∧ currentTurnSeat room = Some (indexOf ss u)
    ∧ db_room db' = Some room' ∧ db_hands db' !! u = Some hand'
    ∧ trumpRevealed room' = true
    ∧ trumpRevealedBySeat room' = Some (indexOf ss u)
    ∧ StronglySorted (λ a b, card_key a <= card_key b) (visible hand').
Proof.
  intros (u & room & hand & ss & played & usingHidden & Hu & Hroom & Hhand
          & Hss & Hturn & Hchoice & Hcase)%revealTrumpAndPlay_inv.
  cbv zeta in Hcase.
  destruct Hcase as [[_ ->]|(_ & win & tens' & _ & ->)];
    eexists u, room, ss, _, (hand_after_reveal hand played usingHidden);
    (split_and!;
     [done|done|done|done|reflexivity
     |apply (lookup_insert_eq (M := gmap string))
     |done|done|apply js_sort_default_sorted]).
Qed.

Lemma reveal_by_stored_turn_seat_witness :
  ∃ room', trumpRevealed room' = true ∧ trumpRevealedBySeat room' = Some 2.
Proof.
  destruct (reveal_by_stored_turn_seat (screen_of "u2" demo_void) demo_void
              (mkDb
                 (Some (room_after_reveal demo_room
                          ["u0"; "u1"; "u2"; "u3"]%string 2 (Some S_)
                          [mkPlay 1 (mkCard RK S_) 0; mkPlay 2 (mkCard RT C_) 1]))
                 (<["u2"%string := mkHand [mkCard R4 C_; mkCard RA H_] None]>
                    (db_hands demo_void)))
              false)
    as (u & room & ss & room' & hand' & Hu & Hroom & Hss & _ & _ & _ & Hrev & Hby & _).
  - vm_compute. reflexivity.
  - exists room'. injection Hu as <-. injection Hroom as <-.
    injection Hss as <-. split; [exact Hrev|exact Hby].
Defined.

(** X19. On a stored room whose trick is in order and that has a team map,
    the reveal of a ready screen that sees trump unrevealed, a led suit and
    a hand void in it commits as soon as it is the user's turn in the
    stored room and the stored hand has a visible trump, or a hidden trump
    with [useHiddenIfOnly] set. *)
Theorem reveal_commits_in_order (c : Client) (db : Db) (useHiddenIfOnly : bool)
    (u : string) (st room : RoomState) (mine hand : HandDoc) (ss : list string) :
  is_Some (truthy (roomId c)) → truthy (uid c) = Some u →
  state c = Some st → myHand c = Some mine →
  canRevealTrump (visible mine) (hidden mine) (ledSuit st) (trumpRevealed st)
  = true →
  db_room db = Some room → trick_wf room → is_Some (teamMap room) →
  seats room = Some ss → currentTurnSeat room = Some (indexOf ss u) →
  db_hands db !! u = Some hand →
  visible_trumps room hand ≠ []
  ∨ (useHiddenIfOnly = true
     ∧ ∃ h, hidden hand = Some h ∧ Some (cardSuit h) = trumpSuit room) →
  ∃ db', revealTrumpAndPlay c db useHiddenIfOnly = Committed db'.
Proof.
  intros [r Hr] Hu Hst Hmine Hcan Hroom ((ss0 & Hss0 & Hlt) & Hled & _)
    [tm Htm] Hss Hturn Hhand Htrump.
  assert (ss0 = ss) as -> by congruence.
  unfold canRevealTrump in Hcan.
  destruct (trumpRevealed st) eqn:Hrevealed; [done|].
  destruct (ledSuit st) as [l|] eqn:Hl; [|done].
  destruct (existsb _ (visible mine)) eqn:Hex; [done|].
  unfold revealTrumpAndPlay. rewrite Hr, Hu, Hst, Hmine.
  cbn [mbind option_bind]. rewrite Hl, Hrevealed, existsb_legalPlays, Hex.
  rewrite Hroom, Hss, Hhand.
  rewrite decide_False by (rewrite Hturn; by intros []).
  fold (visible_trumps room hand).
  assert (Hcredit : ∀ p : Play,
            is_Some (credit_trick room (plays room ++ [p])
                       (match ledSuit room with
                        | Some l => Some l
                        | None => cardSuit ∘ card <$> head (plays room ++ [p])
                        end) (trumpSuit room))).
  { intros p. unfold credit_trick. rewrite Htm.
    assert (Hwin : is_Some (evaluateTrickWinner (plays room ++ [p])
                              (match ledSuit room with
                               | Some l => Some l
                               | None => cardSuit ∘ card <$> head (plays room ++ [p])
                               end) (trumpSuit room))).
    { destruct (plays room) as [|q rest] eqn:Hplays.
      - rewrite Hled. apply (evaluateTrickWinner_is_Some _ _ _ p); [left|done].
      - rewrite Hled. apply (evaluateTrickWinner_is_Some _ _ _ q); [left|done]. }
    destruct Hwin as [win ->]. simpl. by eexists. }
  case_decide as Hlen.
  - destruct (last_is_Some_nonempty (js_sort default_cmp (visible_trumps room hand)))
      as [x Hx].
    { intros Hnil. apply Hlen.
      by rewrite <- (Permutation_length (js_sort_Permutation default_cmp _)), Hnil. }
    rewrite Hx. simpl. case_decide; [|by eexists].
    destruct (Hcredit (mkPlay (indexOf ss u) x (Z.of_nat (length (plays room)))))
      as [[win tens'] ->]. by eexists.
  - apply length_zero_iff_nil in Hlen.
    destruct Htrump as [Hne|(-> & h & Hh & Hsuit)]; [done|].
    rewrite Hh. rewrite decide_True by done. simpl.
    case_decide; [|by eexists].
    destruct (Hcredit (mkPlay (indexOf ss u) h (Z.of_nat (length (plays room)))))
      as [[win tens'] ->]. by eexists.
Qed.

Lemma reveal_commits_in_order_witness :
  ∃ db', revealTrumpAndPlay (screen_of "u0" demo_hider) demo_hider true
         = Committed db'.
Proof.
  eapply (reveal_commits_in_order _ _ _ "u0" demo_hider_room demo_hider_room).
  - by eexists.
  - reflexivity.
  - reflexivity.
  - reflexivity.
  - reflexivity.
  - reflexivity.
  - split; [|split].
    + exists ["u0"; "u1"; "u2"; "u3"]%string. split; [reflexivity|]. simpl. lia.
    + reflexivity.
    + intros k p Hk. destruct k as [|k]; simpl in Hk; [|done].
      by injection Hk as <-.
  - by eexists.
  - reflexivity.
  - reflexivity.
  - reflexivity.
  - right. split; [reflexivity|]. by eexists.
Defined.

(* ===================================================================== *)
(** ** The lobby and the setup screen *)
(* ===================================================================== *)

Lemma first_free_loop_Some (taken : list Z) (fuel : nat) (s r : Z) :
  first_free_loop taken fuel s = Some r →
  s <= r < s + Z.of_nat fuel ∧ (r ∉ taken) ∧ ∀ k, s <= k < r → k ∈ taken.
Proof.
  revert s. induction fuel as [|fuel IH]; intros s Hr; simpl in Hr; [done|].
  case_decide as Hs.
  - apply IH in Hr as (Hrange & Hfree & Hbelow).
    split; [lia|]. split; [done|]. intros k Hk.
    destruct (decide (k = s)) as [->|]; [done|]. apply Hbelow. lia.
  - injection Hr as <-. split; [lia|]. split; [done|]. intros k Hk. lia.
Qed.

Lemma first_free_loop_None (taken : list Z) (fuel : nat) (s : Z) :
  first_free_loop taken fuel s = None →
  ∀ k, s <= k < s + Z.of_nat fuel → k ∈ taken.
Proof.
  revert s. induction fuel as [|fuel IH]; intros s Hr k Hk; simpl in Hr; [lia|].
  case_decide as Hs; [|done].
  destruct (decide (k = s)) as [->|]; [done|]. apply (IH (s + 1)); [done|lia].
Qed.

Lemma first_seats_elem_of (n : nat) (k : Z) :
  k ∈ first_seats n ↔ 0 <= k < Z.of_nat n.
Proof.
  unfold first_seats. rewrite list_elem_of_fmap. split.
  - intros (i & -> & Hi%elem_of_seq). lia.
  - intros Hk. exists (Z.to_nat k). split; [lia|]. apply elem_of_seq. lia.
Qed.

Lemma first_seats_NoDup (n : nat) : NoDup (first_seats n).
Proof. apply (NoDup_fmap_2 _), NoDup_seq. Qed.

Lemma first_seats_S (n : nat) : first_seats (S n) = first_seats n ++ [Z.of_nat n].
Proof. unfold first_seats. by rewrite seq_S, fmap_app. Qed.

Lemma first_seats_sorted (n : nat) : StronglySorted Z.le (first_seats n).
Proof.
  induction n as [|n IH]; [constructor|].
  rewrite first_seats_S. apply StronglySorted_app_2; [|done|repeat constructor].
  intros x y Hx%first_seats_elem_of Hy%list_elem_of_singleton. lia.
Qed.

(** The loop finds a seat before it runs out of tests. *)
Lemma first_free_loop_returns (taken : list Z) :
  is_Some (first_free_loop taken (S (length taken)) 0).
Proof.
  destruct (first_free_loop taken (S (length taken)) 0) as [r|] eqn:Hr;
    [by eexists|].
  pose proof (first_free_loop_None _ _ _ Hr) as Hall.
  assert (Hsub : first_seats (S (length taken)) ⊆+ taken).
  { apply NoDup_submseteq; [apply first_seats_NoDup|].
    intros k Hk%first_seats_elem_of. apply Hall. lia. }
  apply submseteq_length in Hsub. unfold first_seats in Hsub.
  rewrite length_fmap, length_seq in Hsub. lia.
Qed.

Lemma first_free_seat (players : list Player) :
  ∃ seat,
    first_free_loop (p_seat <$> players) (S (length players)) 0 = Some seat
    ∧ 0 <= seat <= Z.of_nat (length players)
    ∧ (seat ∉ p_seat <$> players)
    ∧ ∀ k, 0 <= k < seat → k ∈ p_seat <$> players.
Proof.
  destruct (first_free_loop_returns (p_seat <$> players)) as [seat Hseat].
  rewrite length_fmap in Hseat. exists seat. split; [done|].
  apply first_free_loop_Some in Hseat as (Hrange & Hfree & Hbelow).
  split; [lia|done].
Qed.

Lemma team_of_seat_rem (seat : Z) :
  0 <= seat →
  (if decide (Z.rem seat 2 = 0) then "A"%string else "B"%string)
  = team_of_seat seat.
Proof.
  intros Hseat. unfold team_of_seat.
  rewrite Z.rem_mod_nonneg by lia. rewrite Zeven_mod.
  case_decide as Hm; [by rewrite Hm|].
  by destruct (Z.eqb_spec (seat `mod` 2) 0).
Qed.

(** X20. [nextSeatAndTeam] always returns: the seat is the least number
    from 0 that no player of the list has, so it is at most the number of
    players, and the team is A for an even seat and B for an odd one. *)
Theorem nextSeatAndTeam_least_free (players : list Player) :
  ∃ seat,
    nextSeatAndTeam players = Some (seat, team_of_seat seat)
    ∧ 0 <= seat <= Z.of_nat (length players)
    ∧ (seat ∉ p_seat <$> players)
    ∧ ∀ k, 0 <= k < seat → k ∈ p_seat <$> players.
Proof.
  destruct (first_free_seat players) as (seat & Hseat & Hrange & Hfree & Hbelow).
  exists seat. split; [|done].
  unfold nextSeatAndTeam. rewrite Hseat. simpl.
  by rewrite team_of_seat_rem by lia.
Qed.

Lemma claimSeat_first_seats (players : list Player) (u : string) (p : Player) :
  p_seat <$> players ≡ₚ first_seats (length players) →
  claimSeat players u = Some p →
  (u ∉ p_uid <$> players)
  ∧ p = mkPlayer u (Z.of_nat (length players))
          (team_of_seat (Z.of_nat (length players)))
          (bool_decide (length players = 0%nat)).
Proof.
  intros Hseats Hclaim. unfold claimSeat in Hclaim.
  case_decide as Hu; [done|]. split; [done|].
  destruct (first_free_seat players) as (seat & Hseat & Hrange & Hfree & _).
  unfold nextSeatAndTeam in Hclaim. rewrite Hseat in Hclaim.
  simpl in Hclaim. rewrite team_of_seat_rem in Hclaim by lia.
  injection Hclaim as <-.
  assert (seat = Z.of_nat (length players)) as ->; [|done].
  rewrite Hseats, first_seats_elem_of in Hfree. lia.
Qed.

(** X21. When the seats are claimed one after another, each claim on a
    list that holds the claims before it, the players have distinct user
    ids and the seats 0, 1, 2, ... without a gap, the teams are A and B
    in turn by seat, and the host is the player of seat 0. *)
Theorem claimSeat_in_turn (players : list Player) :
  rtc lobby_step [] players →
  NoDup (p_uid <$> players)
  ∧ p_seat <$> players ≡ₚ first_seats (length players)
  ∧ ∀ p, p ∈ players →
         p_team p = team_of_seat (p_seat p)
         ∧ (p_isHost p = true ↔ p_seat p = 0).
Proof.
  revert players. apply rtc_ind_r.
  - split; [constructor|]. split; [done|]. by intros p Hp%elem_of_nil.
  - intros ps ps' _ (u & p & Hclaim & Hperm) (Hnodup & Hseats & Hteams).
    apply (claimSeat_first_seats _ _ _ Hseats) in Hclaim as [Hu ->].
    split; [|split].
    + rewrite (fmap_Permutation p_uid _ _ Hperm). simpl. by constructor.
    + rewrite (Permutation_length Hperm), (fmap_Permutation p_seat _ _ Hperm).
      simpl. rewrite first_seats_S, Hseats.
      by rewrite (comm (++) _ [Z.of_nat (length ps)]).
    + intros p Hp. rewrite Hperm in Hp.
      apply elem_of_cons in Hp as [->|Hp]; [|by apply Hteams]. simpl.
      split; [done|]. rewrite bool_decide_eq_true. lia.
Qed.

Lemma claimSeat_in_turn_witness :
  NoDup (p_uid <$> [mkPlayer "u1" 1 "B" false; mkPlayer "u0" 0 "A" true])
  ∧ p_seat <$> [mkPlayer "u1" 1 "B" false; mkPlayer "u0" 0 "A" true]
    ≡ₚ first_seats 2
  ∧ ∀ p, p ∈ [mkPlayer "u1" 1 "B" false; mkPlayer "u0" 0 "A" true] →
         p_team p = team_of_seat (p_seat p)
         ∧ (p_isHost p = true ↔ p_seat p = 0).
Proof.
  apply (claimSeat_in_turn [mkPlayer "u1" 1 "B" false; mkPlayer "u0" 0 "A" true]).
  eapply rtc_l; [|eapply rtc_l; [|apply rtc_refl]].
  - exists "u0"%string, (mkPlayer "u0" 0 "A" true).
    split; [reflexivity|reflexivity].
  - exists "u1"%string, (mkPlayer "u1" 1 "B" false).
    split; [reflexivity|reflexivity].
Defined.

Lemma by_seat_sorted (players : list Player) :
  StronglySorted Z.le (p_seat <$> by_seat players).
Proof.
  apply (StronglySorted_fmap _ (λ a b, p_seat a - p_seat b <= 0)); [intros; lia|].
  apply (js_sort_sorted (λ a b, p_seat a - p_seat b)); intros; lia.
Qed.

(** X22. When the seats of the players are the numbers 0 .. n-1, the seat
    list and the team list written to the room have one entry per player,
    and the entry at a player's seat number is that player's user id,
    resp. team. *)
Theorem seatsOrdered_at_seat (players : list Player) (p : Player) :
  p_seat <$> players ≡ₚ first_seats (length players) →
  p ∈ players →
  length (seatsOrdered players) = length players
  ∧ length (teamMapOrdered players) = length players
  ∧ seatsOrdered players !! Z.to_nat (p_seat p) = Some (p_uid p)
  ∧ teamMapOrdered players !! Z.to_nat (p_seat p) = Some (p_team p).
Proof.
  intros Hseats Hp. unfold seatsOrdered, teamMapOrdered.
  pose proof (js_sort_Permutation (λ a b, p_seat a - p_seat b) players) as Hperm.
  fold (by_seat players) in Hperm.
  rewrite !length_fmap, (Permutation_length Hperm).
  split; [done|]. split; [done|].
  assert (Heq : p_seat <$> by_seat players = first_seats (length players)).
  { apply (StronglySorted_unique Z.le);
      [apply by_seat_sorted|apply first_seats_sorted|].
    by rewrite Hperm. }
  rewrite <- Hperm in Hp. apply list_elem_of_lookup in Hp as [i Hi].
  assert (Hsi : (p_seat <$> by_seat players) !! i = Some (p_seat p))
    by by rewrite list_lookup_fmap, Hi.
  rewrite Heq in Hsi. unfold first_seats in Hsi.
  rewrite list_lookup_fmap in Hsi.
  destruct (seq 0 (length players) !! i) as [j|] eqn:Hj; [|done].
  apply lookup_seq in Hj as [-> _]. injection Hsi as <-.
  rewrite Nat2Z.id, !list_lookup_fmap, Hi. done.
Qed.

Lemma seatsOrdered_at_seat_witness :
  seatsOrdered [mkPlayer "u1" 1 "B" false; mkPlayer "u0" 0 "A" true]
    !! Z.to_nat 1 = Some "u1"%string.
Proof.
  apply (seatsOrdered_at_seat
           [mkPlayer "u1" 1 "B" false; mkPlayer "u0" 0 "A" true]
           (mkPlayer "u1" 1 "B" false)).
  - vm_compute. apply perm_swap.
  - left.
Defined.

(** X23. A table for which the setup screen offers a team format has 4, 6
    or 8 players, and with the deck count that [applyTeams] writes for it
    the deal uses the whole deck: the players times the cards of a player
    are the cards of the built deck. Only a table of 8 keeps the chosen
    deck count. *)
Theorem setup_table_deals_whole_deck (count : nat) (deckCount : DeckCount)
    (mode : Mode) :
  mode ∈ setup_options count →
  (count = 4 ∨ count = 6 ∨ count = 8)%nat
  ∧ (count * cardsPerPlayer count (setup_decks count deckCount))%nat
    = length (buildDecksNoTwos (setup_decks count deckCount))
  ∧ (setup_decks count deckCount = Two ↔ count = 8%nat ∧ deckCount = Two).
Proof.
  unfold setup_options, setup_decks. intros Hmode.
  destruct (decide (count = 4%nat)) as [->|H4];
    [by destruct deckCount; vm_compute; intuition (first [done|lia])|].
  destruct (decide (count = 6%nat)) as [->|H6];
    [by destruct deckCount; vm_compute; intuition (first [done|lia])|].
  destruct (decide (count = 8%nat)) as [->|H8];
    [by destruct deckCount; vm_compute; intuition (first [done|lia])|].
  by apply elem_of_nil in Hmode.
Qed.

Lemma setup_table_deals_whole_deck_witness :
  (8 * cardsPerPlayer 8 (setup_decks 8 Two))%nat
  = length (buildDecksNoTwos (setup_decks 8 Two)).
Proof.
  apply (setup_table_deals_whole_deck 8 Two M_4teams_of_2).
  vm_compute. right. left.
Defined.

(* ===================================================================== *)
(** ** The host's deal *)
(* ===================================================================== *)

Lemma computeHiderAndLeader_index (prev : option Z) (n : nat) :
  (0 < n)%nat → (∀ h, prev = Some h → 0 <= h) →
  let hider := match prev with
               | None => 0%nat
               | Some h => Z.to_nat ((h + 1) `mod` Z.of_nat n)
               end in
  computeHiderAndLeader prev n true
  = mkHiderLeader (Some (Z.of_nat hider)) (Some (Z.of_nat (seat_after hider n)))
  ∧ (hider < n)%nat ∧ (seat_after hider n < n)%nat.
Proof.
  intros Hn Hprev hider.
  assert (Hlt : (hider < n)%nat).
  { unfold hider. destruct prev as [h|]; [|lia].
    pose proof (Z.mod_pos_bound (h + 1) (Z.of_nat n)). lia. }
  split; [|split; [done|apply Nat.mod_upper_bound; lia]].
  unfold computeHiderAndLeader, seat_after.
  assert (Hh : match prev with
               | Some prev0 => js_rem (prev0 + 1) n
               | None => Some (if true then 0 else 0)
               end = Some (Z.of_nat hider)).
  { unfold hider. destruct prev as [h|]; [|done].
    specialize (Hprev h eq_refl). rewrite js_rem_nonneg by lia.
    pose proof (Z.mod_pos_bound (h + 1) (Z.of_nat n)). f_equal. lia. }
  rewrite Hh. simpl. rewrite js_rem_nonneg by lia.
  do 2 f_equal. rewrite Nat2Z.inj_mod. f_equal. lia.
Qed.

Lemma seat_index_of_nat (s : nat) : seat_index (Some (Z.of_nat s)) = Some s.
Proof.
  unfold seat_index. simpl. destruct (Z.ltb_spec (Z.of_nat s) 0); [lia|].
  by rewrite Nat2Z.id.
Qed.

(** The loop that writes the hand documents. *)
Lemma write_hands_run (ss : list string) (hands : list HandDoc) (n i : nat)
    (st : gmap string HandDoc) :
  NoDup ss → (i + n ≤ length ss)%nat → (i + n ≤ length hands)%nat →
  ∃ st',
    for_loop (write_hands ss hands) i n st = Some st'
    ∧ (∀ s u, (i ≤ s < i + n)%nat → ss !! s = Some u → st' !! u = hands !! s)
    ∧ (∀ u, (∀ s, (i ≤ s < i + n)%nat → ss !! s ≠ Some u) → st' !! u = st !! u).
Proof.
  intros Hnodup. revert i st. induction n as [|n IH]; intros i st Hss Hhands.
  - exists st. split; [done|]. split; [intros; lia|done].
  - destruct (lookup_lt_is_Some_2 ss i) as [ui Hui]; [lia|].
    destruct (lookup_lt_is_Some_2 hands i) as [hand Hhand]; [lia|].
    destruct (IH (i + 1)%nat (<[ui := hand]> st)) as (st' & Hrun & Hin & Hout);
      [lia|lia|].
    exists st'. split; [|split].
    + assert (Hbody : write_hands ss hands st i = Some (<[ui := hand]> st))
        by (unfold write_hands; by rewrite Hui, Hhand).
      cbn [for_loop]. rewrite Hbody. exact Hrun.
    + intros s u Hs Hu. destruct (decide (s = i)) as [->|Hne].
      * assert (u = ui) as -> by congruence.
        rewrite Hout, Hhand; [apply lookup_insert_eq|].
        intros s' Hs' Hus'.
        pose proof (NoDup_lookup _ _ _ _ Hnodup Hui Hus'). lia.
      * apply Hin; [lia|done].
    + intros u Hu. rewrite Hout by (intros; apply Hu; lia).
      apply lookup_insert_ne. intros ->. by apply (Hu i); [lia|].
Qed.

Lemma plan_hands_length (raw : list (list Card)) (hiderSeat idx : nat)
    (hiderHand : list Card) (h : Card) :
  length (plan_hands raw hiderSeat hiderHand idx h) = length raw.
Proof. unfold plan_hands. by rewrite length_imap, length_insert. Qed.

Lemma buildZeroCounts_lookup (teamMap : list string) (t : string) :
  buildZeroCounts teamMap !! t = if decide (t ∈ teamMap) then Some 0 else None.
Proof.
  unfold buildZeroCounts. case_decide as Ht.
  - induction teamMap as [|t' tm IH]; [by apply elem_of_nil in Ht|]. simpl.
    destruct (decide (t = t')) as [->|Hne]; [apply lookup_insert_eq|].
    rewrite lookup_insert_ne by done. apply IH.
    by apply elem_of_cons in Ht as [?|?].
  - apply not_elem_of_list_to_map_1. rewrite <- list_fmap_compose.
    intros (t' & -> & Ht')%list_elem_of_fmap. done.
Qed.

Section HostDealt.
Variable seedrandom : string → nat → Q.

(** What a deal by a ready host commits. *)
Lemma hostStartHand_commits (c : HostScreen) (db : HostDb) (room : RoomDoc)
    (ss : list string) (now : string) (random : Q) :
  ready_to_deal c db room ss → unit_interval random →
  let n := length ss in
  let hider := next_hider room n in
  let leader := seat_after hider n in
  ∃ plan hands',
    planDeal seedrandom n (default Two (rd_deckCount room)) hider leader now
      random = Some plan
    ∧ length (dp_hands plan) = n
    ∧ (hider < n)%nat ∧ (leader < n)%nat
    ∧ hostStartHand seedrandom c db now random
      = HostCommitted
          (mkHostDb
             (Some (room_after_deal room (Some (Z.of_nat hider))
                      (Some (Z.of_nat leader)) (dp_trumpSuit plan) now))
             hands')
    ∧ (∀ s u, ss !! s = Some u → hands' !! u = dp_hands plan !! s)
    ∧ (∀ u, u ∉ ss → hands' !! u = hdb_hands db !! u).
Proof.
  intros ([r Hr] & Hhost & (state & sseats & Hstate & Hinit & Hsseats & Hlen)
          & Hroom & Hss & Hnodup & Hn & Hprev) Hrandom n hider leader.
  destruct (computeHiderAndLeader_index (hiderSeat (rd_game room)) n)
    as (Hhl & Hhider & Hleader); [lia|done|].
  fold (next_hider room n) in Hhl, Hhider, Hleader.
  fold hider in Hhl, Hhider, Hleader. fold leader in Hhl, Hleader.
  destruct (planDeal_Some seedrandom n (default Two (rd_deckCount room))
              hider leader now random)
    as (raw & hiderHand & h & _ & Hraw & _ & _ & _ & _ & Hplan);
    [done|done|lia|done|].
  destruct (write_hands_run ss
              (plan_hands raw hider hiderHand
                 (floor_mul random (length hiderHand)) h)
              n 0 (hdb_hands db))
    as (hands' & Hrun & Hin & Hout);
    [done|lia|rewrite plan_hands_length; lia|].
  eexists _, hands'. split; [exact Hplan|].
  split; [simpl; by rewrite plan_hands_length|].
  split; [done|]. split; [done|]. split; [|split].
  - unfold hostStartHand. rewrite Hr, Hstate, Hhost, Hinit, Hsseats.
    cbn [negb]. rewrite Hroom, Hlen. fold n. cbv zeta. rewrite Hhl.
    cbn [hl_hider hl_leader]. rewrite !seat_index_of_nat, Hplan, Hss.
    cbn [dp_hands]. rewrite Hrun. unfold room_after_deal. cbv zeta.
    by rewrite Hss.
  - intros s u Hs. apply Hin; [|done]. apply lookup_lt_Some in Hs. lia.
  - intros u Hu. apply Hout. intros s _ Hs. apply Hu.
    by eapply list_elem_of_lookup_2.
Qed.

(** X24. A deal by a ready host commits. The hider is seat 0 on the first
    hand and the seat after the previous hider otherwise, and the plan is
    dealt from the seat after the hider. The document of the user at every
    seat is replaced by the hand of that seat in the plan, and no other
    document is written. The only hidden card is in the document of the
    hider's user, and its suit is the trump suit of the room. *)
Theorem hostStartHand_deals_the_plan (c : HostScreen) (db : HostDb)
    (room : RoomDoc) (ss : list string) (now : string) (random : Q) :
  ready_to_deal c db room ss → unit_interval random →
  let n := length ss in
  let hider := next_hider room n in
  ∃ plan db' room',
    hostStartHand seedrandom c db now random = HostCommitted db'
    ∧ planDeal seedrandom n (default Two (rd_deckCount room)) hider
        (seat_after hider n) now random = Some plan
    ∧ hdb_room db' = Some room'
    ∧ hiderSeat (rd_game room') = Some (Z.of_nat hider)
    ∧ rd_seed room' = Some now
    ∧ (∀ s u, ss !! s = Some u → hdb_hands db' !! u = dp_hands plan !! s)
    ∧ (∀ u, u ∉ ss → hdb_hands db' !! u = hdb_hands db !! u)
    ∧ ∀ s u hand, ss !! s = Some u → hdb_hands db' !! u = Some hand →
        match hidden hand with
        | Some h => s = hider ∧ trumpSuit (rd_game room') = Some (cardSuit h)
        | None => s ≠ hider
        end.
Proof.
  intros Hready Hrandom n hider.
  destruct (hostStartHand_commits c db room ss now random Hready Hrandom)
    as (plan & hands' & Hplan & Hlen & Hhider & Hleader & Hrun & Hin & Hout).
  fold n in Hplan, Hlen, Hhider, Hleader, Hrun. fold hider in Hplan, Hhider, Hleader, Hrun.
  eexists plan, _, _. split; [exact Hrun|]. split; [done|].
  split; [reflexivity|]. split; [done|]. split; [done|].
  split; [done|]. split; [done|]. simpl.
  intros s u hand Hs Hhand. rewrite (Hin s u Hs) in Hhand.
  apply planDeal_inv in Hplan as (raw & hiderHand & h & _ & Hhh & _ & ->).
  simpl in Hhand. simpl.
  apply (plan_hands_lookup _ _ _ _ _ _ _ Hhh) in Hhand
    as [[-> ->]|(Hne & dealt & _ & ->)]; simpl; done.
Qed.
End HostDealt.

Lemma demo_table_ready :
  ready_to_deal (host_screen demo_table) demo_table demo_table_room
    ["u0"; "u1"; "u2"; "u3"]%string.
Proof.
  split; [by eexists|]. split; [reflexivity|]. split.
  { exists demo_table_room, ["u0"; "u1"; "u2"; "u3"]%string.
    split; [reflexivity|]. split; [reflexivity|]. split; reflexivity. }
  split; [reflexivity|]. split; [reflexivity|]. split.
  { apply (bool_decide_unpack _). vm_compute. reflexivity. }
  split; [simpl; lia|]. intros h Hh. discriminate Hh.
Defined.

Lemma half_unit_interval : unit_interval (1 # 2).
Proof. split; vm_compute; [discriminate|reflexivity]. Defined.

Lemma hostStartHand_deals_the_plan_witness :
  ∃ db' room',
    hostStartHand demo_seedrandom (host_screen demo_table) demo_table "7" (1 # 2)
    = HostCommitted db'
    ∧ hdb_room db' = Some room'
    ∧ hiderSeat (rd_game room') = Some 0.
Proof.
  destruct (hostStartHand_deals_the_plan demo_seedrandom
              (host_screen demo_table) demo_table demo_table_room
              ["u0"; "u1"; "u2"; "u3"]%string "7" (1 # 2)
              demo_table_ready half_unit_interval)
    as (plan & db' & room' & Hrun & _ & Hroom & Hhider & _).
  exists db', room'. split; [exact Hrun|]. split; [exact Hroom|exact Hhider].
Defined.

(** X25. After the deal of a ready host the stored room is at the start of
    a hand: its trick is in order and empty, trump is not revealed, the
    seat to play is the seat after the hider, a seat of the table, the
    seat list and the team map are kept, the hand number is one more, and
    the count of tens is 0 for every team of the team map and absent for
    any other key. *)
Theorem hostStartHand_opens_first_trick (seedrandom : string → nat → Q)
    (c : HostScreen) (db : HostDb) (room : RoomDoc) (ss : list string)
    (now : string) (random : Q) :
  ready_to_deal c db room ss → unit_interval random →
  let n := length ss in
  let leader := seat_after (next_hider room n) n in
  ∃ db' room',
    hostStartHand seedrandom c db now random = HostCommitted db'
    ∧ hdb_room db' = Some room'
    ∧ trick_wf (rd_game room')
    ∧ plays (rd_game room') = []
    ∧ trumpRevealed (rd_game room') = false
    ∧ trumpRevealedBySeat (rd_game room') = None
    ∧ currentTurnSeat (rd_game room') = Some (Z.of_nat leader)
    ∧ (leader < n)%nat
    ∧ seats (rd_game room') = Some ss
    ∧ teamMap (rd_game room') = teamMap (rd_game room)
    ∧ rd_handNumber room' = rd_handNumber room + 1
    ∧ ∀ t, tensByTeam (rd_game room') !! t
           = if decide (t ∈ default [] (teamMap (rd_game room)))
             then Some 0 else None.
Proof.
  intros Hready Hrandom n leader.
  destruct (hostStartHand_commits seedrandom c db room ss now random
              Hready Hrandom)
    as (plan & hands' & _ & _ & _ & Hleader & Hrun & _).
  destruct Hready as (_ & _ & _ & _ & Hss & _ & Hn & _).
  eexists _, _. split; [exact Hrun|]. split; [reflexivity|].
  unfold room_after_deal. simpl. split_and!; try done.
  - split; [|split; [done|by intros k p Hk]].
    exists ss. split; [done|]. simpl. lia.
  - intros t. apply buildZeroCounts_lookup.
Qed.

Lemma hostStartHand_opens_first_trick_witness :
  ∃ db' room',
    hostStartHand demo_seedrandom (host_screen demo_table) demo_table "7" (1 # 2)
    = HostCommitted db'
    ∧ hdb_room db' = Some room'
    ∧ currentTurnSeat (rd_game room') = Some 1.
Proof.
  destruct (hostStartHand_opens_first_trick demo_seedrandom
              (host_screen demo_table) demo_table demo_table_room
              ["u0"; "u1"; "u2"; "u3"]%string "7" (1 # 2)
              demo_table_ready half_unit_interval)
    as (db' & room' & Hrun & Hroom & _ & _ & _ & _ & Hturn & _).
  exists db', room'. split; [exact Hrun|]. split; [exact Hroom|exact Hturn].
Defined.

Lemma planDeal_no_cards (seedrandom : string → nat → Q) (players : nat)
    (deckCount : DeckCount) (hiderSeat leaderSeat : nat) (seed : string)
    (random : Q) :
  (length (buildDecksNoTwos deckCount) < players)%nat →
  planDeal seedrandom players deckCount hiderSeat leaderSeat seed random = None.
Proof.
  intros Hlt. unfold planDeal, deal.
  rewrite cardsPerPlayer_div, Nat.div_small, Nat.mul_0_r by done.
  cbn [for_loop fmap option_fmap option_map fst mbind option_bind].
  destruct (replicate players [] !! hiderSeat) as [hand|] eqn:Hhand; [|done].
  apply lookup_replicate in Hhand as [-> _]. done.
Qed.

(** X26. A host's deal for a table with no seat, or with more seats than
    the deck has cards, throws a [TypeError] and writes nothing; so does a
    deal when the room document is missing. *)
Theorem hostStartHand_needs_cards (seedrandom : string → nat → Q)
    (c : HostScreen) (db : HostDb) (state : RoomDoc) (sseats : list string)
    (now : string) (random : Q) :
  is_Some (truthy (hs_roomId c)) → hs_amHost c = true →
  hs_state c = Some state → isInitialized state = true →
  seats (rd_game state) = Some sseats →
  (∀ room, hdb_room db = Some room →
     length sseats = 0%nat
     ∨ (length (buildDecksNoTwos (default Two (rd_deckCount room)))
        < length sseats)%nat) →
  hostStartHand seedrandom c db now random = HostThrown "TypeError".
Proof.
  intros [r Hr] Hhost Hstate Hinit Hsseats Hcards.
  unfold hostStartHand. rewrite Hr, Hstate, Hhost, Hinit, Hsseats.
  cbn [negb]. destruct (hdb_room db) as [room|]; [|done]. cbv zeta.
  destruct (Hcards room eq_refl) as [Hn|Hn].
  - rewrite Hn. unfold computeHiderAndLeader, js_rem.
    by destruct (hiderSeat (rd_game room)).
  - destruct (seat_index (hl_hider _)) as [h|]; [|done].
    destruct (seat_index (hl_leader _)) as [l|]; [|done].
    by rewrite planDeal_no_cards.
Qed.

Lemma hostStartHand_needs_cards_witness :
  hostStartHand demo_seedrandom
    (host_screen
       (mkHostDb
          (Some (mkRoomDoc
                   (mkRoom (Some []) (Some []) None None false None None None
                      [] 0 ∅)
                   (Some "2v2"%string) (Some One) (Some "u0"%string) 0 None
                   None))
          ∅))
    (mkHostDb
       (Some (mkRoomDoc
                (mkRoom (Some []) (Some []) None None false None None None
                   [] 0 ∅)
                (Some "2v2"%string) (Some One) (Some "u0"%string) 0 None None))
       ∅)
    "7" (1 # 2)
  = HostThrown "TypeError".
Proof.
  eapply (hostStartHand_needs_cards demo_seedrandom _ _ _ []).
  - by eexists.
  - reflexivity.
  - reflexivity.
  - reflexivity.
  - reflexivity.
  - intros room Hroom. left. reflexivity.
Defined.
